(** * Batched generation and dialog encoding of [llama/generation_cn_comment.py]

    A shallow embedding of the [Llama] class ([generate], [text_completion],
    [chat_completion]) and of [sample_top_p], followed by the properties of
    the decoder, the result assembler, the nucleus sampler and the dialog
    encoder.

    Conventions of the embedding.
    - Token ids are [Z] (the grid is a [torch.long] tensor; ids are assumed to
      fit its 64 bits).  Positions, lengths and the configured ceilings are
      [nat]; in particular [max_gen_len] is a length.
    - A tensor of shape (rows, columns) is a [list (list _)]; rows first.
    - Floating-point values are rationals [Q] (every finite value of a
      binary format is one).  The transcendental primitives
      ([torch.softmax], the per-position loss of [F.cross_entropy]) and
      the random draw [torch.multinomial] are fields of the record
      [Numerics]: the embedding fixes how the code combines them, not what
      they compute.  So are the operations of [sample_top_p] that round
      and decide the mask (the running sums, the subtraction, the
      conversion of the threshold), the fields of [FloatArith]; exact
      arithmetic and binary32 are two instances.  Comparisons are exact.
      The quotients of the renormalization and [logits / temperature] are
      the exact ones.
    - The scoring model and the tokenizer are the fields [model] and
      [tokenizer] of [Llama], as in the class.  The model may keep a cache
      between calls, so [forward] threads a model state.
    - Python exceptions are the constructors of [error]; an operation that
      PyTorch rejects because operand shapes disagree raises [TorchError]
      (the broadcasting of a dimension of size 1 is not modelled: the shapes
      that meet in [generate] are equal whenever the model returns one logit
      vector per row and column).
    - Division is that of [Q], where [x / 0] is [0]; PyTorch yields a
      non-finite value there and [torch.multinomial] then rejects the row. *)

From Stdlib Require Import QArith Qround Qpower Lqa Ascii Sorted.
From stdpp Require Import base list strings.
Close Scope Q_scope.

(** ** Exceptions and results *)

Inductive assertion :=
  | BatchSizeAssertion      (* assert bsz <= params.max_batch_size *)
  | SeqLenAssertion         (* assert max_prompt_len <= params.max_seq_len *)
  | RoleOrderAssertion      (* "model only supports 'system', 'user' and 'assistant' roles, ..." *)
  | LastMessageAssertion.   (* "Last message must be from user, got ..." *)

Inductive error :=
  | AssertionError (a : assertion)
  | ValueError                (* min()/max() of an empty sequence *)
  | IndexError                (* list index out of range *)
  | TorchError.               (* exception raised by a tensor operation *)

Inductive result (A : Type) :=
  | Ok (a : A)
  | Raise (e : error).
Arguments Ok {A} a.
Arguments Raise {A} e.

Definition of_option {A} (e : error) (o : option A) : result A :=
  match o with Some a => Ok a | None => Raise e end.

(** ** Numeric helpers on [Q] *)

#[global] Instance Q_inhabited : Inhabited Q := populate 0%Q.

Definition Qgtb (x y : Q) : bool := negb (Qle_bool x y).

Definition Qsum (l : list Q) : Q := foldr Qplus 0%Q l.

(** The running sums of a row in exact arithmetic, started from [acc]. *)
Fixpoint cumsum_from (acc : Q) (l : list Q) : list Q :=
  match l with
  | [] => []
  | x :: l' => (acc + x)%Q :: cumsum_from (acc + x)%Q l'
  end.

Definition cumsum (l : list Q) : list Q := cumsum_from 0%Q l.

(** ** The arithmetic of the sampler

    The operations of [sample_top_p] whose result the mask depends on and
    that round: the running sums, the subtraction and the conversion of the
    Python float [p] to the type of the tensor it is compared with. *)
Record FloatArith := {
  fl_cumsum : list Q -> list Q;     (* torch.cumsum(row, dim=-1) *)
  fl_sub : Q -> Q -> Q;             (* elementwise - *)
  fl_scalar : Q -> Q                (* a Python float as a scalar of the tensor's type *)
}.

(** Arithmetic without rounding. *)
Definition exact_arith : FloatArith := {|
  fl_cumsum := cumsum;
  fl_sub := Qminus;
  fl_scalar := fun p => p
|}.

(** *** Binary floating point

    Rounding to the nearest value with a significand of [prec] bits, ties
    to the even significand.  The exponent is not bounded: overflow and
    gradual underflow are not modelled (sums and differences of binary32
    values that do not overflow round as in IEEE 754). *)

Definition pow2 (k : Z) : Q := (2 ^ k)%Q.

(** For [0 < x], the [e] with [2^e <= x < 2^(e+1)]. *)
Definition Qexp2 (x : Q) : Z :=
  let d := (Z.log2 (Qnum x) - Z.log2 (Zpos (Qden x)))%Z in
  if Qle_bool (pow2 d) x then d else (d - 1)%Z.

Definition round_half_even (x : Q) : Z :=
  let f := Qfloor x in
  match (x - inject_Z f ?= 1 # 2)%Q with
  | Lt => f
  | Gt => (f + 1)%Z
  | Eq => if Z.even f then f else (f + 1)%Z
  end.

(** For [0 < x]. *)
Definition round_pos (prec : Z) (x : Q) : Q :=
  let k := (Qexp2 x - (prec - 1))%Z in
  Qred (inject_Z (round_half_even (x / pow2 k)) * pow2 k).

Definition round_binary (prec : Z) (x : Q) : Q :=
  match (x ?= 0)%Q with
  | Eq => 0%Q
  | Gt => round_pos prec x
  | Lt => (- round_pos prec (- x))%Q
  end.

Definition round32 : Q -> Q := round_binary 24.
Definition round64 : Q -> Q := round_binary 53.

(** [torch.cumsum] on a binary32 row as PyTorch's CPU kernel computes it:
    the running sum is kept in binary64 and every partial sum is stored in
    binary32.  Other devices add in another order. *)
Fixpoint cumsum32_from (acc : Q) (l : list Q) : list Q :=
  match l with
  | [] => []
  | x :: l' =>
      let acc' := round64 (acc + round32 x) in
      round32 acc' :: cumsum32_from acc' l'
  end.

Definition cumsum32 (l : list Q) : list Q :=
  match l with
  | [] => []
  | x :: l' => round32 x :: cumsum32_from (round32 x) l'
  end.

(** Binary32 arithmetic.  The entries of a row are binary32 values, which
    [round32] leaves alone. *)
Definition binary32_arith : FloatArith := {|
  fl_cumsum := cumsum32;
  fl_sub := fun s x => round32 (s - round32 x);
  fl_scalar := round32
|}.

(** What the statements below ask of an arithmetic: a row and its running
    sums have one length; on a row of non-negative entries no running sum
    minus the entry it ends with is negative, and the first one minus the
    first entry is zero; the conversion of a scalar keeps its sign. *)
Definition arith_laws (A : FloatArith) : Prop :=
  (forall l, length (fl_cumsum A l) = length l) /\
  (forall x l s, fl_cumsum A (x :: l) !! 0 = Some s -> (fl_sub A s x == 0)%Q) /\
  (forall l i s x,
     Forall (fun y => (0 <= y)%Q) l ->
     fl_cumsum A l !! i = Some s -> l !! i = Some x -> (0 <= fl_sub A s x)%Q) /\
  (forall p, (0 <= p)%Q -> (0 <= fl_scalar A p)%Q) /\
  (forall p, (p < 0)%Q -> (fl_scalar A p < 0)%Q).

(** The arithmetic rounds nothing on the row [l] and the threshold [p]:
    at every rank the running sum minus the entry is the sum of the entries
    before it, and the threshold is [p]. *)
Definition exact_on (A : FloatArith) (l : list Q) (p : Q) : Prop :=
  length (fl_cumsum A l) = length l /\
  (forall i s x, fl_cumsum A l !! i = Some s -> l !! i = Some x ->
     (fl_sub A s x == Qsum (take (S i) l) - x)%Q) /\
  (fl_scalar A p == p)%Q.



(** ** Nucleus sampler: [sample_top_p], one row of the batch *)

(** [torch.sort(probs, dim=-1, descending=True)]: values with their original
    indices.  Ties keep their original order. *)
Fixpoint insert_desc (x : Q * nat) (l : list (Q * nat)) : list (Q * nat) :=
  match l with
  | [] => [x]
  | y :: l' => if Qle_bool y.1 x.1 then x :: y :: l' else y :: insert_desc x l'
  end.

Definition sort_desc (probs : list Q) : list (Q * nat) :=
  foldr insert_desc [] (imap (fun i x => (x, i)) probs).

(** The order of the sorted row: no later value exceeds an earlier one. *)
Definition desc_rel (a b : Q * nat) : Prop := (b.1 <= a.1)%Q.

(** [probs_sum = torch.cumsum(probs_sort, dim=-1)] and
    [mask = probs_sum - probs_sort > p] *)
Definition top_p_mask (A : FloatArith) (probs_sort : list Q) (p : Q) : list bool :=
  let probs_sum := fl_cumsum A probs_sort in
  zip_with (fun s x => Qgtb (fl_sub A s x) (fl_scalar A p)) probs_sum probs_sort.

(** [probs_sort[mask] = 0.0] *)
Definition mask_fill (probs_sort : list Q) (mask : list bool) : list Q :=
  zip_with (fun x (m : bool) => if m then 0%Q else x) probs_sort mask.

(** [probs_sort.div_(probs_sort.sum(dim=-1, keepdim=True))]; the source has
    no guard for a sum of 0.  The sum and the quotients are the exact ones. *)
Definition renormalize (l : list Q) : list Q :=
  let s := Qsum l in map (fun x => (x / s)%Q) l.

(** The sorted, masked and renormalized row that is handed to
    [torch.multinomial]. *)
Definition top_p_probs (A : FloatArith) (probs : list Q) (p : Q) : list Q :=
  let probs_sort := (sort_desc probs).*1 in
  renormalize (mask_fill probs_sort (top_p_mask A probs_sort p)).

Definition sample_top_p {Rng : Type} (A : FloatArith)
    (multinomial : list Q -> Rng -> option nat * Rng)
    (probs : list Q) (p : Q) (g : Rng) : result Z * Rng :=
  let probs_idx := (sort_desc probs).*2 in
  match multinomial (top_p_probs A probs p) g with
  | (Some k, g') =>
      (* torch.gather(probs_idx, -1, next_token) *)
      (of_option TorchError (Z.of_nat <$> probs_idx !! k), g')
  | (None, g') => (Raise TorchError, g')
  end.

(** [torch.argmax(row, dim=-1)]: the first index holding the maximum; an
    empty row has none. *)
Fixpoint argmax_from (best : Q) (best_i i : nat) (l : list Q) : nat :=
  match l with
  | [] => best_i
  | x :: l' =>
      if Qgtb x best then argmax_from x i (S i) l'
      else argmax_from best best_i (S i) l'
  end.

Definition argmax (l : list Q) : option nat :=
  match l with
  | [] => None
  | x :: l' => Some (argmax_from x 0 1 l')
  end.

(** ** Collaborators *)

Record Tokenizer := {
  pad_id : Z;
  eos_id : Z;
  encode : string -> bool -> bool -> list Z;     (* encode(s, bos, eos) *)
  decode : list Z -> string
}.

Record ModelArgs := {
  max_batch_size : nat;
  max_seq_len : nat
}.

(** [forward(tokens, start_pos)] returns logits of shape
    (rows, columns, vocabulary). *)
Record Transformer := {
  MState : Type;
  params : ModelArgs;
  forward : MState -> list (list Z) -> nat -> MState * list (list (list Q))
}.

Record Numerics := {
  Rng : Type;                                   (* state of the global generator *)
  softmax : list Q -> list Q;                   (* torch.softmax(row, dim=-1) *)
  nll : list Q -> Z -> Q;                       (* loss of one position: -log softmax(logits)[target] *)
  multinomial : list Q -> Rng -> option nat * Rng; (* one draw; None when torch rejects the row *)
  arith : FloatArith                            (* the arithmetic of sample_top_p *)
}.

Record Llama := {
  model : Transformer;
  tokenizer : Tokenizer
}.

(** ** Python list helpers *)

(** [l[a:b]] for [0 <= a], [0 <= b]. *)
Definition slice {A} (a b : nat) (l : list A) : list A := drop a (take b l).

(** [l[::2]] and [l[1::2]] *)
Fixpoint evens {A} (l : list A) : list A :=
  match l with
  | x :: _ :: l' => x :: evens l'
  | _ => l
  end.

Definition odds {A} (l : list A) : list A := evens (tail l).

(** [min(...)] and [max(...)] of a generator: [ValueError] when it is empty. *)
Definition list_min (l : list nat) : result nat :=
  match l with
  | [] => Raise ValueError
  | x :: l' => Ok (foldl Nat.min x l')
  end.

Definition list_max (l : list nat) : result nat :=
  match l with
  | [] => Raise ValueError
  | x :: l' => Ok (foldl Nat.max x l')
  end.

(** [x in l] / [l.index(x)] *)
Definition index_of (x : Z) (l : list Z) : option nat :=
  fst <$> list_find (fun t => t = x) l.

#[global] Instance result_ret : MRet result := fun _ a => Ok a.
#[global] Instance result_bind : MBind result := fun _ _ f r =>
  match r with
  | Ok a => f a
  | Raise e => Raise e
  end.

Definition assert_ (b : bool) (a : assertion) : result unit :=
  if b then Ok tt else Raise (AssertionError a).

(** ** Messages, dialogs and prediction records *)

Inductive Role := system | user | assistant.

#[global] Instance Role_eq_dec : EqDecision Role.
Proof. solve_decision. Defined.

Record Message := {
  role : Role;
  content : string
}.

Definition Dialog : Type := list Message.

Module CompletionPrediction.
Record t := {
  generation : string;
  tokens : option (list string);
  logprobs : option (list Q)
}.
End CompletionPrediction.

Module ChatPrediction.
Record t := {
  generation : Message;
  tokens : option (list string);
  logprobs : option (list Q)
}.
End ChatPrediction.

Definition newline : string := String "010"%char EmptyString.

Definition B_INST : string := "[INST]".
Definition E_INST : string := "[/INST]".
Definition B_SYS : string := "<<SYS>>" +:+ newline.
Definition E_SYS : string := newline +:+ "<</SYS>>" +:+ newline +:+ newline.

Definition SPECIAL_TAGS : list string := [B_INST; E_INST; "<<SYS>>"; "<</SYS>>"].
Definition UNSAFE_ERROR : string :=
  "Error: special tags are not allowed as part of the prompt.".

(** [tag in s] on strings. *)
Fixpoint str_contains (tag s : string) : bool :=
  String.prefix tag s ||
  match s with
  | EmptyString => false
  | String _ s' => str_contains tag s'
  end.

(** [s.strip()]: strings are byte strings here and the white space removed
    is the ASCII white space of [str.isspace]. *)
Definition is_space (c : ascii) : bool :=
  let n := nat_of_ascii c in
  ((9 <=? n) && (n <=? 13)) || ((28 <=? n) && (n <=? 32)).

Fixpoint lstrip (s : string) : string :=
  match s with
  | String c s' => if is_space c then lstrip s' else s
  | EmptyString => EmptyString
  end.

Definition strip (s : string) : string :=
  String.rev (lstrip (String.rev (lstrip s))).

(** ** The decoder: [Llama.generate] *)

Section Generation.
Context (T : Numerics) (self : Llama).

(** What a call reads and changes outside its own variables: the state of
    the model, the state of the random generator, and (for the statements
    only) the log of the calls made to [self.model.forward]. *)
Record World := {
  model_state : MState (model self);
  rng : Rng T;
  calls : list (list (list Z) * nat)
}.

Definition M (A : Type) : Type := World -> result A * World.

#[global] Instance M_ret : MRet M := fun _ a w => (Ok a, w).
#[global] Instance M_bind : MBind M := fun _ _ f m w =>
  match m w with
  | (Ok a, w') => f a w'
  | (Raise e, w') => (Raise e, w')
  end.

Definition lift {A} (r : result A) : M A := fun w => (r, w).

(** [self.model.forward(toks, start_pos)] *)
Definition model_forward (toks : list (list Z)) (start_pos : nat)
    : M (list (list (list Q))) := fun w =>
  let '(ms, logits) := forward (model self) (model_state w) toks start_pos in
  (Ok logits,
   {| model_state := ms; rng := rng w;
      calls := calls w ++ [(toks, start_pos)] |}).

(** [sample_top_p] on one row, drawing from the global generator. *)
Definition draw_top_p (probs : list Q) (p : Q) : M Z := fun w =>
  let '(r, g) := sample_top_p (arith T) (multinomial T) probs p (rng w) in
  (r, {| model_state := model_state w; rng := g; calls := calls w |}).

Record DecodeState := {
  tokens : list (list Z);
  token_logprobs : list (list Q);
  prev_pos : nat;
  eos_reached : list bool
}.

(** [-F.cross_entropy(input=logits.transpose(1, 2), target=target,
    reduction="none", ignore_index=pad_id)]: one value per row and column,
    0 loss where the target is [pad_id]. *)
Definition neg_cross_entropy_row (logits : list (list Q)) (target : list Z)
    : list Q :=
  zip_with
    (fun lg t =>
       (- (if (t =? pad_id (tokenizer self))%Z then 0 else nll T lg t))%Q)
    logits target.

Definition neg_cross_entropy (logits : list (list (list Q)))
    (target : list (list Z)) : result (list (list Q)) :=
  if bool_decide (length <$> logits = length <$> target)
  then Ok (zip_with neg_cross_entropy_row logits target)
  else Raise TorchError.

(** The candidate of every row from [logits[:, -1]]. *)
Definition next_token_candidates (temperature top_p : Q)
    (last_logits : list (list Q)) : M (list Z) :=
  if Qgtb temperature 0 then
    mapM (fun lg =>
            draw_top_p (softmax T ((fun x => x / temperature)%Q <$> lg)) top_p)
         last_logits
  else
    lift (mapM (fun lg => of_option TorchError (Z.of_nat <$> argmax lg))
               last_logits).

(** [grid[:, j]] *)
Definition column {A} `{Inhabited A} (j : nat) (grid : list (list A)) : list A :=
  (fun row => row !!! j) <$> grid.

(** [torch.where(cond, x, y)] on vectors of one length. *)
Definition where_ (cond : list bool) (x y : list Z) : list Z :=
  zip_with (fun (cx : bool * Z) (v : Z) => if cx.1 then cx.2 else v) (zip cond x) y.

(** [grid[:, j] = col] *)
Definition set_column (j : nat) (grid : list (list Z)) (col : list Z)
    : list (list Z) :=
  zip_with (fun row v => <[j := v]> row) grid col.

(** [(~input_text_mask[:, cur_pos]) & (next_token == self.tokenizer.eos_id)] *)
Definition eos_hits (mask_col : list bool) (next_token : list Z) : list bool :=
  zip_with (fun (m : bool) v => negb m && (v =? eos_id (tokenizer self))%Z)
           mask_col next_token.

(** The contribution of column [c] to the flag of a row, read off the mask
    row and the token row: [c] is not an input position and holds the end
    marker. *)
Definition eos_hit (mrow : list bool) (row : list Z) (c : nat) : bool :=
  negb (mrow !!! c) && (row !!! c =? eos_id (tokenizer self))%Z.

(** [grid[:, a:b] = vals] *)
Definition set_columns (a b : nat) (grid vals : list (list Q)) : list (list Q) :=
  zip_with (fun row v => take a row ++ v ++ drop b row) grid vals.

(** One iteration of [for cur_pos in range(min_prompt_len, total_len)],
    up to the [break] test. *)
Definition decode_step (temperature top_p : Q) (logprobs : bool)
    (input_text_mask : list (list bool)) (cur_pos : nat) (s : DecodeState)
    : M DecodeState :=
  logits ← model_forward (slice (prev_pos s) cur_pos <$> tokens s) (prev_pos s);
  (* logits[:, -1] *)
  last_logits ← lift (mapM (fun row => of_option IndexError (last row)) logits);
  candidates ← next_token_candidates temperature top_p last_logits;
  if negb (length candidates =? length (tokens s)) then lift (Raise TorchError)
  else
    let mask_col := column cur_pos input_text_mask in
    let next_token := where_ mask_col (column cur_pos (tokens s)) candidates in
    let tokens' := set_column cur_pos (tokens s) next_token in
    lp' ← (if logprobs then
             ce ← lift (neg_cross_entropy logits
                          (slice (prev_pos s + 1) (cur_pos + 1) <$> tokens'));
             mret (set_columns (prev_pos s + 1) (cur_pos + 1) (token_logprobs s) ce)
           else mret (token_logprobs s));
    mret {| tokens := tokens';
            token_logprobs := lp';
            prev_pos := cur_pos;
            eos_reached := zip_with orb (eos_reached s) (eos_hits mask_col next_token) |}.

(** The loop with its [if all(eos_reached): break]. *)
Fixpoint decode_loop (temperature top_p : Q) (logprobs : bool)
    (input_text_mask : list (list bool)) (cols : list nat) (s : DecodeState)
    : M DecodeState :=
  match cols with
  | [] => mret s
  | cur_pos :: cols' =>
      s' ← decode_step temperature top_p logprobs input_text_mask cur_pos s;
      if forallb id (eos_reached s') then mret s'
      else decode_loop temperature top_p logprobs input_text_mask cols' s'
  end.

(** The same iterations without the [break] test: the states the loop
    goes through. *)
Fixpoint run_steps (temperature top_p : Q) (logprobs : bool)
    (input_text_mask : list (list bool)) (cols : list nat) (s : DecodeState)
    : M DecodeState :=
  match cols with
  | [] => mret s
  | cur_pos :: cols' =>
      s' ← decode_step temperature top_p logprobs input_text_mask cur_pos s;
      run_steps temperature top_p logprobs input_text_mask cols' s'
  end.

Definition total_len_of (max_gen_len max_prompt_len : nat) : nat :=
  Nat.min (max_seq_len (params (model self))) (max_gen_len + max_prompt_len).

(** [tokens = torch.full((bsz, total_len), pad_id)] with every prompt laid
    over the start of its row. *)
Definition init_tokens (prompt_tokens : list (list Z)) (total_len : nat)
    : list (list Z) :=
  (fun t => t ++ replicate (total_len - length t) (pad_id (tokenizer self)))
    <$> prompt_tokens.

(** [input_text_mask = tokens != pad_id] *)
Definition input_text_mask_of (toks : list (list Z)) : list (list bool) :=
  (fun row : list Z => (fun t => negb (t =? pad_id (tokenizer self))%Z) <$> row) <$> toks.

Definition init_state (prompt_tokens : list (list Z)) (total_len : nat)
    : DecodeState :=
  {| tokens := init_tokens prompt_tokens total_len;
     token_logprobs := (fun _ => replicate total_len 0%Q) <$> prompt_tokens;
     prev_pos := 0;
     eos_reached := replicate (length prompt_tokens) false |}.

(** The [if min_prompt_len == total_len] block. *)
Definition score_full_prompts (s : DecodeState) : M DecodeState :=
  logits ← model_forward (tokens s) (prev_pos s);
  lp ← lift (neg_cross_entropy logits (tokens s));
  mret {| tokens := tokens s; token_logprobs := lp;
          prev_pos := prev_pos s; eos_reached := eos_reached s |}.

(** The local variables of [generate] when the loop is entered. *)
Record Setup := {
  min_prompt_len : nat;
  total_len : nat;
  input_text_mask : list (list bool);
  start : DecodeState
}.

(** [generate] up to the loop: the two assertions, the grid, the mask and
    the [if min_prompt_len == total_len] block. *)
Definition generate_setup (prompt_tokens : list (list Z)) (max_gen_len : nat)
    : M Setup :=
  let bsz := length prompt_tokens in
  _ ← lift (assert_ (bsz <=? max_batch_size (params (model self)))
                    BatchSizeAssertion);
  min_prompt_len ← lift (list_min (length <$> prompt_tokens));
  max_prompt_len ← lift (list_max (length <$> prompt_tokens));
  _ ← lift (assert_ (max_prompt_len <=? max_seq_len (params (model self)))
                    SeqLenAssertion);
  let total_len := total_len_of max_gen_len max_prompt_len in
  let s0 := init_state prompt_tokens total_len in
  let input_text_mask := input_text_mask_of (tokens s0) in
  s1 ← (if min_prompt_len =? total_len then score_full_prompts s0 else mret s0);
  mret {| min_prompt_len := min_prompt_len; total_len := total_len;
          input_text_mask := input_text_mask; start := s1 |}.

(** The columns visited by [for cur_pos in range(min_prompt_len, total_len)]. *)
Definition columns (st : Setup) : list nat :=
  seq (min_prompt_len st) (total_len st - min_prompt_len st).

(** [generate] up to the end of the decoding loop. *)
Definition generate_grid (prompt_tokens : list (list Z)) (max_gen_len : nat)
    (temperature top_p : Q) (logprobs : bool) : M DecodeState :=
  st ← generate_setup prompt_tokens max_gen_len;
  decode_loop temperature top_p logprobs (input_text_mask st) (columns st) (start st).

(** The state after the first [n] iterations of the loop of [generate], the
    [break] test left out. *)
Definition generate_prefix (n : nat) (prompt_tokens : list (list Z))
    (max_gen_len : nat) (temperature top_p : Q) (logprobs : bool)
    : M DecodeState :=
  st ← generate_setup prompt_tokens max_gen_len;
  run_steps temperature top_p logprobs (input_text_mask st)
            (take n (columns st)) (start st).

(** ** The result assembler: the trimming loop that ends [generate] *)

Definition assemble_row (max_gen_len : nat) (echo : bool)
    (prompt toks : list Z) (lps : list Q) : list Z * list Q :=
  let start := if echo then 0 else length prompt in
  let stop := length prompt + max_gen_len in
  let toks := slice start stop toks in
  let probs := slice start stop lps in
  match index_of (eos_id (tokenizer self)) toks with
  | Some eos_idx => (take eos_idx toks, take eos_idx probs)
  | None => (toks, probs)
  end.

Definition assemble (prompt_tokens : list (list Z)) (max_gen_len : nat)
    (logprobs echo : bool) (s : DecodeState)
    : list (list Z) * option (list (list Q)) :=
  let rows :=
    imap (fun i toks =>
            assemble_row max_gen_len echo (prompt_tokens !!! i) toks
                         (token_logprobs s !!! i))
         (tokens s) in
  (rows.*1, if logprobs then Some rows.*2 else None).

Definition generate (prompt_tokens : list (list Z)) (max_gen_len : nat)
    (temperature top_p : Q) (logprobs echo : bool)
    : M (list (list Z) * option (list (list Q))) :=
  s ← generate_grid prompt_tokens max_gen_len temperature top_p logprobs;
  mret (assemble prompt_tokens max_gen_len logprobs echo s).

(** The shape contract of the model: one row of logits per row of tokens,
    one logit vector per column, over a vocabulary that is not empty. *)
Definition well_shaped_model : Prop :=
  forall ms toks pos,
    let logits := (forward (model self) ms toks pos).2 in
    length <$> logits = length <$> toks /\
    Forall (Forall (fun lg : list Q => lg <> [])) logits.

(** Two computations that return the same result and leave the model in
    the same state when started from worlds that agree on the state of the
    model, and that leave the random generator alone. *)
Definition greedy_related {A} (m m' : M A) : Prop :=
  forall w1 w2, model_state w1 = model_state w2 ->
    (m w1).1 = (m' w2).1 /\
    model_state (m w1).2 = model_state (m' w2).2 /\
    rng (m w1).2 = rng w1 /\ rng (m' w2).2 = rng w2.

End Generation.

Arguments model_state {T self} w.
Arguments rng {T self} w.
Arguments calls {T self} w.

(** ** Text and chat completion *)

Section Completion.
Context (T : Numerics) (self : Llama).

(** [max_gen_len = self.model.params.max_seq_len - 1] when none is given
    (for a ceiling of 0 Python computes -1, which is not a length). *)
Definition default_max_gen_len (max_gen_len : option nat) : nat :=
  match max_gen_len with
  | Some n => n
  | None => max_seq_len (params (model self)) - 1
  end.

Definition text_completion (prompts : list string) (temperature top_p : Q)
    (max_gen_len : option nat) (logprobs echo : bool)
    : M T self (list CompletionPrediction.t) :=
  let max_gen_len := default_max_gen_len max_gen_len in
  let prompt_tokens := (fun x => encode (tokenizer self) x true false) <$> prompts in
  '(generation_tokens, generation_logprobs) ←
     generate T self prompt_tokens max_gen_len temperature top_p logprobs echo;
  if logprobs then
    mret (zip_with
            (fun t logprobs_i =>
               {| CompletionPrediction.generation := decode (tokenizer self) t;
                  CompletionPrediction.tokens :=
                    Some ((fun x => decode (tokenizer self) [x]) <$> t);
                  CompletionPrediction.logprobs := Some logprobs_i |})
            generation_tokens (default [] generation_logprobs))
  else
    mret ((fun t =>
             {| CompletionPrediction.generation := decode (tokenizer self) t;
                CompletionPrediction.tokens := None;
                CompletionPrediction.logprobs := None |})
            <$> generation_tokens).

(** [any([tag in msg["content"] for tag in SPECIAL_TAGS for msg in dialog])] *)
Definition unsafe_request (dialog : Dialog) : bool :=
  existsb (fun tag => existsb (fun msg => str_contains tag (content msg)) dialog)
          SPECIAL_TAGS.

(** The merge of a leading system message into the message that follows. *)
Definition merge_system (dialog : Dialog) : result Dialog :=
  match dialog with
  | [] => Raise IndexError                             (* dialog[0] *)
  | m0 :: rest =>
      match role m0 with
      | system =>
          match rest with
          | [] => Raise IndexError                     (* dialog[1] *)
          | m1 :: rest' =>
              Ok ({| role := role m1;
                     content := B_SYS +:+ content m0 +:+ E_SYS +:+ content m1 |}
                    :: rest')
          end
      | _ => Ok dialog
      end
  end.

Definition roles_alternate (dialog : Dialog) : bool :=
  forallb (fun msg => bool_decide (role msg = user)) (evens dialog) &&
  forallb (fun msg => bool_decide (role msg = assistant)) (odds dialog).

(** The body of [for dialog in dialogs] after the unsafe-tag scan: the
    prompt tokens of one dialog. *)
Definition encode_dialog (dialog : Dialog) : result (list Z) :=
  dialog ← merge_system dialog;
  _ ← assert_ (roles_alternate dialog) RoleOrderAssertion;
  let dialog_tokens :=
    concat (zip_with
              (fun prompt answer =>
                 encode (tokenizer self)
                   (B_INST +:+ " " +:+ strip (content prompt) +:+ " " +:+ E_INST
                      +:+ " " +:+ strip (content answer) +:+ " ")
                   true true)
              (evens dialog) (odds dialog)) in
  last_msg ← of_option IndexError (last dialog);
  _ ← assert_ (bool_decide (role last_msg = user)) LastMessageAssertion;
  mret (dialog_tokens ++
        encode (tokenizer self)
          (B_INST +:+ " " +:+ strip (content last_msg) +:+ " " +:+ E_INST)
          true false).

Definition chat_message (t : list Z) (unsafe : bool) : Message :=
  {| role := assistant;
     content := if negb unsafe then decode (tokenizer self) t else UNSAFE_ERROR |}.

Definition chat_completion (dialogs : list Dialog) (temperature top_p : Q)
    (max_gen_len : option nat) (logprobs : bool)
    : M T self (list ChatPrediction.t) :=
  let max_gen_len := default_max_gen_len max_gen_len in
  let unsafe_requests := unsafe_request <$> dialogs in
  prompt_tokens ← lift T self (mapM encode_dialog dialogs);
  '(generation_tokens, generation_logprobs) ←
     generate T self prompt_tokens max_gen_len temperature top_p logprobs false;
  if logprobs then
    mret (zip_with
            (fun (tl : list Z * list Q) (unsafe : bool) =>
               {| ChatPrediction.generation := chat_message tl.1 unsafe;
                  ChatPrediction.tokens :=
                    Some ((fun x => decode (tokenizer self) [x]) <$> tl.1);
                  ChatPrediction.logprobs := Some tl.2 |})
            (zip generation_tokens (default [] generation_logprobs))
            unsafe_requests)
  else
    mret (zip_with
            (fun t (unsafe : bool) =>
               {| ChatPrediction.generation := chat_message t unsafe;
                  ChatPrediction.tokens := None;
                  ChatPrediction.logprobs := None |})
            generation_tokens unsafe_requests).

End Completion.

(** ** A small concrete instance

    A tokenizer, a model and numeric primitives on which the definitions
    above can be run.  The model scores, at every column, the successor of
    the token it reads over a vocabulary of eight ids; the tokenizer maps a
    byte [b] to the id [b + 3]; the loss reads the logit of the target, a
    draw takes the first entry of positive weight, and the sampler adds
    without rounding. *)

Module Toy.

Definition tok : Tokenizer := {|
  pad_id := -1;
  eos_id := 2;
  encode := fun s (bos eos : bool) =>
    (if bos then [1%Z] else []) ++
    ((fun c => Z.of_nat (nat_of_ascii c) + 3)%Z <$> String.list_ascii_of_string s) ++
    (if eos then [2%Z] else []);
  decode := fun l =>
    String.string_of_list_ascii
      ((fun t => ascii_of_nat (Z.to_nat (t - 3))) <$> filter (fun t => (3 <=? t)%Z = true) l)
|}.

Definition successor_logits (t : Z) : list Q :=
  (fun i => if (Z.of_nat i =? (t + 1) `mod` 8)%Z then 1%Q else 0%Q) <$> seq 0 8.

Definition successor_model (max_bsz max_len : nat) : Transformer := {|
  MState := unit;
  params := {| max_batch_size := max_bsz; max_seq_len := max_len |};
  forward := fun _ toks _ =>
    (tt, (fun row : list Z => successor_logits <$> row) <$> toks)
|}.

Definition numerics : Numerics := {|
  Rng := nat;
  softmax := fun l => l;
  nll := fun lg t => (- (lg !!! Z.to_nat t))%Q;
  multinomial := fun l g =>
    (fst <$> list_find (fun x => Qgtb x 0 = true) l, S g);
  arith := exact_arith
|}.

Definition llama (max_bsz max_len : nat) : Llama :=
  {| model := successor_model max_bsz max_len; tokenizer := tok |}.

Definition world0 (max_bsz max_len : nat) : World numerics (llama max_bsz max_len) :=
  @Build_World numerics (llama max_bsz max_len) tt 0 [].

Definition msg (r : Role) (c : string) : Message := {| role := r; content := c |}.

(** The local variables of [generate] when the loop is entered, on the
    batch [[5]] with [max_gen_len = 1]. *)
Definition single_setup : Setup := {|
  min_prompt_len := 1;
  total_len := 2;
  input_text_mask := [[true; false]];
  start := {| tokens := [[5; -1]]%Z;
              token_logprobs := [[0; 0]]%Q;
              prev_pos := 0;
              eos_reached := [false] |}
|}.

(** The same on the batch [[5], [1, -1]], whose second prompt holds
    [pad_id], and the state after the step at column 1. *)
Definition pad_setup : Setup := {|
  min_prompt_len := 1;
  total_len := 3;
  input_text_mask := [[true; false; false]; [true; false; false]];
  start := {| tokens := [[5; -1; -1]; [1; -1; -1]]%Z;
              token_logprobs := [[0; 0; 0]; [0; 0; 0]]%Q;
              prev_pos := 0;
              eos_reached := [false; false] |}
|}.

Definition pad_step : DecodeState := {|
  tokens := [[5; 6; -1]; [1; 2; -1]]%Z;
  token_logprobs := [[0; 0; 0]; [0; 0; 0]]%Q;
  prev_pos := 1;
  eos_reached := [false; true]
|}.

(** The same on the batch [[5, 6], [7, 3]] under a sequence ceiling of 2:
    both prompts fill the grid. *)
Definition full_setup : Setup := {|
  min_prompt_len := 2;
  total_len := 2;
  input_text_mask := [[true; true]; [true; true]];
  start := {| tokens := [[5; 6]; [7; 3]]%Z;
              token_logprobs := [[0; 0]; [0; 0]]%Q;
              prev_pos := 0;
              eos_reached := [false; false] |}
|}.

(** The same on the batch [[1], [1]] with [max_gen_len = 5], and the state
    after the step at column 1, where both rows receive the end marker. *)
Definition eos_setup : Setup := {|
  min_prompt_len := 1;
  total_len := 6;
  input_text_mask := [[true; false; false; false; false; false];
                      [true; false; false; false; false; false]];
  start := {| tokens := [[1; -1; -1; -1; -1; -1]; [1; -1; -1; -1; -1; -1]]%Z;
              token_logprobs := [[0; 0; 0; 0; 0; 0]; [0; 0; 0; 0; 0; 0]]%Q;
              prev_pos := 0;
              eos_reached := [false; false] |}
|}.

Definition eos_step : DecodeState := {|
  tokens := [[1; 2; -1; -1; -1; -1]; [1; 2; -1; -1; -1; -1]]%Z;
  token_logprobs := [[0; 0; 0; 0; 0; 0]; [0; 0; 0; 0; 0; 0]]%Q;
  prev_pos := 1;
  eos_reached := [true; true]
|}.

(** The prompt tokens of the dialog made of the one user message
    ["[INST]"]. *)
Definition inst_prompt : list Z :=
  [1; 94; 76; 81; 86; 87; 96; 35; 94; 76; 81; 86; 87; 96; 35; 94; 50; 76; 81;
   86; 87; 96]%Z.

End Toy.

(** * Properties of the nucleus sampler *)

Lemma Qgtb_true x y : Qgtb x y = true <-> (y < x)%Q.
Proof.
  unfold Qgtb. rewrite negb_true_iff, <- not_true_iff_false, Qle_bool_iff.
  split; [apply Qnot_le_lt | apply Qlt_not_le].
Qed.

Lemma Qgtb_false x y : Qgtb x y = false <-> (x <= y)%Q.
Proof. unfold Qgtb. rewrite negb_false_iff. apply Qle_bool_iff. Qed.

#[global] Instance Qgtb_proper : Proper (Qeq ==> Qeq ==> eq) Qgtb.
Proof. intros x x' Hx y y' Hy. unfold Qgtb. now rewrite Hx, Hy. Qed.

Lemma Qsum_app l1 l2 : (Qsum (l1 ++ l2) == Qsum l1 + Qsum l2)%Q.
Proof.
  induction l1 as [|x l1 IH]; simpl.
  - lra.
  - unfold Qsum in *. simpl. rewrite IH. lra.
Qed.

Lemma Qsum_cons x l : Qsum (x :: l) = (x + Qsum l)%Q.
Proof. reflexivity. Qed.

Lemma Qsum_nonneg l : Forall (fun x => (0 <= x)%Q) l -> (0 <= Qsum l)%Q.
Proof.
  induction 1 as [|x l Hx _ IH]; [ apply Qle_refl | rewrite Qsum_cons; lra ].
Qed.

Lemma Qsum_take_S l i x :
  l !! i = Some x -> (Qsum (take (S i) l) == Qsum (take i l) + x)%Q.
Proof.
  intros H. rewrite (take_S_r _ _ _ H), Qsum_app, Qsum_cons.
  change (Qsum []) with 0%Q. lra.
Qed.




(** The running sums are the sums of the prefixes. *)
Lemma cumsum_from_lookup l : forall acc i x,
  l !! i = Some x ->
  exists s, cumsum_from acc l !! i = Some s /\ (s == acc + Qsum (take (S i) l))%Q.
Proof.
  induction l as [|y l IH]; intros acc i x Hi; [done|].
  destruct i as [|i].
  - eexists; split; [reflexivity|]. unfold Qsum; simpl. lra.
  - destruct (IH (acc + y)%Q i x Hi) as (s & Hs & Es).
    exists s; split; [exact Hs|]. rewrite Es.
    change (take (S (S i)) (y :: l)) with (y :: take (S i) l).
    rewrite Qsum_cons. lra.
Qed.

Lemma cumsum_from_length l : forall acc, length (cumsum_from acc l) = length l.
Proof. induction l; intros; simpl; auto. Qed.

(** *** The binary rounding *)























(** Exact arithmetic rounds nothing and keeps the laws. *)
Lemma exact_arith_exact_on l p : exact_on exact_arith l p.
Proof.
  split; [apply cumsum_from_length|]. split; [|reflexivity].
  intros i s x Hs Hx. simpl in Hs. unfold cumsum in Hs.
  destruct (cumsum_from_lookup l 0%Q i x Hx) as (s' & Hs' & Es).
  rewrite Hs' in Hs. injection Hs as <-. simpl. rewrite Es. lra.
Qed.

Lemma exact_arith_laws : arith_laws exact_arith.
Proof.
  split; [|split; [|split; [|split]]].
  - intros l. apply cumsum_from_length.
  - intros x l s Hs.
    destruct (exact_arith_exact_on (x :: l) 0%Q) as (_ & Hex & _).
    rewrite (Hex 0 s x Hs eq_refl). unfold Qsum. simpl. lra.
  - intros l i s x Hpos Hs Hx.
    destruct (exact_arith_exact_on l 0%Q) as (_ & Hex & _).
    rewrite (Hex i s x Hs Hx), (Qsum_take_S _ _ _ Hx).
    assert (0 <= Qsum (take i l))%Q by (apply Qsum_nonneg, Forall_take, Hpos). lra.
  - intros p Hp. exact Hp.
  - intros p Hp. exact Hp.
Qed.

(** The mask at rank [i] compares the running sum minus the entry, as the
    arithmetic computes them, with the threshold. *)
Lemma top_p_mask_computed A l p i x s :
  l !! i = Some x -> fl_cumsum A l !! i = Some s ->
  top_p_mask A l p !! i = Some (Qgtb (fl_sub A s x) (fl_scalar A p)).
Proof.
  intros Hi Hs. unfold top_p_mask. now rewrite lookup_zip_with, Hs; simpl; rewrite Hi.
Qed.


(** Without rounding the mask at rank [i] compares with [p] the mass
    strictly before [i]. *)
Lemma top_p_mask_lookup A l p i x :
  exact_on A l p -> l !! i = Some x ->
  top_p_mask A l p !! i = Some (Qgtb (Qsum (take (S i) l) - x) p).
Proof.
  intros (Hlen & Hex & Hp) Hi.
  destruct (lookup_lt_is_Some_2 (fl_cumsum A l) i) as [s Hs].
  { rewrite Hlen. eapply lookup_lt_Some, Hi. }
  rewrite (top_p_mask_computed A l p i x s Hi Hs). f_equal.
  apply Qgtb_proper; [exact (Hex i s x Hs Hi) | exact Hp].
Qed.

Lemma top_p_mask_lookup_before A l p i x :
  exact_on A l p -> l !! i = Some x ->
  top_p_mask A l p !! i = Some (Qgtb (Qsum (take i l)) p).
Proof.
  intros Hex Hi. rewrite (top_p_mask_lookup _ _ _ _ _ Hex Hi). f_equal.
  apply Qgtb_proper; [|reflexivity]. rewrite (Qsum_take_S _ _ _ Hi). lra.
Qed.

Lemma mask_fill_lookup (l : list Q) (m : list bool) i x (b : bool) :
  l !! i = Some x -> m !! i = Some b ->
  mask_fill l m !! i = Some (if b then 0%Q else x).
Proof. intros Hl Hm. unfold mask_fill. now rewrite lookup_zip_with, Hl; simpl; rewrite Hm. Qed.


(** *** Sorting *)

Lemma insert_desc_perm x l : insert_desc x l ≡ₚ x :: l.
Proof.
  induction l as [|y l IH]; simpl; [done|].
  destruct (Qle_bool y.1 x.1); [done|].
  rewrite IH. apply Permutation_swap.
Qed.

Lemma insert_desc_sorted x l :
  StronglySorted desc_rel l -> StronglySorted desc_rel (insert_desc x l).
Proof.
  induction 1 as [|y l Hs IH Hy]; simpl.
  - repeat constructor.
  - destruct (Qle_bool y.1 x.1) eqn:E.
    + apply Qle_bool_iff in E. constructor; [by constructor|].
      constructor; [exact E|].
      eapply Forall_impl; [exact Hy|]. unfold desc_rel; simpl. intros b Hb. lra.
    + assert (x.1 <= y.1)%Q as Hxy.
      { apply Qlt_le_weak, Qnot_le_lt. intros H. apply Qle_bool_iff in H. congruence. }
      constructor; [exact IH|].
      rewrite insert_desc_perm. constructor; [exact Hxy | exact Hy].
Qed.

Lemma foldr_insert_desc_perm l : foldr insert_desc [] l ≡ₚ l.
Proof.
  induction l as [|x l IH]; simpl; [done|]. now rewrite insert_desc_perm, IH.
Qed.

Lemma foldr_insert_desc_sorted l : StronglySorted desc_rel (foldr insert_desc [] l).
Proof.
  induction l as [|x l IH]; simpl; [constructor | by apply insert_desc_sorted].
Qed.




(** *** Shape of the mask *)


Lemma lookup_Some_lt {A} (l : list A) i : i < length l -> exists x, l !! i = Some x.
Proof. intros H. destruct (lookup_lt_is_Some_2 l i H) as [x Hx]. eauto. Qed.













(** C4, why the amended statement asks for a row on which nothing is
    rounded: in binary32 the row [1/2, 2^-26, 2^-27] with [p = 1/2] is made
    of binary32 values, the mass before the last rank exceeds [p], and the
    code zeroes nothing, because the running sums are all rounded to
    [1/2]. *)
Lemma sample_top_p_rounding_keeps_entry :
  let probs_sort := [1 # 2; 1 # 67108864; 1 # 134217728]%Q in
  let p := (1#2)%Q in
  (sort_desc probs_sort).*1 = probs_sort /\
  round32 <$> probs_sort = probs_sort /\ round32 p = p /\
  fl_cumsum binary32_arith probs_sort = [1#2; 1#2; 1#2]%Q /\
  (p < Qsum (take 2 probs_sort))%Q /\
  top_p_mask binary32_arith probs_sort p = [false; false; false] /\
  top_p_mask exact_arith probs_sort p = [false; false; true] /\
  ~ exact_on binary32_arith probs_sort p.
Proof.
  cbv zeta. do 7 (split; [vm_compute; reflexivity|]).
  intros Hex.
  pose proof (top_p_mask_lookup_before binary32_arith _ _ 2 _ Hex eq_refl) as H.
  vm_compute in H. discriminate H.
Qed.

(** * Properties of the decoder *)

Lemma mapM_result_cons {A B} (f : A -> result B) x l :
  mapM f (x :: l) =
  match f x with
  | Ok y => match mapM f l with Ok k => Ok (y :: k) | Raise e => Raise e end
  | Raise e => Raise e
  end.
Proof. reflexivity. Qed.

Lemma mapM_result_Ok {A B} (f : A -> result B) l l' :
  mapM f l = Ok l' <-> Forall2 (fun x y => f x = Ok y) l l'.
Proof.
  split.
  - revert l'. induction l as [|x l IH]; intros l' H.
    + injection H as <-. constructor.
    + rewrite mapM_result_cons in H.
      destruct (f x) as [y|] eqn:Ey; [|done].
      destruct (mapM f l) as [k|] eqn:Ek; [|done].
      injection H as <-. constructor; [exact Ey | by apply IH].
  - induction 1 as [|x y l l' Hxy _ IH]; [done|].
    now rewrite mapM_result_cons, Hxy, IH.
Qed.

(** [argmax] returns the position of an entry that no entry exceeds. *)
Lemma argmax_from_spec l : forall pre best best_i,
  pre !! best_i = Some best ->
  Forall (fun y => (y <= best)%Q) pre ->
  exists x,
    (pre ++ l) !! argmax_from best best_i (length pre) l = Some x /\
    Forall (fun y => (y <= x)%Q) (pre ++ l).
Proof.
  induction l as [|x l IH]; intros pre best best_i Hbest Hall; simpl.
  - exists best. rewrite app_nil_r. done.
  - destruct (Qgtb x best) eqn:E.
    + apply Qgtb_true in E.
      destruct (IH (pre ++ [x]) x (length pre)) as (v & Hv & Hle).
      * rewrite lookup_app_r, Nat.sub_diag by lia. done.
      * apply Forall_app. split; [|repeat constructor; apply Qle_refl].
        eapply Forall_impl; [exact Hall|]. simpl. intros y Hy. lra.
      * exists v. rewrite length_app, Nat.add_1_r, <- app_assoc in Hv.
        rewrite <- app_assoc in Hle. done.
    + apply Qgtb_false in E.
      destruct (IH (pre ++ [x]) best best_i) as (v & Hv & Hle).
      * rewrite lookup_app_l; [done|]. eapply lookup_lt_Some, Hbest.
      * apply Forall_app. split; [done|]. repeat constructor. exact E.
      * exists v. rewrite length_app, Nat.add_1_r, <- app_assoc in Hv.
        rewrite <- app_assoc in Hle. done.
Qed.

Lemma argmax_spec l a :
  argmax l = Some a ->
  exists x, l !! a = Some x /\ forall y, y ∈ l -> (y <= x)%Q.
Proof.
  destruct l as [|x l]; [done|]. intros [= <-].
  destruct (argmax_from_spec l [x] x 0) as (v & Hv & Hle);
    [done | repeat constructor; apply Qle_refl |].
  exists v. split; [exact Hv|]. now apply Forall_forall.
Qed.

Lemma mapM_result_length {A B} (f : A -> result B) l l' :
  mapM f l = Ok l' -> length l' = length l.
Proof. intros H. apply mapM_result_Ok in H. symmetry. eapply Forall2_length, H. Qed.

Lemma mapM_result_total {A B} (f : A -> result B) l :
  Forall (fun x => exists y, f x = Ok y) l -> exists l', mapM f l = Ok l'.
Proof.
  induction 1 as [|x l [y Hy] _ [l' IH]]; [by exists []|].
  exists (y :: l'). now rewrite mapM_result_cons, Hy, IH.
Qed.

Lemma fmap_length_const {A} (l : list (list A)) n :
  Forall (fun row => length row = n) l -> length <$> l = replicate (length l) n.
Proof.
  induction 1 as [|row l Hrow _ IH]; [done|]. rewrite fmap_cons, IH, Hrow. done.
Qed.

Lemma fmap_length_slice {A} (a b n : nat) (l : list (list A)) :
  Forall (fun row => length row = n) l -> b <= n ->
  length <$> (slice a b <$> l) = replicate (length l) (b - a).
Proof.
  intros Hall Hb. rewrite <- (length_fmap (slice a b) l).
  apply fmap_length_const, Forall_fmap.
  eapply Forall_impl; [exact Hall|]. simpl. intros row Hrow.
  unfold slice. rewrite length_drop, length_take. lia.
Qed.

Section DecoderFacts.
Context (T : Numerics) (self : Llama).

Abbreviation World := (World T self).
Abbreviation M := (M T self).

Implicit Types (w : World) (s : DecodeState).

Lemma bind_Ok {A B} (m : M A) (f : A -> M B) w b w' :
  (m ≫= f) w = (Ok b, w') ->
  exists a w1, m w = (Ok a, w1) /\ f a w1 = (Ok b, w').
Proof.
  unfold mbind, M_bind. destruct (m w) as [[a|e] w1]; [eauto | done].
Qed.

Lemma lift_Ok {A} (r : result A) w a w' :
  lift T self r w = (Ok a, w') -> r = Ok a /\ w' = w.
Proof. unfold lift. now intros [= -> ->]. Qed.

Lemma ret_Ok {A} (a b : A) w w' :
  (mret a : M A) w = (Ok b, w') -> b = a /\ w' = w.
Proof. unfold mret, M_ret. now intros [= -> ->]. Qed.

(** *** Rows of the grid through one step *)

Lemma column_lookup {A} `{Inhabited A} (grid : list (list A)) k j row :
  grid !! k = Some row -> column j grid !! k = Some (row !!! j).
Proof. intros Hk. unfold column. now rewrite list_lookup_fmap, Hk. Qed.

Lemma column_length {A} `{Inhabited A} (grid : list (list A)) j :
  length (column j grid) = length grid.
Proof. unfold column. now rewrite length_fmap. Qed.

Lemma where_lookup cond x y k (b : bool) a v :
  cond !! k = Some b -> x !! k = Some a -> y !! k = Some v ->
  where_ cond x y !! k = Some (if b then a else v).
Proof.
  intros Hc Hx Hy. unfold where_.
  rewrite !lookup_zip_with, Hc. simpl. rewrite Hx. simpl. now rewrite Hy.
Qed.

Lemma where_length cond x y :
  length cond = length x -> length y = length x -> length (where_ cond x y) = length x.
Proof. intros H1 H2. unfold where_. rewrite !length_zip_with. lia. Qed.

Lemma set_column_lookup j grid col k row v :
  grid !! k = Some row -> col !! k = Some v ->
  set_column j grid col !! k = Some (<[j := v]> row).
Proof.
  intros Hg Hc. unfold set_column. now rewrite lookup_zip_with, Hg; simpl; rewrite Hc.
Qed.

(** What a successful step computed. *)
Lemma decode_step_Ok temperature top_p (logprobs : bool) mask c s w s' w' :
  decode_step T self temperature top_p logprobs mask c s w = (Ok s', w') ->
  exists logits last_logits candidates w1,
    model_forward T self (slice (prev_pos s) c <$> tokens s) (prev_pos s) w
      = (Ok logits, w1) /\
    mapM (fun row => of_option IndexError (last row)) logits = Ok last_logits /\
    next_token_candidates T self temperature top_p last_logits w1
      = (Ok candidates, w') /\
    length candidates = length (tokens s) /\
    let next_token := where_ (column c mask) (column c (tokens s)) candidates in
    tokens s' = set_column c (tokens s) next_token /\
    prev_pos s' = c /\
    eos_reached s'
      = zip_with orb (eos_reached s) (eos_hits self (column c mask) next_token) /\
    (if logprobs then
       exists ce,
         neg_cross_entropy T self logits
           (slice (prev_pos s + 1) (c + 1) <$> tokens s') = Ok ce /\
         token_logprobs s'
           = set_columns (prev_pos s + 1) (c + 1) (token_logprobs s) ce
     else token_logprobs s' = token_logprobs s).
Proof.
  unfold decode_step. intros H.
  apply bind_Ok in H as (logits & w1 & Hf & H).
  apply bind_Ok in H as (last_logits & w2 & Hl & H).
  apply lift_Ok in Hl as [Hl ->].
  apply bind_Ok in H as (candidates & w3 & Hc & H).
  destruct (length candidates =? length (tokens s)) eqn:Elen; simpl in H; [|done].
  apply Nat.eqb_eq in Elen.
  exists logits, last_logits, candidates, w1.
  destruct logprobs.
  - apply bind_Ok in H as (lp' & w4 & Hlp & H).
    apply bind_Ok in Hlp as (ce & w5 & Hce & Hlp).
    apply lift_Ok in Hce as [Hce ->].
    apply ret_Ok in Hlp as [-> ->]. apply ret_Ok in H as [-> ->]. simpl.
    repeat split; try done. eauto.
  - apply bind_Ok in H as (lp' & w4 & Hlp & H).
    apply ret_Ok in Hlp as [-> ->]. apply ret_Ok in H as [-> ->]. simpl.
    repeat split; done.
Qed.


Lemma step_row (mask : list (list bool)) (c : nat) (toks : list (list Z))
    (candidates : list Z) (k : nat) (row : list Z) (mrow : list bool) :
  length candidates = length toks ->
  toks !! k = Some row -> mask !! k = Some mrow ->
  exists cand,
    candidates !! k = Some cand /\
    let nt := if (mrow !!! c : bool) then row !!! c else cand in
    where_ (column c mask) (column c toks) candidates !! k = Some nt /\
    set_column c toks (where_ (column c mask) (column c toks) candidates) !! k
      = Some (<[c := nt]> row) /\
    eos_hits self (column c mask)
             (where_ (column c mask) (column c toks) candidates) !! k
      = Some (negb (mrow !!! c) && (nt =? eos_id (tokenizer self))%Z).
Proof.
  intros Hlen Hrow Hm.
  destruct (lookup_lt_is_Some_2 candidates k) as [cand Hcand].
  { rewrite Hlen. eapply lookup_lt_Some, Hrow. }
  exists cand. split; [exact Hcand|]. intros nt.
  assert (where_ (column c mask) (column c toks) candidates !! k = Some nt) as Hnt.
  { apply where_lookup; [by apply column_lookup | by apply column_lookup | done]. }
  split; [exact Hnt|]. split.
  - by apply set_column_lookup.
  - unfold eos_hits. rewrite lookup_zip_with, (column_lookup _ _ _ _ Hm). simpl.
    now rewrite Hnt.
Qed.

(** One step leaves the shape of the grid alone, writes nothing outside
    column [c], and writes nothing at all in a row whose mask is set at [c]. *)
Lemma decode_step_tokens temperature top_p logprobs mask c s w s' w' :
  decode_step T self temperature top_p logprobs mask c s w = (Ok s', w') ->
  length mask = length (tokens s) ->
  length (tokens s') = length (tokens s) /\
  forall k row (mrow : list bool),
    tokens s !! k = Some row -> mask !! k = Some mrow ->
    exists row',
      tokens s' !! k = Some row' /\ length row' = length row /\
      (forall j, j <> c -> row' !! j = row !! j) /\
      (mrow !!! c = true -> row' = row).
Proof.
  intros H Hmask.
  apply decode_step_Ok in H
    as (logits & last_logits & candidates & w1 & _ & _ & _ & Hlen & Htok & _).
  split.
  - rewrite Htok. unfold set_column.
    rewrite length_zip_with, where_length; rewrite ?column_length; lia.
  - intros k row mrow Hrow Hm.
    destruct (step_row mask c _ _ k row mrow Hlen Hrow Hm) as (cand & _ & _ & Hset & _).
    rewrite <- Htok in Hset. eexists. split; [exact Hset|].
    split; [apply length_insert|]. split.
    + intros j Hj. now apply list_lookup_insert_ne.
    + intros ->. destruct (decide (c < length row)) as [Hc|Hc].
      * apply list_insert_id. now apply list_lookup_lookup_total_lt.
      * apply list_insert_ge. lia.
Qed.

Lemma run_steps_tokens temperature top_p logprobs mask cols : forall s w s' w',
  run_steps T self temperature top_p logprobs mask cols s w = (Ok s', w') ->
  length mask = length (tokens s) ->
  length (tokens s') = length (tokens s) /\
  forall k row (mrow : list bool),
    tokens s !! k = Some row -> mask !! k = Some mrow ->
    exists row',
      tokens s' !! k = Some row' /\ length row' = length row /\
      (forall j, j ∉ cols -> row' !! j = row !! j) /\
      (forall j, mrow !! j = Some true -> row' !! j = row !! j).
Proof.
  induction cols as [|c cols IH]; intros s w s' w' H Hmask.
  - apply ret_Ok in H as [-> ->]. split; [done|]. intros k row mrow Hrow _.
    exists row. done.
  - simpl in H. apply bind_Ok in H as (s1 & w1 & Hstep & H).
    destruct (decode_step_tokens _ _ _ _ _ _ _ _ _ Hstep Hmask) as [Hlen1 Hrows1].
    destruct (IH _ _ _ _ H) as [Hlen2 Hrows2]; [congruence|].
    split; [congruence|]. intros k row mrow Hrow Hm.
    destruct (Hrows1 k row mrow Hrow Hm) as (row1 & Hrow1 & Hl1 & Hne1 & Hm1).
    destruct (Hrows2 k row1 mrow Hrow1 Hm) as (row2 & Hrow2 & Hl2 & Hne2 & Hm2).
    exists row2. split; [done|]. split; [congruence|]. split.
    + intros j Hj. apply not_elem_of_cons in Hj as [Hjc Hj]. now rewrite Hne2, Hne1.
    + intros j Hj. rewrite (Hm2 j Hj).
      destruct (decide (j = c)) as [->|Hjc]; [|by apply Hne1].
      rewrite Hm1; [done|]. now apply list_lookup_total_correct.
Qed.

(** *** The EOS-reached flags *)

Lemma decode_step_eos temperature top_p logprobs mask c s w s' w' :
  decode_step T self temperature top_p logprobs mask c s w = (Ok s', w') ->
  length mask = length (tokens s) ->
  length (eos_reached s) = length (tokens s) ->
  length (eos_reached s') = length (tokens s') /\
  forall k (b : bool) mrow row',
    eos_reached s !! k = Some b -> mask !! k = Some mrow ->
    tokens s' !! k = Some row' -> c < length row' ->
    eos_reached s' !! k = Some (b || eos_hit self mrow row' c).
Proof.
  intros H Hmask Heos.
  pose proof (decode_step_tokens _ _ _ _ _ _ _ _ _ H Hmask) as [Hlen' _].
  apply decode_step_Ok in H
    as (logits & last_logits & candidates & w1 & _ & _ & _ & Hlen & Htok & _ & He & _).
  split.
  - rewrite He, Hlen'. unfold eos_hits.
    rewrite !length_zip_with, where_length, !column_length;
      rewrite ?column_length; lia.
  - intros k b mrow row' Hb Hm Hrow' Hc.
    destruct (lookup_lt_is_Some_2 (tokens s) k) as [row Hrow].
    { rewrite <- Heos. eapply lookup_lt_Some, Hb. }
    destruct (step_row mask c _ _ k row mrow Hlen Hrow Hm)
      as (cand & _ & _ & Hset & Hhit).
    rewrite <- Htok in Hset. rewrite Hrow' in Hset. injection Hset as ->.
    rewrite length_insert in Hc.
    rewrite He, lookup_zip_with, Hb. simpl. rewrite Hhit. simpl.
    unfold eos_hit. now rewrite list_lookup_total_insert_eq.
Qed.

Lemma run_steps_eos temperature top_p logprobs mask cols : forall s w s' w',
  run_steps T self temperature top_p logprobs mask cols s w = (Ok s', w') ->
  length mask = length (tokens s) ->
  length (eos_reached s) = length (tokens s) ->
  NoDup cols ->
  length (eos_reached s') = length (tokens s') /\
  forall k (b : bool) mrow row',
    eos_reached s !! k = Some b -> mask !! k = Some mrow ->
    tokens s' !! k = Some row' -> (forall c, c ∈ cols -> c < length row') ->
    eos_reached s' !! k = Some (b || existsb (eos_hit self mrow row') cols).
Proof.
  induction cols as [|c cols IH]; intros s w s' w' H Hmask Heos Hnd.
  - apply ret_Ok in H as [-> ->]. split; [done|]. intros k b mrow row' Hb _ _ _.
    simpl. now rewrite orb_false_r.
  - simpl in H. apply bind_Ok in H as (s1 & w1 & Hstep & H).
    apply NoDup_cons in Hnd as [Hc Hnd].
    destruct (decode_step_tokens _ _ _ _ _ _ _ _ _ Hstep Hmask) as [Hlen1 Hrows1].
    destruct (decode_step_eos _ _ _ _ _ _ _ _ _ Hstep Hmask Heos) as [Heos1 Hflag1].
    assert (length mask = length (tokens s1)) as Hmask1 by congruence.
    destruct (run_steps_tokens _ _ _ _ _ _ _ _ _ H Hmask1) as [Hlen2 Hrows2].
    destruct (IH _ _ _ _ H Hmask1 Heos1 Hnd) as [Heos2 Hflag2].
    split; [done|]. intros k b mrow row' Hb Hm Hrow' Hcols.
    destruct (lookup_lt_is_Some_2 (tokens s1) k) as [row1 Hrow1].
    { rewrite Hlen1, <- Heos. eapply lookup_lt_Some, Hb. }
    destruct (Hrows2 k row1 mrow Hrow1 Hm) as (row2 & Hrow2 & Hl2 & Hne2 & _).
    assert (row2 = row') as -> by congruence.
    assert (c < length row') as Hclt by (apply Hcols; left).
    rewrite (Hflag2 k (b || eos_hit self mrow row1 c) mrow row');
      [ | apply Hflag1; [done | done | done | lia] | done | done
        | intros c' Hc'; apply Hcols; now right ].
    f_equal. simpl. rewrite <- orb_assoc. do 2 f_equal.
    unfold eos_hit. do 2 f_equal.
    rewrite !list_lookup_total_alt. now rewrite (Hne2 c Hc).
Qed.

(** *** The loop and its [break] *)

Lemma run_steps_Raise temperature top_p logprobs mask c cols s w e w1 :
  decode_step T self temperature top_p logprobs mask c s w = (Raise e, w1) ->
  run_steps T self temperature top_p logprobs mask (c :: cols) s w = (Raise e, w1).
Proof. intros H. simpl. unfold mbind, M_bind. now rewrite H. Qed.

Lemma decode_loop_prefix temperature top_p logprobs mask cols : forall s w,
  exists n, n <= length cols /\
    decode_loop T self temperature top_p logprobs mask cols s w
      = run_steps T self temperature top_p logprobs mask (take n cols) s w /\
    (forall m s_m w_m, 0 < m -> m < n ->
       run_steps T self temperature top_p logprobs mask (take m cols) s w
         = (Ok s_m, w_m) ->
       forallb id (eos_reached s_m) = false) /\
    (n < length cols ->
       0 < n /\
       exists s' w',
         run_steps T self temperature top_p logprobs mask (take n cols) s w
           = (Ok s', w') /\
         forallb id (eos_reached s') = true).
Proof.
  induction cols as [|c cols IH]; intros s w.
  - exists 0. split; [done|]. split; [done|]. split; [lia | simpl; lia].
  - destruct (decode_step T self temperature top_p logprobs mask c s w)
      as [[s1|e] w1] eqn:Hstep.
    + destruct (forallb id (eos_reached s1)) eqn:Hall.
      * exists 1. split; [simpl; lia|]. split.
        { simpl. unfold mbind, M_bind. rewrite Hstep, Hall. now rewrite ?take_0. }
        split; [lia|]. intros _. split; [lia|]. exists s1, w1.
        simpl. unfold mbind, M_bind. rewrite Hstep, ?take_0. done.
      * destruct (IH s1 w1) as (n & Hn & Heq & Hbefore & Hstop).
        exists (S n). split; [simpl; lia|]. split.
        { simpl. unfold mbind, M_bind. rewrite Hstep, Hall. exact Heq. }
        split.
        { intros m s_m w_m Hm0 Hmn Hrun. destruct m as [|m]; [lia|].
          simpl in Hrun. unfold mbind, M_bind in Hrun. rewrite Hstep in Hrun.
          destruct m as [|m].
          - rewrite ?take_0 in Hrun. apply ret_Ok in Hrun as [-> ->]. exact Hall.
          - apply (Hbefore (S m) s_m w_m); [lia | lia | exact Hrun]. }
        intros Hlt. simpl in Hlt. destruct Hstop as (_ & s' & w' & Hrun & Hall'); [lia|].
        split; [lia|]. exists s', w'. split; [|exact Hall'].
        simpl. unfold mbind, M_bind. now rewrite Hstep.
    + exists (length (c :: cols)). split; [done|]. split.
      { rewrite firstn_all. simpl. unfold mbind, M_bind. now rewrite Hstep. }
      split; [|lia].
      intros m s_m w_m Hm0 _ Hrun. destruct m as [|m]; [lia|].
      simpl in Hrun. unfold mbind, M_bind in Hrun. now rewrite Hstep in Hrun.
Qed.

(** *** The grid when the loop is entered *)

Lemma foldl_max_ge x l : x <= foldl Nat.max x l /\ Forall (fun y => y <= foldl Nat.max x l) l.
Proof.
  revert x. induction l as [|y l IH]; intros x; simpl; [split; [lia|constructor]|].
  destruct (IH (x `max` y)) as [H1 H2]. split; [lia|]. constructor; [lia|exact H2].
Qed.

Lemma foldl_min_le x l : foldl Nat.min x l <= x /\ Forall (fun y => foldl Nat.min x l <= y) l.
Proof.
  revert x. induction l as [|y l IH]; intros x; simpl; [split; [lia|constructor]|].
  destruct (IH (x `min` y)) as [H1 H2]. split; [lia|]. constructor; [lia|exact H2].
Qed.

Lemma list_max_Ok l mx : list_max l = Ok mx -> Forall (fun y => y <= mx) l.
Proof.
  destruct l as [|x l]; [done|]. intros [= <-].
  destruct (foldl_max_ge x l). now constructor.
Qed.

Lemma list_min_Ok l m : list_min l = Ok m -> Forall (fun y => m <= y) l.
Proof.
  destruct l as [|x l]; [done|]. intros [= <-].
  destruct (foldl_min_le x l). now constructor.
Qed.

Lemma init_tokens_lookup prompts total k prompt :
  prompts !! k = Some prompt ->
  init_tokens self prompts total !! k
    = Some (prompt ++ replicate (total - length prompt) (pad_id (tokenizer self))).
Proof. intros H. unfold init_tokens. now rewrite list_lookup_fmap, H. Qed.

Lemma init_tokens_length prompts total :
  length (init_tokens self prompts total) = length prompts.
Proof. unfold init_tokens. now rewrite length_fmap. Qed.

Lemma input_text_mask_of_length toks :
  length (input_text_mask_of self toks) = length toks.
Proof. unfold input_text_mask_of. now rewrite length_fmap. Qed.

(** The mask of a row: set on the prompt tokens that differ from [pad_id],
    clear on the others and past the prompt. *)
Lemma input_text_mask_lookup prompts total k prompt :
  prompts !! k = Some prompt ->
  exists mrow,
    input_text_mask_of self (init_tokens self prompts total) !! k = Some mrow /\
    length mrow = length prompt + (total - length prompt) /\
    (forall j x, prompt !! j = Some x ->
       mrow !! j = Some (negb (x =? pad_id (tokenizer self))%Z)) /\
    (forall j, length prompt <= j -> j < length mrow -> mrow !! j = Some false).
Proof.
  intros H. unfold input_text_mask_of.
  rewrite list_lookup_fmap, (init_tokens_lookup _ _ _ _ H). simpl.
  eexists. split; [reflexivity|]. split; [|split].
  - now rewrite length_fmap, length_app, length_replicate.
  - intros j x Hj. rewrite list_lookup_fmap, lookup_app_l, Hj; [done|].
    eapply lookup_lt_Some, Hj.
  - intros j Hj Hlt. rewrite length_fmap, length_app, length_replicate in Hlt.
    rewrite list_lookup_fmap, lookup_app_r, lookup_replicate_2 by lia. simpl.
    now rewrite Z.eqb_refl.
Qed.

Lemma score_full_prompts_Ok s w s' w' :
  score_full_prompts T self s w = (Ok s', w') ->
  exists logits,
    model_forward T self (tokens s) (prev_pos s) w = (Ok logits, w') /\
    neg_cross_entropy T self logits (tokens s) = Ok (token_logprobs s') /\
    tokens s' = tokens s /\ prev_pos s' = prev_pos s /\
    eos_reached s' = eos_reached s.
Proof.
  unfold score_full_prompts. intros H.
  apply bind_Ok in H as (logits & w1 & Hf & H).
  apply bind_Ok in H as (lp & w2 & Hlp & H).
  apply lift_Ok in Hlp as [Hlp ->]. apply ret_Ok in H as [-> ->].
  exists logits. done.
Qed.

Lemma generate_setup_Ok prompts max_gen_len w st w' :
  generate_setup T self prompts max_gen_len w = (Ok st, w') ->
  exists mx,
    length prompts <= max_batch_size (params (model self)) /\
    list_min (length <$> prompts) = Ok (min_prompt_len st) /\
    list_max (length <$> prompts) = Ok mx /\
    mx <= max_seq_len (params (model self)) /\
    total_len st = total_len_of self max_gen_len mx /\
    input_text_mask st
      = input_text_mask_of self (init_tokens self prompts (total_len st)) /\
    (if min_prompt_len st =? total_len st
     then score_full_prompts T self (init_state self prompts (total_len st)) w
          = (Ok (start st), w')
     else start st = init_state self prompts (total_len st) /\ w' = w).
Proof.
  unfold generate_setup. intros H.
  apply bind_Ok in H as ([] & w1 & Ha & H). apply lift_Ok in Ha as [Ha ->].
  apply bind_Ok in H as (m & w1 & Hm & H). apply lift_Ok in Hm as [Hm ->].
  apply bind_Ok in H as (mx & w1 & Hx & H). apply lift_Ok in Hx as [Hx ->].
  apply bind_Ok in H as ([] & w1 & Hb & H). apply lift_Ok in Hb as [Hb ->].
  apply bind_Ok in H as (s1 & w1 & Hs & H). apply ret_Ok in H as [-> ->]. simpl.
  exists mx. unfold assert_ in Ha, Hb.
  destruct (length prompts <=? _) eqn:E1 in Ha; [|done].
  destruct (mx <=? _) eqn:E2 in Hb; [|done].
  apply Nat.leb_le in E1, E2.
  do 6 (split; [done|]).
  destruct (m =? _); [exact Hs|]. now apply ret_Ok in Hs as [-> ->].
Qed.

(** Shape of the grid, the mask and the flags when the loop is entered. *)
Lemma generate_setup_shape prompts max_gen_len w st w' :
  generate_setup T self prompts max_gen_len w = (Ok st, w') ->
  tokens (start st) = init_tokens self prompts (total_len st) /\
  prev_pos (start st) = 0 /\
  eos_reached (start st) = replicate (length prompts) false /\
  length (input_text_mask st) = length (tokens (start st)) /\
  length (eos_reached (start st)) = length (tokens (start st)) /\
  length (tokens (start st)) = length prompts /\
  Forall (fun prompt => length prompt <= total_len st) prompts.
Proof.
  intros H. apply generate_setup_Ok in H
    as (mx & _ & _ & Hmax & Hle & Htot & Hmask & Hstart).
  assert (tokens (start st) = init_tokens self prompts (total_len st) /\
          prev_pos (start st) = 0 /\
          eos_reached (start st) = replicate (length prompts) false)
    as (Htok & Hprev & Heos).
  { destruct (min_prompt_len st =? total_len st).
    - apply score_full_prompts_Ok in Hstart as (? & _ & _ & -> & -> & ->). done.
    - destruct Hstart as [-> _]. done. }
  rewrite Hmask, Htok, Heos, input_text_mask_of_length, init_tokens_length,
    length_replicate.
  do 6 (split; [done|]).
  apply list_max_Ok in Hmax. rewrite Forall_fmap in Hmax.
  eapply Forall_impl; [exact Hmax|]. simpl. intros prompt Hp.
  rewrite Htot. unfold total_len_of. lia.
Qed.

Lemma columns_NoDup st : NoDup (columns st).
Proof. apply NoDup_seq. Qed.

Lemma columns_lt st c : c ∈ columns st -> c < total_len st.
Proof. unfold columns. rewrite elem_of_seq. lia. Qed.

Lemma run_steps_app temperature top_p logprobs mask cols1 cols2 : forall s w,
  run_steps T self temperature top_p logprobs mask (cols1 ++ cols2) s w =
  match run_steps T self temperature top_p logprobs mask cols1 s w with
  | (Ok s1, w1) => run_steps T self temperature top_p logprobs mask cols2 s1 w1
  | (Raise e, w1) => (Raise e, w1)
  end.
Proof.
  induction cols1 as [|c cols1 IH]; intros s w; [done|].
  simpl. unfold mbind, M_bind.
  destruct (decode_step T self temperature top_p logprobs mask c s w) as [[s1|e] w1];
    [apply IH | done].
Qed.

Lemma generate_prefix_Ok n prompts max_gen_len temperature top_p logprobs w s w' :
  generate_prefix T self n prompts max_gen_len temperature top_p logprobs w
    = (Ok s, w') ->
  exists st w1,
    generate_setup T self prompts max_gen_len w = (Ok st, w1) /\
    run_steps T self temperature top_p logprobs (input_text_mask st)
      (take n (columns st)) (start st) w1 = (Ok s, w').
Proof. intros H. apply bind_Ok in H as (st & w1 & H1 & H2). eauto. Qed.

(** The loop of [generate] ends in one of the states of [generate_prefix]. *)
Lemma generate_grid_Ok prompts max_gen_len temperature top_p logprobs w s w' :
  generate_grid T self prompts max_gen_len temperature top_p logprobs w
    = (Ok s, w') ->
  exists n,
    generate_prefix T self n prompts max_gen_len temperature top_p logprobs w
      = (Ok s, w').
Proof.
  intros H. apply bind_Ok in H as (st & w1 & H1 & H2).
  destruct (decode_loop_prefix temperature top_p logprobs (input_text_mask st)
              (columns st) (start st) w1) as (n & _ & E & _).
  exists n. unfold generate_prefix, mbind, M_bind. rewrite H1, <- E. exact H2.
Qed.

Lemma run_steps_eos_length temperature top_p logprobs mask cols : forall s w s' w',
  run_steps T self temperature top_p logprobs mask cols s w = (Ok s', w') ->
  length mask = length (tokens s) ->
  length (eos_reached s) = length (tokens s) ->
  length (eos_reached s') = length (tokens s').
Proof.
  induction cols as [|c cols IH]; intros s w s' w' H Hmask Heos.
  - now apply ret_Ok in H as [-> ->].
  - simpl in H. apply bind_Ok in H as (s1 & w1 & Hstep & H).
    destruct (decode_step_tokens _ _ _ _ _ _ _ _ _ Hstep Hmask) as [Hlen1 _].
    destruct (decode_step_eos _ _ _ _ _ _ _ _ _ Hstep Hmask Heos) as [Heos1 _].
    apply (IH _ _ _ _ H); congruence.
Qed.

(** Rows of the grid after any number of steps: the shape is kept and the
    positions whose mask is set still hold the prompt. *)
Lemma run_steps_from_setup prompts max_gen_len temperature top_p logprobs
    w st w1 cols s w' :
  generate_setup T self prompts max_gen_len w = (Ok st, w1) ->
  run_steps T self temperature top_p logprobs (input_text_mask st) cols
    (start st) w1 = (Ok s, w') ->
  length (tokens s) = length prompts /\
  length (eos_reached s) = length prompts /\
  forall k prompt, prompts !! k = Some prompt ->
    exists row,
      tokens s !! k = Some row /\ length row = total_len st /\
      (forall j, j ∉ cols ->
         row !! j = (prompt ++ replicate (total_len st - length prompt)
                                         (pad_id (tokenizer self))) !! j) /\
      (forall j x, prompt !! j = Some x -> x <> pad_id (tokenizer self) ->
         row !! j = Some x).
Proof.
  intros Hsetup Hrun.
  pose proof (generate_setup_Ok _ _ _ _ _ Hsetup) as (_ & _ & _ & _ & _ & _ & Hmask & _).
  destruct (generate_setup_shape _ _ _ _ _ Hsetup)
    as (Htok & _ & Heos & Hml & Hel & Hlen & Hfit).
  destruct (run_steps_tokens _ _ _ _ _ _ _ _ _ Hrun Hml) as [Hlen' Hrows].
  pose proof (run_steps_eos_length _ _ _ _ _ _ _ _ _ Hrun Hml Hel) as Hel'.
  split; [congruence|]. split; [congruence|].
  intros k prompt Hk.
  destruct (input_text_mask_lookup prompts (total_len st) k prompt Hk)
    as (mrow & Hmrow & _ & Hin & _).
  rewrite <- Hmask in Hmrow.
  pose proof (init_tokens_lookup prompts (total_len st) k prompt Hk) as Hrow0.
  rewrite <- Htok in Hrow0.
  destruct (Hrows k _ mrow Hrow0 Hmrow) as (row & Hrow & Hl & Hout & Hkeep).
  exists row. split; [exact Hrow|]. split; [|split].
  - rewrite Hl, length_app, length_replicate.
    rewrite Forall_forall in Hfit.
    assert (length prompt <= total_len st)
      by (apply Hfit; eapply list_elem_of_lookup_2, Hk).
    lia.
  - exact Hout.
  - intros j x Hj Hx. rewrite Hkeep.
    + rewrite lookup_app_l, Hj; [done|]. eapply lookup_lt_Some, Hj.
    + rewrite (Hin j x Hj). f_equal. apply negb_true_iff, Z.eqb_neq, Hx.
Qed.

(** C2 (as amended).  When no prompt token equals [pad_id], every position
    of every prompt holds the caller's token after any number of decoding
    steps and in the grid the loop ends with, whatever the lengths of the
    other prompts of the batch. *)
Theorem generate_preserves_prompts prompts max_gen_len temperature top_p logprobs w :
  Forall (fun prompt => pad_id (tokenizer self) ∉ prompt) prompts ->
  (forall n s w',
     generate_prefix T self n prompts max_gen_len temperature top_p logprobs w
       = (Ok s, w') ->
     forall k prompt j x, prompts !! k = Some prompt -> prompt !! j = Some x ->
       exists row, tokens s !! k = Some row /\ row !! j = Some x) /\
  (forall s w',
     generate_grid T self prompts max_gen_len temperature top_p logprobs w
       = (Ok s, w') ->
     forall k prompt j x, prompts !! k = Some prompt -> prompt !! j = Some x ->
       exists row, tokens s !! k = Some row /\ row !! j = Some x).
Proof.
  intros Hpad.
  assert (forall n s w',
     generate_prefix T self n prompts max_gen_len temperature top_p logprobs w
       = (Ok s, w') ->
     forall k prompt j x, prompts !! k = Some prompt -> prompt !! j = Some x ->
       exists row, tokens s !! k = Some row /\ row !! j = Some x) as Hprefix.
  { intros n s w' H k prompt j x Hk Hj.
    apply generate_prefix_Ok in H as (st & w1 & Hsetup & Hrun).
    destruct (run_steps_from_setup _ _ _ _ _ _ _ _ _ _ _ Hsetup Hrun)
      as (_ & _ & Hrows).
    destruct (Hrows k prompt Hk) as (row & Hrow & _ & _ & Hkeep).
    exists row. split; [exact Hrow|]. apply Hkeep; [exact Hj|].
    intros ->. rewrite Forall_forall in Hpad.
    apply (Hpad prompt); [eapply list_elem_of_lookup_2, Hk|].
    eapply list_elem_of_lookup_2, Hj. }
  split; [exact Hprefix|].
  intros s w' H. apply generate_grid_Ok in H as [n H]. now apply (Hprefix n s w').
Qed.

Lemma sub_columns_lt st cols c :
  cols `sublist_of` columns st -> c ∈ cols -> c < total_len st.
Proof. intros Hsub Hc. apply columns_lt. eapply sublist_subseteq; eauto. Qed.

Lemma sub_columns_NoDup st cols : cols `sublist_of` columns st -> NoDup cols.
Proof. intros Hsub. eapply sublist_NoDup; [apply columns_NoDup | exact Hsub]. Qed.

(** C9 (as amended).  After any number of steps the flag of a row is set
    exactly when one of the columns visited so far is not an input position
    of that row (its mask is clear: the grid held [pad_id] there when the
    loop was entered) and holds the end marker; a flag that is set stays
    set; when no token of the row's prompt equals [pad_id] the columns whose
    mask is clear are the columns outside the prompt; and the loop runs the
    steps up to the first state in which every flag is set, or all of them:
    it stops before the last column only in such a state. *)
Theorem eos_reached_monotone_and_break prompts max_gen_len temperature top_p
    logprobs w st w1 :
  generate_setup T self prompts max_gen_len w = (Ok st, w1) ->
  let run n :=
    run_steps T self temperature top_p logprobs (input_text_mask st)
              (take n (columns st)) (start st) w1 in
  (forall n s w' k mrow row,
     run n = (Ok s, w') ->
     input_text_mask st !! k = Some mrow -> tokens s !! k = Some row ->
     eos_reached s !! k = Some (existsb (eos_hit self mrow row) (take n (columns st)))) /\
  (forall n m s_n w_n s_m w_m k,
     n <= m -> run n = (Ok s_n, w_n) -> run m = (Ok s_m, w_m) ->
     eos_reached s_n !! k = Some true -> eos_reached s_m !! k = Some true) /\
  (forall k prompt mrow j,
     prompts !! k = Some prompt -> input_text_mask st !! k = Some mrow ->
     pad_id (tokenizer self) ∉ prompt -> j < total_len st ->
     (mrow !!! j = false <-> length prompt <= j)) /\
  (exists n, n <= length (columns st) /\
     decode_loop T self temperature top_p logprobs (input_text_mask st)
                 (columns st) (start st) w1 = run n /\
     (forall m s_m w_m, 0 < m -> m < n -> run m = (Ok s_m, w_m) ->
        forallb id (eos_reached s_m) = false) /\
     (n < length (columns st) ->
        0 < n /\
        exists s' w', run n = (Ok s', w') /\ forallb id (eos_reached s') = true)).
Proof.
  intros Hsetup run.
  pose proof (generate_setup_Ok _ _ _ _ _ Hsetup) as (_ & _ & _ & _ & _ & _ & Hmask & _).
  destruct (generate_setup_shape _ _ _ _ _ Hsetup)
    as (Htok & _ & Heos & Hml & Hel & Hlen & Hfit).
  split; [|split; [|split]].
  - intros n s w' k mrow row Hrun Hm Hrow.
    destruct (run_steps_from_setup _ _ _ _ _ _ _ _ _ _ _ Hsetup Hrun)
      as (Hlen' & _ & Hrows).
    assert (k < length prompts) as Hk.
    { rewrite <- Hlen'. eapply lookup_lt_Some, Hrow. }
    destruct (lookup_lt_is_Some_2 prompts k Hk) as [prompt Hprompt].
    destruct (Hrows k prompt Hprompt) as (row' & Hrow' & Hrl & _).
    assert (row' = row) as -> by congruence.
    destruct (run_steps_eos _ _ _ _ _ _ _ _ _ Hrun Hml Hel) as [_ Hflag].
    { eapply sub_columns_NoDup, sublist_take. }
    rewrite (Hflag k false mrow row); [done | | done | done |].
    + rewrite Heos. now apply lookup_replicate_2.
    + intros c Hc. rewrite Hrl. eapply sub_columns_lt; [apply sublist_take | exact Hc].
  - intros n m s_n w_n s_m w_m k Hnm Hn Hm Hflag.
    unfold run in Hm.
    replace (take m (columns st))
      with (take n (columns st) ++ drop n (take m (columns st))) in Hm.
    2:{ rewrite <- (take_drop n (take m (columns st))) at 2.
        rewrite take_take. do 2 f_equal. lia. }
    rewrite run_steps_app in Hm. fold (run n) in Hm. rewrite Hn in Hm.
    destruct (run_steps_from_setup _ _ _ _ _ _ _ _ _ _ _ Hsetup Hn)
      as (Hlen_n & Hel_n & _).
    assert (length (input_text_mask st) = length (tokens s_n)) as Hml_n by congruence.
    assert (length (eos_reached s_n) = length (tokens s_n)) as Hel_n' by congruence.
    assert (drop n (take m (columns st)) `sublist_of` columns st) as Hsub.
    { etrans; [apply sublist_drop | apply sublist_take]. }
    destruct (run_steps_eos _ _ _ _ _ _ _ _ _ Hm Hml_n Hel_n') as [_ Hflag'].
    { eapply sub_columns_NoDup, Hsub. }
    destruct (run_steps_tokens _ _ _ _ _ _ _ _ _ Hm Hml_n) as [Hlen_m Hrows].
    assert (k < length prompts) as Hk.
    { rewrite <- Hel_n. eapply lookup_lt_Some, Hflag. }
    destruct (lookup_lt_is_Some_2 (input_text_mask st) k) as [mrow Hmrow]; [lia|].
    destruct (lookup_lt_is_Some_2 (tokens s_n) k) as [row_n Hrow_n]; [lia|].
    destruct (Hrows k row_n mrow Hrow_n Hmrow) as (row_m & Hrow_m & Hrl & _).
    rewrite (Hflag' k true mrow row_m); [done | done | done | done |].
    intros c Hc. rewrite Hrl.
    assert (exists prompt, prompts !! k = Some prompt) as [prompt Hprompt]
      by (apply lookup_Some_lt; exact Hk).
    destruct (run_steps_from_setup _ _ _ _ _ _ _ _ _ _ _ Hsetup Hn)
      as (_ & _ & Hrows_n).
    destruct (Hrows_n k prompt Hprompt) as (row' & Hrow' & Hrl' & _).
    assert (row' = row_n) as -> by congruence.
    rewrite Hrl'. eapply sub_columns_lt; [exact Hsub | exact Hc].
  - intros k prompt mrow j Hprompt Hm Hpad Hj.
    destruct (input_text_mask_lookup prompts (total_len st) k prompt Hprompt)
      as (mrow' & Hmrow' & Hl & Hin & Hout).
    rewrite <- Hmask, Hm in Hmrow'. injection Hmrow' as <-.
    rewrite Forall_forall in Hfit.
    assert (length prompt <= total_len st)
      by (apply Hfit; eapply list_elem_of_lookup_2, Hprompt).
    destruct (decide (j < length prompt)) as [Hlt|Hge].
    + destruct (lookup_lt_is_Some_2 prompt j Hlt) as [x Hx].
      rewrite (list_lookup_total_correct _ _ _ (Hin j x Hx)).
      assert (x <> pad_id (tokenizer self)) as Hne.
      { intros ->. apply Hpad. eapply list_elem_of_lookup_2, Hx. }
      apply Z.eqb_neq in Hne. rewrite Hne. simpl. split; [done|lia].
    + rewrite (list_lookup_total_correct mrow j false) by (apply Hout; lia).
      split; [lia|done].
  - apply decode_loop_prefix.
Qed.

(** C10.  The mask is the comparison of the initial grid with [pad_id]: in
    the row of a prompt it is set on the prompt tokens that differ from
    [pad_id] and clear everywhere else, whatever the length of the prompt.
    A step at a column where the prompt holds [pad_id] writes the candidate
    of the row there and counts it for the EOS-reached flag.  The prompt
    positions that the loop is sure to keep are those whose token differs
    from [pad_id]. *)
Theorem input_text_mask_from_pad_id prompts max_gen_len temperature top_p
    logprobs w st w1 :
  generate_setup T self prompts max_gen_len w = (Ok st, w1) ->
  (forall k prompt, prompts !! k = Some prompt ->
     exists mrow,
       input_text_mask st !! k = Some mrow /\
       length mrow = total_len st /\
       (forall j x, prompt !! j = Some x ->
          mrow !! j = Some (negb (x =? pad_id (tokenizer self))%Z)) /\
       (forall j, length prompt <= j -> j < total_len st -> mrow !! j = Some false)) /\
  (forall c s w2 s' w' k prompt row (b : bool),
     decode_step T self temperature top_p logprobs (input_text_mask st) c s w2
       = (Ok s', w') ->
     length (tokens s) = length prompts ->
     prompts !! k = Some prompt -> prompt !! c = Some (pad_id (tokenizer self)) ->
     tokens s !! k = Some row -> eos_reached s !! k = Some b ->
     exists logits last_logits candidates w3 cand,
       model_forward T self (slice (prev_pos s) c <$> tokens s) (prev_pos s) w2
         = (Ok logits, w3) /\
       mapM (fun lrow => of_option IndexError (last lrow)) logits = Ok last_logits /\
       next_token_candidates T self temperature top_p last_logits w3
         = (Ok candidates, w') /\
       candidates !! k = Some cand /\
       tokens s' !! k = Some (<[c := cand]> row) /\
       eos_reached s' !! k = Some (b || (cand =? eos_id (tokenizer self))%Z)) /\
  (forall n s w',
     run_steps T self temperature top_p logprobs (input_text_mask st)
               (take n (columns st)) (start st) w1 = (Ok s, w') ->
     forall k prompt j x,
       prompts !! k = Some prompt -> prompt !! j = Some x ->
       x <> pad_id (tokenizer self) ->
       exists row, tokens s !! k = Some row /\ row !! j = Some x).
Proof.
  intros Hsetup.
  pose proof (generate_setup_Ok _ _ _ _ _ Hsetup) as (_ & _ & _ & _ & _ & _ & Hmask & _).
  destruct (generate_setup_shape _ _ _ _ _ Hsetup)
    as (Htok & _ & Heos & Hml & Hel & Hlen & Hfit).
  rewrite Forall_forall in Hfit.
  split; [|split].
  - intros k prompt Hk.
    destruct (input_text_mask_lookup prompts (total_len st) k prompt Hk)
      as (mrow & Hmrow & Hl & Hin & Hout).
    assert (length prompt <= total_len st)
      by (apply Hfit; eapply list_elem_of_lookup_2, Hk).
    exists mrow. rewrite Hmask. split; [done|]. split; [lia|]. split; [done|].
    intros j ? ?. apply Hout; lia.
  - intros c s w2 s' w' k prompt row b Hstep Hlen_s Hk Hc Hrow Hb.
    destruct (input_text_mask_lookup prompts (total_len st) k prompt Hk)
      as (mrow & Hmrow & _ & Hin & _).
    rewrite <- Hmask in Hmrow.
    assert (mrow !!! c = false) as Hclear.
    { apply list_lookup_total_correct. rewrite (Hin c _ Hc). now rewrite Z.eqb_refl. }
    apply decode_step_Ok in Hstep
      as (logits & last_logits & candidates & w3 & Hf & Hl & Hc' & Hlen_c & Htok'
          & _ & He & _).
    destruct (step_row (input_text_mask st) c _ _ k row mrow Hlen_c Hrow Hmrow)
      as (cand & Hcand & _ & Hset & Hhit).
    rewrite Hclear in Hset, Hhit. simpl in Hset, Hhit.
    exists logits, last_logits, candidates, w3, cand.
    do 4 (split; [done|]). split; [now rewrite Htok'|].
    rewrite He, lookup_zip_with, Hb. simpl. now rewrite Hhit.
  - intros n s w' Hrun k prompt j x Hk Hj Hx.
    destruct (run_steps_from_setup _ _ _ _ _ _ _ _ _ _ _ Hsetup Hrun)
      as (_ & _ & Hrows).
    destruct (Hrows k prompt Hk) as (row & Hrow & _ & _ & Hkeep).
    exists row. split; [exact Hrow|]. now apply Hkeep.
Qed.

(** *** Capacity checks *)

(** C8.  A batch larger than [max_batch_size], or holding a prompt longer
    than [max_seq_len], makes [generate] raise an assertion error and leave
    the world as it found it: the model has not been called and no row has
    been processed. *)
Theorem generate_rejects_oversized prompts max_gen_len temperature top_p
    logprobs echo w :
  max_batch_size (params (model self)) < length prompts \/
  Exists (fun t => max_seq_len (params (model self)) < length t) prompts ->
  exists a,
    generate T self prompts max_gen_len temperature top_p logprobs echo w
      = (Raise (AssertionError a), w).
Proof.
  intros H. unfold generate, generate_grid, generate_setup, mbind, M_bind, lift.
  destruct (length prompts <=? max_batch_size (params (model self))) eqn:E1; simpl.
  2:{ exists BatchSizeAssertion. done. }
  apply Nat.leb_le in E1. destruct H as [H|H]; [lia|].
  destruct (list_min (length <$> prompts)) as [m|e] eqn:Emin.
  2:{ destruct prompts; [by apply Exists_nil in H | done]. }
  destruct (list_max (length <$> prompts)) as [mx|e] eqn:Emax.
  2:{ destruct prompts; [by apply Exists_nil in H | done]. }
  apply list_max_Ok in Emax. rewrite Forall_fmap, Forall_forall in Emax.
  apply Exists_exists in H as (t & Ht & Hlt). specialize (Emax t Ht). simpl in Emax.
  destruct (mx <=? max_seq_len (params (model self))) eqn:E2; simpl.
  - apply Nat.leb_le in E2. lia.
  - exists SeqLenAssertion. done.
Qed.

(** *** Prompts that fill the grid *)

Lemma neg_cross_entropy_lookup logits target ce k j lrow row lg t :
  neg_cross_entropy T self logits target = Ok ce ->
  logits !! k = Some lrow -> target !! k = Some row ->
  lrow !! j = Some lg -> row !! j = Some t ->
  exists lps,
    ce !! k = Some lps /\
    lps !! j
      = Some (- (if (t =? pad_id (tokenizer self))%Z then 0 else nll T lg t))%Q.
Proof.
  unfold neg_cross_entropy. case_bool_decide; [|done]. intros [= <-] Hl Ht Hlg Hrow.
  eexists. split.
  - rewrite lookup_zip_with, Hl. simpl. rewrite Ht. reflexivity.
  - unfold neg_cross_entropy_row. rewrite lookup_zip_with, Hlg. simpl. now rewrite Hrow.
Qed.

(** C1, what the code does.  When every prompt fills the grid the model is
    called once, on the whole grid from position 0, and the loop has no
    column to visit; the value stored at row [k] and column [j] of the
    logprob grid is the negated loss of the logits of column [j] against the
    token of the same column [j] (0 where that token is [pad_id]), not
    against the token of column [j + 1]. *)
Theorem full_prompt_scores_same_column prompts max_gen_len temperature top_p
    logprobs w st w1 :
  generate_setup T self prompts max_gen_len w = (Ok st, w1) ->
  min_prompt_len st = total_len st ->
  generate_grid T self prompts max_gen_len temperature top_p logprobs w
    = (Ok (start st), w1) /\
  tokens (start st) = init_tokens self prompts (total_len st) /\
  exists logits,
    forward (model self) (model_state w) (tokens (start st)) 0
      = (model_state w1, logits) /\
    calls w1 = calls w ++ [(tokens (start st), 0)] /\
    rng w1 = rng w /\
    forall k j row lrow lg t,
      tokens (start st) !! k = Some row -> row !! j = Some t ->
      logits !! k = Some lrow -> lrow !! j = Some lg ->
      exists lps,
        token_logprobs (start st) !! k = Some lps /\
        lps !! j
          = Some (- (if (t =? pad_id (tokenizer self))%Z then 0 else nll T lg t))%Q.
Proof.
  intros Hsetup Hfull.
  destruct (generate_setup_shape _ _ _ _ _ Hsetup) as (Htok & _).
  split; [|split; [exact Htok|]].
  - unfold generate_grid, mbind, M_bind. rewrite Hsetup.
    unfold columns. now rewrite Hfull, Nat.sub_diag.
  - apply generate_setup_Ok in Hsetup as (_ & _ & _ & _ & _ & _ & _ & Hstart).
    rewrite Hfull, Nat.eqb_refl in Hstart.
    apply score_full_prompts_Ok in Hstart as (logits & Hf & Hce & Ht & _).
    simpl in Hf, Hce. rewrite <- Htok in Hf, Hce.
    unfold model_forward in Hf.
    destruct (forward (model self) (model_state w) (tokens (start st)) 0)
      as [ms logits'] eqn:Ef.
    injection Hf as <- <-. exists logits'. simpl. split; [done|]. split; [done|].
    split; [done|].
    intros k j row lrow lg t Hrow Hj Hl Hlg.
    eapply neg_cross_entropy_lookup; eauto.
Qed.

(** *** The result assembler *)

Lemma slice_length {A} (a n : nat) (l : list A) : length (slice a (a + n) l) <= n.
Proof. unfold slice. rewrite length_drop, length_take. lia. Qed.

Lemma slice_drop {A} (a n : nat) (l : list A) :
  exists rest, drop a l = slice a (a + n) l ++ rest.
Proof.
  exists (drop n (drop a l)). unfold slice.
  now rewrite <- take_drop_commute, take_drop.
Qed.

Lemma index_of_Some x l i :
  index_of x l = Some i ->
  l = take i l ++ x :: drop (S i) l /\ (x ∉ take i l) /\ i < length l.
Proof.
  unfold index_of. destruct (list_find _ l) as [[i' y]|] eqn:E; [|done].
  intros [= <-]. apply list_find_Some in E as (Hi & -> & Hbefore).
  split; [|split].
  - rewrite <- (take_drop_middle _ _ _ Hi) at 1. done.
  - intros Hin. apply list_elem_of_lookup in Hin as [j Hj].
    assert (j < i') as Hlt.
    { apply lookup_lt_Some in Hj. rewrite length_take in Hj. lia. }
    rewrite lookup_take_lt in Hj by done. now apply (Hbefore j x).
  - eapply lookup_lt_Some, Hi.
Qed.

Lemma index_of_None x l : index_of x l = None -> x ∉ l.
Proof.
  unfold index_of. destruct (list_find _ l) as [[i' y]|] eqn:E; [done|].
  intros _. apply list_find_None in E. rewrite Forall_forall in E.
  intros Hin. now apply (E x Hin).
Qed.

(** One row of the output, prompt stripped. *)
Lemma assemble_row_no_echo max_gen_len prompt row lps :
  let extracted := slice (length prompt) (length prompt + max_gen_len) row in
  let lp_extracted := slice (length prompt) (length prompt + max_gen_len) lps in
  let out := assemble_row self max_gen_len false prompt row lps in
  (exists rest, drop (length prompt) row = out.1 ++ rest) /\
  length out.1 <= max_gen_len /\
  (eos_id (tokenizer self) ∉ out.1) /\
  (eos_id (tokenizer self) ∈ extracted ->
     (exists rest, extracted = out.1 ++ eos_id (tokenizer self) :: rest) /\
     out.2 = take (length out.1) lp_extracted) /\
  (eos_id (tokenizer self) ∉ extracted ->
     out.1 = extracted /\ out.2 = lp_extracted).
Proof.
  intros extracted lp_extracted out.
  pose proof (slice_length (length prompt) max_gen_len row) as Hlen.
  fold extracted in Hlen.
  destruct (slice_drop (length prompt) max_gen_len row) as [rest Hrest].
  fold extracted in Hrest.
  unfold out, assemble_row. fold extracted. fold lp_extracted.
  destruct (index_of (eos_id (tokenizer self)) extracted) as [i|] eqn:E; simpl.
  - apply index_of_Some in E as (Hsplit & Hnot & Hi).
    split; [|split; [|split; [|split]]].
    + exists (drop i extracted ++ rest). rewrite Hrest, app_assoc.
      now rewrite take_drop.
    + rewrite length_take. lia.
    + exact Hnot.
    + intros _. split; [eauto|]. rewrite length_take. f_equal. lia.
    + intros Hno. exfalso. apply Hno. rewrite Hsplit. apply elem_of_app. right. left.
  - apply index_of_None in E.
    split; [|split; [|split; [|split]]]; try done.
    exists rest. exact Hrest.
Qed.

Lemma assemble_lookup prompts max_gen_len (logprobs echo : bool) s i row :
  tokens s !! i = Some row ->
  let out := assemble self prompts max_gen_len logprobs echo s in
  let r := assemble_row self max_gen_len echo (prompts !!! i) row
                        (token_logprobs s !!! i) in
  out.1 !! i = Some r.1 /\
  length out.1 = length (tokens s) /\
  (if logprobs
   then exists l, out.2 = Some l /\ l !! i = Some r.2 /\ length l = length (tokens s)
   else out.2 = None).
Proof.
  intros Hrow. unfold assemble. simpl.
  rewrite !list_lookup_fmap, list_lookup_imap, Hrow. simpl.
  split; [done|]. rewrite length_fmap, length_imap. split; [done|].
  destruct logprobs; [|done]. eexists. split; [done|].
  rewrite !list_lookup_fmap, list_lookup_imap, Hrow, length_fmap, length_imap. done.
Qed.

Lemma generate_lengths prompts max_gen_len temperature top_p (logprobs echo : bool)
    w out out_logprobs w' :
  generate T self prompts max_gen_len temperature top_p logprobs echo w
    = (Ok (out, out_logprobs), w') ->
  length out = length prompts /\
  (if logprobs
   then exists l, out_logprobs = Some l /\ length l = length prompts
   else out_logprobs = None).
Proof.
  intros H. unfold generate in H. apply bind_Ok in H as (s & w1 & Hgrid & H).
  apply ret_Ok in H as [H ->].
  apply generate_grid_Ok in Hgrid as [n Hpre].
  apply generate_prefix_Ok in Hpre as (st & w2 & Hsetup & Hrun).
  destruct (run_steps_from_setup _ _ _ _ _ _ _ _ _ _ _ Hsetup Hrun) as (Hlen & _).
  unfold assemble in H. injection H as -> ->.
  rewrite !length_fmap, length_imap. split; [done|].
  destruct logprobs; [|done]. eexists. split; [done|].
  now rewrite length_fmap, length_imap.
Qed.

(** C3.  With [echo = false] every row of the result of [generate] starts
    at the column after its prompt, is at most [max_gen_len] long and holds
    no end marker; when the end marker occurs in the extracted slice the
    tokens, and the logprobs when requested, stop right before its first
    occurrence, otherwise they are the whole slice. *)
Theorem generate_output_trimmed prompts max_gen_len temperature top_p logprobs
    w out out_logprobs w' :
  generate T self prompts max_gen_len temperature top_p logprobs false w
    = (Ok (out, out_logprobs), w') ->
  exists s,
    generate_grid T self prompts max_gen_len temperature top_p logprobs w
      = (Ok s, w') /\
    length out = length prompts /\
    forall i prompt, prompts !! i = Some prompt ->
      exists row toks,
        tokens s !! i = Some row /\ out !! i = Some toks /\
        let extracted := slice (length prompt) (length prompt + max_gen_len) row in
        let lp_extracted :=
          slice (length prompt) (length prompt + max_gen_len)
                (token_logprobs s !!! i) in
        (exists rest, drop (length prompt) row = toks ++ rest) /\
        length toks <= max_gen_len /\
        (eos_id (tokenizer self) ∉ toks) /\
        (eos_id (tokenizer self) ∈ extracted ->
           exists rest, extracted = toks ++ eos_id (tokenizer self) :: rest) /\
        (eos_id (tokenizer self) ∉ extracted -> toks = extracted) /\
        (if logprobs
         then exists l probs,
                out_logprobs = Some l /\ length l = length prompts /\
                l !! i = Some probs /\
                (eos_id (tokenizer self) ∈ extracted ->
                   probs = take (length toks) lp_extracted) /\
                (eos_id (tokenizer self) ∉ extracted -> probs = lp_extracted)
         else out_logprobs = None).
Proof.
  intros H. unfold generate in H. apply bind_Ok in H as (s & w1 & Hgrid & H).
  apply ret_Ok in H as [H ->]. exists s. split; [exact Hgrid|].
  pose proof Hgrid as Hgrid'.
  apply generate_grid_Ok in Hgrid' as [n Hpre].
  apply generate_prefix_Ok in Hpre as (st & w2 & Hsetup & Hrun).
  destruct (run_steps_from_setup _ _ _ _ _ _ _ _ _ _ _ Hsetup Hrun)
    as (Hlen & _ & Hrows).
  assert (out = (assemble self prompts max_gen_len logprobs false s).1) as Hout
    by (now rewrite <- H).
  assert (out_logprobs = (assemble self prompts max_gen_len logprobs false s).2)
    as Hlps by (now rewrite <- H).
  clear H. split.
  { rewrite Hout. unfold assemble. simpl. now rewrite length_fmap, length_imap. }
  intros i prompt Hi.
  destruct (Hrows i prompt Hi) as (row & Hrow & _).
  destruct (assemble_lookup prompts max_gen_len logprobs false s i row Hrow)
    as (Ho & _ & Hl).
  rewrite (list_lookup_total_correct _ _ _ Hi) in Ho, Hl.
  rewrite <- Hout in Ho. rewrite <- Hlps in Hl.
  destruct (assemble_row_no_echo max_gen_len prompt row (token_logprobs s !!! i))
    as (Hstart & Hmax & Hno & Hcut & Hwhole).
  eexists row, _. split; [exact Hrow|]. split; [exact Ho|]. cbv zeta.
  split; [exact Hstart|]. split; [exact Hmax|]. split; [exact Hno|].
  split; [intros Hin; now apply Hcut|]. split; [intros Hnin; now apply Hwhole|].
  destruct logprobs; [|exact Hl].
  destruct Hl as (l & -> & Hli & Hll). eexists l, _.
  split; [done|]. split; [congruence|]. split; [exact Hli|].
  split; [intros Hin; now apply Hcut | intros Hnin; now apply Hwhole].
Qed.

(** *** Greedy decoding *)

Lemma related_ret {A} (a : A) : greedy_related T self (mret a) (mret a).
Proof. intros w1 w2 H. done. Qed.

Lemma related_lift {A} (r : result A) : greedy_related T self (lift T self r) (lift T self r).
Proof. intros w1 w2 H. done. Qed.

Lemma related_bind {A B} (m m' : M A) (f f' : A -> M B) :
  greedy_related T self m m' -> (forall a, greedy_related T self (f a) (f' a)) ->
  greedy_related T self (m ≫= f) (m' ≫= f').
Proof.
  intros Hm Hf w1 w2 H. unfold mbind, M_bind.
  destruct (Hm w1 w2 H) as (Hr & Hs & Hg1 & Hg2).
  destruct (m w1) as [[a|e] w1'], (m' w2) as [[a'|e'] w2']; simpl in *; try done.
  - injection Hr as <-. destruct (Hf a w1' w2' Hs) as (? & ? & ? & ?).
    repeat split; congruence.
  - injection Hr as <-. done.
Qed.

Lemma related_forward toks pos :
  greedy_related T self (model_forward T self toks pos) (model_forward T self toks pos).
Proof.
  intros w1 w2 H. unfold model_forward. rewrite H.
  destruct (forward (model self) (model_state w2) toks pos). done.
Qed.

Lemma related_candidates temperature top_p1 top_p2 last_logits :
  ~ (0 < temperature)%Q ->
  greedy_related T self (next_token_candidates T self temperature top_p1 last_logits)
                 (next_token_candidates T self temperature top_p2 last_logits).
Proof.
  intros Ht. unfold next_token_candidates.
  destruct (Qgtb temperature 0) eqn:E; [now apply Qgtb_true in E|].
  apply related_lift.
Qed.

Lemma related_step temperature top_p1 top_p2 logprobs mask c s :
  ~ (0 < temperature)%Q ->
  greedy_related T self (decode_step T self temperature top_p1 logprobs mask c s)
                 (decode_step T self temperature top_p2 logprobs mask c s).
Proof.
  intros Ht. unfold decode_step.
  apply related_bind; [apply related_forward|]. intros logits.
  apply related_bind; [apply related_lift|]. intros last_logits.
  apply related_bind; [by apply related_candidates|]. intros candidates.
  destruct (negb _); [apply related_lift|].
  apply related_bind; [|intros; apply related_ret].
  destruct logprobs; [|apply related_ret].
  apply related_bind; [apply related_lift | intros; apply related_ret].
Qed.

Lemma related_loop temperature top_p1 top_p2 logprobs mask cols :
  ~ (0 < temperature)%Q ->
  forall s,
  greedy_related T self (decode_loop T self temperature top_p1 logprobs mask cols s)
                 (decode_loop T self temperature top_p2 logprobs mask cols s).
Proof.
  intros Ht. induction cols as [|c cols IH]; intros s; simpl.
  - apply related_ret.
  - apply related_bind; [by apply related_step|]. intros s'.
    destruct (forallb id (eos_reached s')); [apply related_ret | apply IH].
Qed.

Lemma related_setup prompts max_gen_len :
  greedy_related T self (generate_setup T self prompts max_gen_len)
                 (generate_setup T self prompts max_gen_len).
Proof.
  unfold generate_setup.
  do 4 (apply related_bind; [apply related_lift|]; intros ?).
  apply related_bind; [|intros; apply related_ret].
  destruct (_ =? _); [|apply related_ret].
  unfold score_full_prompts.
  apply related_bind; [apply related_forward|]. intros logits.
  apply related_bind; [apply related_lift | intros; apply related_ret].
Qed.

(** What a step does when the temperature is not positive. *)
Lemma decode_step_greedy temperature top_p logprobs mask c s w s' w' :
  ~ (0 < temperature)%Q ->
  decode_step T self temperature top_p logprobs mask c s w = (Ok s', w') ->
  exists logits last_logits candidates,
    forward (model self) (model_state w) (slice (prev_pos s) c <$> tokens s)
            (prev_pos s) = (model_state w', logits) /\
    mapM (fun lrow => of_option IndexError (last lrow)) logits = Ok last_logits /\
    Forall2 (fun lg cand =>
               exists a x, cand = Z.of_nat a /\ argmax lg = Some a /\
                 lg !! a = Some x /\ forall y, y ∈ lg -> (y <= x)%Q)
            last_logits candidates /\
    tokens s'
      = set_column c (tokens s)
          (where_ (column c mask) (column c (tokens s)) candidates) /\
    rng w' = rng w.
Proof.
  intros Ht Hstep.
  apply decode_step_Ok in Hstep
    as (logits & last_logits & candidates & w1 & Hf & Hl & Hc & _ & Htok & _).
  exists logits, last_logits, candidates.
  unfold model_forward in Hf.
  destruct (forward (model self) (model_state w) _ (prev_pos s)) as [ms lg] eqn:Ef.
  injection Hf as -> <-.
  unfold next_token_candidates in Hc.
  destruct (Qgtb temperature 0) eqn:E; [now apply Qgtb_true in E|].
  apply lift_Ok in Hc as [Hc ->]. simpl.
  split; [done|]. split; [done|]. split; [|done].
  apply mapM_result_Ok in Hc.
  eapply Forall2_impl; [exact Hc|]. simpl. intros lgr cand Hcand.
  destruct (argmax lgr) as [a|] eqn:Ea; [|done]. injection Hcand as <-.
  destruct (argmax_spec _ _ Ea) as (x & Hx & Hle). eauto 10.
Qed.

(** C5.  With a temperature that is not positive, [generate] returns the
    same result and leaves the model in the same state whatever the state
    of the random generator, the value of [top_p] and the call log it starts
    from, and it leaves the random generator as it found it; every step
    takes for each row the [argmax] of the logits of the last scored column,
    an entry that no other entry of that row exceeds. *)
Theorem generate_greedy_deterministic prompts max_gen_len temperature logprobs
    echo top_p1 top_p2 w1 w2 :
  ~ (0 < temperature)%Q ->
  model_state w1 = model_state w2 ->
  let r1 := generate T self prompts max_gen_len temperature top_p1 logprobs echo w1 in
  let r2 := generate T self prompts max_gen_len temperature top_p2 logprobs echo w2 in
  (r1.1 = r2.1 /\ model_state r1.2 = model_state r2.2 /\
   rng r1.2 = rng w1 /\ rng r2.2 = rng w2) /\
  (forall mask c s w s' w',
     decode_step T self temperature top_p1 logprobs mask c s w = (Ok s', w') ->
     exists logits last_logits candidates,
       forward (model self) (model_state w) (slice (prev_pos s) c <$> tokens s)
               (prev_pos s) = (model_state w', logits) /\
       mapM (fun lrow => of_option IndexError (last lrow)) logits = Ok last_logits /\
       Forall2 (fun lg cand =>
                  exists a x, cand = Z.of_nat a /\ argmax lg = Some a /\
                    lg !! a = Some x /\ forall y, y ∈ lg -> (y <= x)%Q)
               last_logits candidates /\
       tokens s'
         = set_column c (tokens s)
             (where_ (column c mask) (column c (tokens s)) candidates) /\
       rng w' = rng w).
Proof.
  intros Ht Hw. split.
  - apply (related_bind _ _ _ _); [|intros; apply related_ret | exact Hw].
    unfold generate_grid.
    apply related_bind; [apply related_setup|]. intros st.
    by apply related_loop.
  - intros mask c s w s' w' Hstep. by eapply decode_step_greedy.
Qed.

(** *** Greedy decoding returns *)

Lemma set_column_rows j (grid : list (list Z)) col n :
  Forall (fun row => length row = n) grid ->
  Forall (fun row => length row = n) (set_column j grid col).
Proof.
  intros Hrows. unfold set_column. apply Forall_forall. intros row Hin.
  apply list_elem_of_lookup in Hin as [k Hk].
  apply lookup_zip_with_Some in Hk as (row0 & v & -> & Hrow0 & _).
  rewrite length_insert. rewrite Forall_forall in Hrows.
  apply Hrows. eapply list_elem_of_lookup_2, Hrow0.
Qed.

(** With a model that keeps its shape contract and a temperature that is
    not positive, a step at a column past the previous one and inside the
    grid succeeds. *)
Lemma decode_step_total temperature top_p logprobs mask c s w n :
  well_shaped_model self -> ~ (0 < temperature)%Q ->
  length mask = length (tokens s) ->
  Forall (fun row => length row = n) (tokens s) ->
  prev_pos s < c -> c < n ->
  exists s' w',
    decode_step T self temperature top_p logprobs mask c s w = (Ok s', w') /\
    prev_pos s' = c /\ length (tokens s') = length (tokens s) /\
    Forall (fun row => length row = n) (tokens s').
Proof.
  intros Hshape Ht Hmask Hrows Hprev Hc.
  assert (exists s' w',
            decode_step T self temperature top_p logprobs mask c s w = (Ok s', w'))
    as (s' & w' & Hstep).
  { unfold decode_step, mbind at 1, M_bind at 1, model_forward.
    destruct (Hshape (model_state w) (slice (prev_pos s) c <$> tokens s) (prev_pos s))
      as [Hlen Hvocab].
    destruct (forward (model self) (model_state w) _ (prev_pos s)) as [ms logits].
    simpl in Hlen, Hvocab.
    rewrite (fmap_length_slice _ _ n) in Hlen by (done || lia).
    assert (length logits = length (tokens s)) as Hbsz.
    { apply (f_equal length) in Hlen.
      now rewrite length_fmap, length_replicate in Hlen. }
    assert (Forall (fun lrow => length lrow = c - prev_pos s) logits) as Hwidth.
    { apply Forall_forall. intros lrow Hin.
      apply list_elem_of_lookup in Hin as [k Hk].
      assert ((length <$> logits) !! k = Some (length lrow)) as Hk'
        by (now rewrite list_lookup_fmap, Hk).
      rewrite Hlen in Hk'. apply lookup_replicate in Hk' as [Hk' _]. done. }
    destruct (mapM_result_total (fun row => of_option IndexError (last row)) logits)
      as [last_logits Hlast].
    { eapply Forall_impl; [exact Hwidth|]. simpl. intros lrow Hl.
      destruct (last lrow) as [lg|] eqn:E; [eauto|].
      apply last_None in E. subst lrow. simpl in Hl. lia. }
    unfold mbind at 1, M_bind at 1, lift at 1. rewrite Hlast.
    pose proof (proj1 (mapM_result_Ok _ _ _) Hlast) as Hl2.
    destruct (mapM_result_total
                (fun lg => of_option TorchError (Z.of_nat <$> argmax lg)) last_logits)
      as [candidates Hcand].
    { apply Forall_forall. intros lg Hin.
      apply list_elem_of_lookup in Hin as [k Hk].
      destruct (Forall2_lookup_r _ _ _ _ _ Hl2 Hk) as (lrow & Hlrow & Hlast_k).
      destruct (last lrow) as [lg'|] eqn:E; [|done]. injection Hlast_k as ->.
      rewrite Forall_forall in Hvocab.
      assert (Forall (fun lg : list Q => lg <> []) lrow) as Hne
        by (apply Hvocab; eapply list_elem_of_lookup_2, Hlrow).
      rewrite Forall_forall in Hne. specialize (Hne lg (last_Some_elem_of _ _ E)).
      destruct lg; [done|]. simpl. eauto. }
    unfold mbind at 1, M_bind at 1, next_token_candidates.
    destruct (Qgtb temperature 0) eqn:E; [now apply Qgtb_true in E|].
    unfold lift at 1. rewrite Hcand.
    assert (length candidates = length (tokens s)) as Hcl.
    { rewrite (mapM_result_length _ _ _ Hcand), (mapM_result_length _ _ _ Hlast).
      done. }
    rewrite Hcl, Nat.eqb_refl. simpl.
    destruct logprobs; [|unfold mbind, M_bind, mret, M_ret; eauto].
    unfold mbind, M_bind, lift, neg_cross_entropy.
    rewrite bool_decide_eq_true_2; [unfold mret, M_ret; eauto|].
    rewrite Hlen, (fmap_length_slice _ _ n);
      [ | by apply set_column_rows | lia ].
    unfold set_column.
    rewrite length_zip_with, where_length; rewrite ?column_length; try lia.
    f_equal; lia. }
  exists s', w'. split; [exact Hstep|].
  destruct (decode_step_tokens _ _ _ _ _ _ _ _ _ Hstep Hmask) as [Hlen' _].
  apply decode_step_Ok in Hstep as (? & ? & ? & ? & _ & _ & _ & _ & Htok & Hp & _).
  split; [exact Hp|]. split; [exact Hlen'|].
  rewrite Htok. by apply set_column_rows.
Qed.

Lemma decode_loop_total temperature top_p logprobs mask n len : forall m s w,
  well_shaped_model self -> ~ (0 < temperature)%Q ->
  length mask = length (tokens s) ->
  Forall (fun row => length row = n) (tokens s) ->
  prev_pos s < m -> (len <> 0 -> m + len <= n) ->
  exists s' w',
    decode_loop T self temperature top_p logprobs mask (seq m len) s w = (Ok s', w').
Proof.
  induction len as [|len IH]; intros m s w Hshape Ht Hmask Hrows Hprev Hfit.
  - simpl. unfold mret, M_ret. eauto.
  - destruct (decode_step_total temperature top_p logprobs mask m s w n)
      as (s1 & w1 & Hstep & Hp & Hl & Hr); try done; [lia|].
    simpl. unfold mbind, M_bind. rewrite Hstep.
    destruct (forallb id (eos_reached s1)); [unfold mret, M_ret; eauto|].
    apply IH; try done; [congruence | lia | lia].
Qed.

Lemma foldl_min_ge k x l :
  k <= x -> Forall (fun y => k <= y) l -> k <= foldl Nat.min x l.
Proof.
  revert x. induction l as [|y l IH]; intros x Hx Hall; simpl; [done|].
  inversion_clear Hall. apply IH; [lia | done].
Qed.

Lemma init_tokens_rows prompts total :
  Forall (fun prompt => length prompt <= total) prompts ->
  Forall (fun row => length row = total) (init_tokens self prompts total).
Proof.
  intros H. unfold init_tokens. apply Forall_fmap.
  eapply Forall_impl; [exact H|]. simpl. intros prompt Hp.
  rewrite length_app, length_replicate. lia.
Qed.

(** With a model that keeps its shape contract and a temperature that is
    not positive, [generate] returns on every batch of non-empty prompts
    that passes the two capacity checks. *)
Lemma generate_greedy_returns prompts max_gen_len temperature top_p logprobs echo w :
  well_shaped_model self -> ~ (0 < temperature)%Q ->
  prompts <> [] -> Forall (fun prompt => prompt <> []) prompts ->
  length prompts <= max_batch_size (params (model self)) ->
  Forall (fun prompt => length prompt <= max_seq_len (params (model self))) prompts ->
  exists out w',
    generate T self prompts max_gen_len temperature top_p logprobs echo w
      = (Ok out, w').
Proof.
  intros Hshape Ht Hne Hnonempty Hbsz Hseq.
  assert (exists st w1, generate_setup T self prompts max_gen_len w = (Ok st, w1))
    as (st & w1 & Hsetup).
  { unfold generate_setup, mbind at 1, M_bind at 1, lift at 1, assert_.
    apply Nat.leb_le in Hbsz. rewrite Hbsz.
    destruct (list_min (length <$> prompts)) as [m|e] eqn:Emin;
      [|destruct prompts; done].
    destruct (list_max (length <$> prompts)) as [mx|e] eqn:Emax;
      [|destruct prompts; done].
    unfold mbind at 1, M_bind at 1, lift at 1.
    unfold mbind at 1, M_bind at 1, lift at 1.
    assert (mx <= max_seq_len (params (model self))) as Hmx.
    { destruct prompts as [|p0 ps]; [done|]. injection Emax as <-.
      inversion_clear Hseq. clear -H H0. revert H.
      generalize (length p0). induction ps as [|p ps IH]; intros x Hx; simpl; [done|].
      inversion_clear H0. apply IH; [done | lia]. }
    apply Nat.leb_le in Hmx.
    unfold mbind at 1, M_bind at 1, lift at 1. rewrite Hmx.
    destruct (m =? total_len_of self max_gen_len mx).
    - unfold mbind at 1, M_bind at 1, score_full_prompts, mbind at 1, M_bind at 1,
        model_forward. simpl.
      destruct (Hshape (model_state w)
                  (init_tokens self prompts (total_len_of self max_gen_len mx)) 0)
        as [Hlen _].
      destruct (forward (model self) (model_state w) _ 0) as [ms logits].
      simpl in Hlen.
      unfold mbind, M_bind, lift, neg_cross_entropy.
      rewrite bool_decide_eq_true_2 by done. unfold mret, M_ret. eauto.
    - unfold mbind, M_bind, mret, M_ret. eauto. }
  pose proof (generate_setup_Ok _ _ _ _ _ Hsetup)
    as (mx & _ & Hmin & _ & _ & _ & _ & _).
  destruct (generate_setup_shape _ _ _ _ _ Hsetup)
    as (Htok & Hprev & _ & Hml & _ & _ & Hfit).
  assert (1 <= min_prompt_len st) as Hm.
  { destruct prompts as [|p0 ps]; [done|]. injection Hmin as <-.
    inversion_clear Hnonempty. apply foldl_min_ge.
    - destruct p0; [done | simpl; lia].
    - apply Forall_fmap. eapply Forall_impl; [eassumption|]. simpl.
      intros p Hp. destruct p; [done | simpl; lia]. }
  destruct (decode_loop_total temperature top_p logprobs (input_text_mask st)
              (total_len st) (total_len st - min_prompt_len st)
              (min_prompt_len st) (start st) w1) as (s & w' & Hloop); try done.
  - rewrite Htok. by apply init_tokens_rows.
  - lia.
  - lia.
  - eexists _, w'. unfold generate, generate_grid, mbind, M_bind.
    rewrite Hsetup. unfold columns. rewrite Hloop. reflexivity.
Qed.

End DecoderFacts.

(** * Properties of the dialog encoder and of [chat_completion] *)

Lemma prefix_app (t b : string) : String.prefix t (t +:+ b) = true.
Proof.
  induction t as [|c t IH]; simpl; [by destruct b|].
  destruct (ascii_dec c c); [exact IH | done].
Qed.

Lemma prefix_inv (t s : string) :
  String.prefix t s = true -> exists b, s = t +:+ b.
Proof.
  revert s. induction t as [|c t IH]; intros s H.
  - exists s. done.
  - destruct s as [|c' s]; [done|]. simpl in H.
    destruct (ascii_dec c c') as [<-|]; [|done].
    destruct (IH s H) as [b ->]. exists b. done.
Qed.

Lemma str_contains_unfold (tag s : string) :
  str_contains tag s =
  String.prefix tag s ||
  match s with
  | EmptyString => false
  | String _ s' => str_contains tag s'
  end.
Proof. destruct s; reflexivity. Qed.

(** [str_contains tag s] holds exactly when [tag] occurs in [s]. *)
Lemma str_contains_spec (tag s : string) :
  str_contains tag s = true <-> exists a b, s = a +:+ tag +:+ b.
Proof.
  split.
  - induction s as [|c s IH]; rewrite str_contains_unfold; intros H;
      apply orb_true_iff in H as [H|H].
    + apply prefix_inv in H as [b ->]. exists EmptyString, b. done.
    + done.
    + apply prefix_inv in H as [b Hb]. exists EmptyString, b. done.
    + destruct (IH H) as (a & b & ->). exists (String c a), b. done.
  - intros (a & b & ->). induction a as [|c a IH].
    + change (EmptyString +:+ tag +:+ b) with (tag +:+ b).
      rewrite str_contains_unfold. apply orb_true_iff. left. apply prefix_app.
    + change (str_contains tag (String c a +:+ tag +:+ b))
        with (String.prefix tag (String c (a +:+ tag +:+ b))
              || str_contains tag (a +:+ tag +:+ b)).
      rewrite IH. apply orb_true_r.
Qed.

Section ChatFacts.
Context (T : Numerics) (self : Llama).

Lemma unsafe_request_true (dialog : Dialog) :
  (exists msg tag a b,
     msg ∈ dialog /\ tag ∈ SPECIAL_TAGS /\ content msg = a +:+ tag +:+ b) ->
  unsafe_request dialog = true.
Proof.
  intros (msg & tag & a & b & Hmsg & Htag & Hc).
  unfold unsafe_request. apply existsb_exists. exists tag.
  split; [now apply list_elem_of_In|].
  apply existsb_exists. exists msg. split; [now apply list_elem_of_In|].
  apply str_contains_spec. eauto.
Qed.

(** A dialog that fails validation makes the whole call fail, before the
    model is called. *)
Lemma chat_completion_invalid dialogs temperature top_p max_gen_len logprobs w e :
  mapM (encode_dialog self) dialogs = Raise e ->
  chat_completion T self dialogs temperature top_p max_gen_len logprobs w
    = (Raise e, w).
Proof.
  intros H. unfold chat_completion, mbind, M_bind, lift. now rewrite H.
Qed.

(** C7.  When the dialogs pass validation and [generate] returns, so does
    [chat_completion], with one record per dialog, whether or not a dialog
    holds a control tag.  For a dialog in which some message content holds
    one of the control tags the unsafe flag is set and the record carries
    the fixed refusal text as the assistant's message, while its tokens and
    logprobs, when requested, are those of the generated row. *)
Theorem chat_completion_unsafe dialogs temperature top_p max_gen_len logprobs
    w prompts gen_tokens gen_logprobs w' :
  mapM (encode_dialog self) dialogs = Ok prompts ->
  generate T self prompts (default_max_gen_len self max_gen_len) temperature
           top_p logprobs false w = (Ok (gen_tokens, gen_logprobs), w') ->
  exists records,
    chat_completion T self dialogs temperature top_p max_gen_len logprobs w
      = (Ok records, w') /\
    length records = length dialogs /\
    forall i dialog, dialogs !! i = Some dialog ->
      (exists msg tag a b,
         msg ∈ dialog /\ tag ∈ SPECIAL_TAGS /\ content msg = a +:+ tag +:+ b) ->
      unsafe_request dialog = true /\
      exists t r,
        gen_tokens !! i = Some t /\ records !! i = Some r /\
        ChatPrediction.generation r
          = {| role := assistant; content := UNSAFE_ERROR |} /\
        (if logprobs
         then ChatPrediction.tokens r
                = Some ((fun x => decode (tokenizer self) [x]) <$> t) /\
              exists l probs,
                gen_logprobs = Some l /\ l !! i = Some probs /\
                ChatPrediction.logprobs r = Some probs
         else ChatPrediction.tokens r = None /\ ChatPrediction.logprobs r = None).
Proof.
  intros Henc Hgen.
  destruct (generate_lengths _ _ _ _ _ _ _ _ _ _ _ _ Hgen) as [Hlt Hll].
  pose proof (mapM_result_length _ _ _ Henc) as Hlp.
  unfold chat_completion, mbind at 1, M_bind at 1, lift. rewrite Henc.
  unfold mbind, M_bind. rewrite Hgen.
  destruct logprobs.
  - destruct Hll as (l & -> & Hll). simpl.
    eexists. split; [reflexivity|]. split.
    { rewrite !length_zip_with, length_fmap. lia. }
    intros i dialog Hi Htag. pose proof (unsafe_request_true dialog Htag) as Hu.
    split; [exact Hu|].
    destruct (lookup_Some_lt gen_tokens i) as [t Ht].
    { apply lookup_lt_Some in Hi. lia. }
    destruct (lookup_Some_lt l i) as [probs Hprobs].
    { apply lookup_lt_Some in Hi. lia. }
    eexists t, _. split; [exact Ht|]. split.
    { rewrite lookup_zip_with, lookup_zip_with, Ht. simpl. rewrite Hprobs. simpl.
      rewrite list_lookup_fmap, Hi. simpl. reflexivity. }
    simpl. unfold chat_message. rewrite Hu. simpl. split; [done|]. split; [done|].
    eauto.
  - simpl. eexists. split; [reflexivity|]. split.
    { rewrite !length_zip_with, length_fmap. lia. }
    intros i dialog Hi Htag. pose proof (unsafe_request_true dialog Htag) as Hu.
    split; [exact Hu|].
    destruct (lookup_Some_lt gen_tokens i) as [t Ht].
    { apply lookup_lt_Some in Hi. lia. }
    eexists t, _. split; [exact Ht|]. split.
    { rewrite lookup_zip_with, Ht. simpl. rewrite list_lookup_fmap, Hi. simpl.
      reflexivity. }
    simpl. unfold chat_message. rewrite Hu. done.
Qed.

(** C6 (as amended).  Validation of the six dialogs, whatever the contents
    of their messages: [user, assistant, user] and [system, user] are
    encoded; [user, user] and [assistant, user] fail the role-order
    assertion; [system, user, assistant] is merged into one user message
    followed by the assistant message, passes the role-order assertion and
    fails the last-message assertion, as [user, assistant] does.  A dialog
    that fails makes [chat_completion] fail with the same error. *)
Theorem dialog_validation_examples (c1 c2 c3 : string) :
  let msg r c := {| role := r; content := c |} in
  (exists toks, encode_dialog self [msg user c1; msg assistant c2; msg user c3]
                = Ok toks) /\
  encode_dialog self [msg user c1; msg user c2]
    = Raise (AssertionError RoleOrderAssertion) /\
  (merge_system [msg system c1; msg user c2; msg assistant c3]
     = Ok [msg user (B_SYS +:+ c1 +:+ E_SYS +:+ c2); msg assistant c3] /\
   roles_alternate [msg user (B_SYS +:+ c1 +:+ E_SYS +:+ c2); msg assistant c3]
     = true /\
   encode_dialog self [msg system c1; msg user c2; msg assistant c3]
     = Raise (AssertionError LastMessageAssertion)) /\
  encode_dialog self [msg assistant c1; msg user c2]
    = Raise (AssertionError RoleOrderAssertion) /\
  (exists toks, encode_dialog self [msg system c1; msg user c2] = Ok toks) /\
  encode_dialog self [msg user c1; msg assistant c2]
    = Raise (AssertionError LastMessageAssertion) /\
  (forall dialog rest e temperature top_p max_gen_len logprobs w,
     encode_dialog self dialog = Raise e ->
     chat_completion T self (dialog :: rest) temperature top_p max_gen_len
                     logprobs w = (Raise e, w)).
Proof.
  cbv zeta. repeat split; try reflexivity.
  - eexists. reflexivity.
  - eexists. reflexivity.
  - intros dialog rest e temperature top_p max_gen_len logprobs w H.
    apply chat_completion_invalid. rewrite mapM_result_cons. now rewrite H.
Qed.

End ChatFacts.

(** * Further properties of the nucleus sampler *)

Lemma imap_pair_elem (l : list Q) x i :
  (x, i) ∈ imap (fun i x => (x, i)) l <-> l !! i = Some x.
Proof.
  rewrite elem_of_lookup_imap. split.
  - intros (j & y & [= -> ->] & Hy). exact Hy.
  - intros H. exists i, x. done.
Qed.

(** The sorted row pairs every value with the index it had. *)
Lemma sort_desc_elem probs x i :
  (x, i) ∈ sort_desc probs <-> probs !! i = Some x.
Proof.
  unfold sort_desc. rewrite foldr_insert_desc_perm. apply imap_pair_elem.
Qed.



Lemma StronglySorted_lookup_lt {A} (R : A -> A -> Prop) l i j x y :
  StronglySorted R l -> i < j -> l !! i = Some x -> l !! j = Some y -> R x y.
Proof.
  intros Hs. revert i j. induction Hs as [|a l Hs IH Ha]; intros i j Hij Hi Hj.
  - done.
  - destruct j as [|j]; [lia|]. destruct i as [|i].
    + injection Hi as ->. rewrite Forall_forall in Ha. apply Ha.
      eapply list_elem_of_lookup_2, Hj.
    + apply (IH i j); [lia | done | done].
Qed.

(** X1.  The index that [sample_top_p] returns is an index of the row, the one
    that the value of the drawn rank had before sorting; no earlier rank
    holds a smaller value; and a rank of non-zero weight was not masked:
    its running sum minus its value, as the arithmetic computes them, does
    not exceed the threshold, so that on a row on which nothing is rounded
    the mass before it does not exceed [p]. *)
Theorem sample_top_p_returns_index {G} (A : FloatArith)
    (mult : list Q -> G -> option nat * G) probs p g t g' :
  sample_top_p A mult probs p g = (Ok t, g') ->
  exists k x,
    mult (top_p_probs A probs p) g = (Some k, g') /\
    (sort_desc probs).*1 !! k = Some x /\
    probs !! Z.to_nat t = Some x /\
    (0 <= t < Z.of_nat (length probs))%Z /\
    (forall y, y ∈ take k (sort_desc probs).*1 -> (x <= y)%Q) /\
    (forall v s, top_p_probs A probs p !! k = Some v -> ~ (v == 0)%Q ->
       fl_cumsum A (sort_desc probs).*1 !! k = Some s ->
       (fl_sub A s x <= fl_scalar A p)%Q) /\
    (exact_on A (sort_desc probs).*1 p ->
     forall v, top_p_probs A probs p !! k = Some v -> ~ (v == 0)%Q ->
       (Qsum (take k (sort_desc probs).*1) <= p)%Q).
Proof.
  unfold sample_top_p. destruct (mult _ g) as [[k|] g1] eqn:Em; [|done].
  destruct ((sort_desc probs).*2 !! k) as [i|] eqn:Ei; simpl; [|done].
  intros [= <- <-].
  rewrite list_lookup_fmap in Ei.
  destruct (sort_desc probs !! k) as [[x i']|] eqn:Ek; [|done].
  injection Ei as ->.
  assert (probs !! i = Some x) as Hx.
  { apply sort_desc_elem. eapply list_elem_of_lookup_2, Ek. }
  assert ((sort_desc probs).*1 !! k = Some x) as Hk
    by (now rewrite list_lookup_fmap, Ek).
  assert (forall v (b : bool),
            top_p_probs A probs p !! k = Some v -> ~ (v == 0)%Q ->
            top_p_mask A (sort_desc probs).*1 p !! k = Some b -> b = false) as Hkept.
  { intros v b Hv Hnz Hb. unfold top_p_probs, renormalize in Hv.
    rewrite list_lookup_fmap in Hv.
    rewrite (mask_fill_lookup _ _ _ _ _ Hk Hb) in Hv. injection Hv as <-.
    destruct b; [|done]. exfalso. apply Hnz. unfold Qdiv. lra. }
  exists k, x. split; [done|]. split; [exact Hk|].
  rewrite Nat2Z.id. split; [exact Hx|]. split.
  { apply lookup_lt_Some in Hx. lia. }
  split; [|split].
  - intros y Hy. apply list_elem_of_lookup in Hy as [j Hj].
    assert (j < k) as Hjk.
    { apply lookup_lt_Some in Hj. rewrite length_take in Hj. lia. }
    rewrite lookup_take_lt, list_lookup_fmap in Hj by done.
    destruct (sort_desc probs !! j) as [[y' iy]|] eqn:Ej; [|done].
    injection Hj as ->.
    pose proof (foldr_insert_desc_sorted (imap (fun i x => (x, i)) probs)) as Hs.
    fold (sort_desc probs) in Hs.
    apply (StronglySorted_lookup_lt _ _ j k (y, iy) (x, i) Hs Hjk Ej Ek).
  - intros v s Hv Hnz Hs.
    pose proof (Hkept v _ Hv Hnz (top_p_mask_computed A _ p k x s Hk Hs)) as E.
    now apply Qgtb_false in E.
  - intros Hex v Hv Hnz.
    pose proof (Hkept v _ Hv Hnz (top_p_mask_lookup_before A _ p k x Hex Hk)) as E.
    now apply Qgtb_false in E.
Qed.


(** * Further properties of [generate] *)

Section MoreDecoderFacts.
Context (T : Numerics) (self : Llama).

Lemma mapM_M_cons {A B} (f : A -> M T self B) x l w :
  mapM f (x :: l) w =
  match f x w with
  | (Ok y, w1) =>
      match mapM f l w1 with
      | (Ok k, w2) => (Ok (y :: k), w2)
      | (Raise e, w2) => (Raise e, w2)
      end
  | (Raise e, w1) => (Raise e, w1)
  end.
Proof.
  change (mapM f (x :: l) w) with ((y ← f x; k ← mapM f l; mret (y :: k)) w).
  unfold mbind, M_bind. destruct (f x w) as [[y|e] w1]; [|done].
  destruct (mapM f l w1) as [[k|e] w2]; done.
Qed.

(** What holds of every result of [f], and every relation between worlds
    that [f] keeps, holds through [mapM f]. *)
Lemma mapM_M_Ok {A B} (f : A -> M T self B) (Q : B -> Prop)
    (R : World T self -> World T self -> Prop) :
  (forall w, R w w) -> (forall w1 w2 w3, R w1 w2 -> R w2 w3 -> R w1 w3) ->
  (forall x w y w', f x w = (Ok y, w') -> Q y /\ R w w') ->
  forall l w l' w', mapM f l w = (Ok l', w') -> Forall Q l' /\ R w w'.
Proof.
  intros Hrefl Htrans Hf. induction l as [|x l IH]; intros w l' w' H.
  - injection H as <- <-. split; [constructor | apply Hrefl].
  - rewrite mapM_M_cons in H.
    destruct (f x w) as [[y|e] w1] eqn:Ex; [|done].
    destruct (mapM f l w1) as [[k|e] w2] eqn:El; [|done].
    injection H as <- <-.
    destruct (Hf _ _ _ _ Ex) as [Hy Hw]. destruct (IH _ _ _ El) as [Hk Hw'].
    split; [by constructor | by eapply Htrans].
Qed.

Lemma sample_top_p_nonneg {G} (A : FloatArith)
    (mult : list Q -> G -> option nat * G) probs p g t g' :
  sample_top_p A mult probs p g = (Ok t, g') -> (0 <= t)%Z.
Proof.
  unfold sample_top_p. destruct (mult _ g) as [[k|] g1]; [|done].
  destruct ((sort_desc probs).*2 !! k) as [i|]; simpl; [|done].
  intros [= <- _]. lia.
Qed.

(** The candidates of a step are vocabulary indices, and choosing them
    calls no model and leaves the model state alone. *)
Lemma next_token_candidates_Ok temperature top_p last_logits w candidates w' :
  next_token_candidates T self temperature top_p last_logits w = (Ok candidates, w') ->
  Forall (fun t => (0 <= t)%Z) candidates /\
  calls w' = calls w /\ model_state w' = model_state w.
Proof.
  unfold next_token_candidates. destruct (Qgtb temperature 0).
  - intros H.
    apply (mapM_M_Ok _ (fun t => (0 <= t)%Z)
             (fun w1 w2 => calls w2 = calls w1 /\ model_state w2 = model_state w1))
      in H; [done | done | intros ? ? ? [-> ->] [-> ->]; done |].
    intros lg w0 y w1. unfold draw_top_p.
    destruct (sample_top_p _ _ _ _ _) as [r g] eqn:E. intros [= -> <-].
    split; [by eapply sample_top_p_nonneg | done].
  - intros H. apply lift_Ok in H as [H ->]. split; [|done].
    apply mapM_result_Ok in H.
    apply Forall_forall. intros t Ht.
    apply list_elem_of_lookup in Ht as [k Hk].
    destruct (Forall2_lookup_r _ _ _ _ _ H Hk) as (lg & _ & Hlg).
    destruct (argmax lg); [|done]. injection Hlg as <-. lia.
Qed.

Lemma model_forward_calls toks pos w logits w1 :
  model_forward T self toks pos w = (Ok logits, w1) ->
  calls w1 = calls w ++ [(toks, pos)].
Proof.
  unfold model_forward. destruct (forward _ _ _ _) as [ms lg]. now intros [= _ <-].
Qed.

(** One step: the call it makes, and the token it writes where the mask is
    clear. *)
Lemma decode_step_cells temperature top_p logprobs mask c s w s' w' :
  decode_step T self temperature top_p logprobs mask c s w = (Ok s', w') ->
  length mask = length (tokens s) ->
  calls w' = calls w ++ [(slice (prev_pos s) c <$> tokens s, prev_pos s)] /\
  prev_pos s' = c /\
  forall k row (mrow : list bool),
    tokens s !! k = Some row -> mask !! k = Some mrow ->
    mrow !!! c = false -> c < length row ->
    exists row', tokens s' !! k = Some row' /\ (0 <= row' !!! c)%Z.
Proof.
  intros H Hmask.
  apply decode_step_Ok in H
    as (logits & last_logits & candidates & w1 & Hf & _ & Hc & Hlen & Htok & Hp & _).
  apply next_token_candidates_Ok in Hc as (Hnn & Hcalls & _).
  split; [rewrite Hcalls; by eapply model_forward_calls|]. split; [exact Hp|].
  intros k row mrow Hrow Hm Hclear Hlt.
  destruct (step_row self mask c _ _ k row mrow Hlen Hrow Hm)
    as (cand & Hcand & _ & Hset & _).
  rewrite Hclear in Hset. simpl in Hset. rewrite <- Htok in Hset.
  eexists. split; [exact Hset|].
  rewrite list_lookup_total_insert_eq by done.
  rewrite Forall_forall in Hnn. apply Hnn. eapply list_elem_of_lookup_2, Hcand.
Qed.

Lemma elem_of_take_columns st n c :
  c ∈ take n (columns st) <->
  min_prompt_len st <= c /\ c < min_prompt_len st + n /\ c < total_len st.
Proof.
  unfold columns. rewrite take_seq, elem_of_seq. lia.
Qed.

(** The grid at the end of the loop, with the number of steps that were
    run: all of them, or fewer with every flag set. *)
Lemma generate_grid_steps prompts max_gen_len temperature top_p logprobs w s w' :
  generate_grid T self prompts max_gen_len temperature top_p logprobs w
    = (Ok s, w') ->
  exists st w1 n,
    generate_setup T self prompts max_gen_len w = (Ok st, w1) /\
    run_steps T self temperature top_p logprobs (input_text_mask st)
      (take n (columns st)) (start st) w1 = (Ok s, w') /\
    n <= length (columns st) /\
    (n < length (columns st) -> forallb id (eos_reached s) = true).
Proof.
  intros H. apply bind_Ok in H as (st & w1 & Hsetup & Hloop).
  destruct (decode_loop_prefix T self temperature top_p logprobs (input_text_mask st)
              (columns st) (start st) w1) as (n & Hn & Heq & _ & Hstop).
  exists st, w1, n. rewrite Heq in Hloop. do 3 (split; [done|]).
  intros Hlt. destruct (Hstop Hlt) as (_ & s'' & w'' & Hrun & Hall).
  rewrite Hloop in Hrun. now injection Hrun as -> _.
Qed.

(** One step: the candidates it draws, and the candidate it writes where
    the mask is clear. *)
Lemma decode_step_candidate temperature top_p logprobs mask c s w s' w' :
  decode_step T self temperature top_p logprobs mask c s w = (Ok s', w') ->
  length mask = length (tokens s) ->
  exists logits last_logits candidates w1,
    model_forward T self (slice (prev_pos s) c <$> tokens s) (prev_pos s) w
      = (Ok logits, w1) /\
    mapM (fun row => of_option IndexError (last row)) logits = Ok last_logits /\
    next_token_candidates T self temperature top_p last_logits w1
      = (Ok candidates, w') /\
    forall k row (mrow : list bool),
      tokens s !! k = Some row -> mask !! k = Some mrow ->
      mrow !!! c = false ->
      exists cand,
        candidates !! k = Some cand /\ (0 <= cand)%Z /\
        tokens s' !! k = Some (<[c := cand]> row).
Proof.
  intros H Hmask.
  apply decode_step_Ok in H
    as (logits & last_logits & candidates & w1 & Hf & Hlast & Hc & Hlen & Htok & _).
  exists logits, last_logits, candidates, w1. do 3 (split; [done|]).
  intros k row mrow Hrow Hm Hclear.
  destruct (step_row self mask c _ _ k row mrow Hlen Hrow Hm)
    as (cand & Hcand & _ & Hset & _).
  rewrite Hclear in Hset. simpl in Hset. rewrite <- Htok in Hset.
  exists cand. split; [exact Hcand|]. split; [|exact Hset].
  apply next_token_candidates_Ok in Hc as (Hnn & _).
  rewrite Forall_forall in Hnn. apply Hnn. eapply list_elem_of_lookup_2, Hcand.
Qed.

(** The run of the steps at [cols] goes through the step at each of its
    columns. *)
Lemma run_steps_at temperature top_p logprobs mask cols m c s w s' w' :
  cols !! m = Some c ->
  run_steps T self temperature top_p logprobs mask cols s w = (Ok s', w') ->
  exists s0 w0 s1 w1,
    run_steps T self temperature top_p logprobs mask (take m cols) s w = (Ok s0, w0) /\
    decode_step T self temperature top_p logprobs mask c s0 w0 = (Ok s1, w1) /\
    run_steps T self temperature top_p logprobs mask (drop (S m) cols) s1 w1
      = (Ok s', w').
Proof.
  intros Hc Hrun. rewrite <- (take_drop_middle cols m c Hc), run_steps_app in Hrun.
  destruct (run_steps T self temperature top_p logprobs mask (take m cols) s w)
    as [[s0|e] w0] eqn:E0; [|done].
  simpl in Hrun. apply bind_Ok in Hrun as (s1 & w1 & Hstep & Hrest).
  exists s0, w0, s1, w1. done.
Qed.

(** X3.  Without echo every token that [generate] returns, for a prompt that
    does not hold [pad_id], stands in a column that the loop visited and is
    the candidate that the step at that column chose for its row, from the
    logits of that step: a vocabulary index, never the padding of a column
    the loop did not reach. *)
Theorem generate_returns_step_candidates prompts max_gen_len temperature
    top_p logprobs w out out_logprobs w' :
  generate T self prompts max_gen_len temperature top_p logprobs false w
    = (Ok (out, out_logprobs), w') ->
  exists st w1 n s,
    generate_setup T self prompts max_gen_len w = (Ok st, w1) /\
    n <= length (columns st) /\
    run_steps T self temperature top_p logprobs (input_text_mask st)
      (take n (columns st)) (start st) w1 = (Ok s, w') /\
    forall i prompt toks,
      prompts !! i = Some prompt -> pad_id (tokenizer self) ∉ prompt ->
      out !! i = Some toks ->
      forall idx t, toks !! idx = Some t ->
        let c := length prompt + idx in
        c ∈ take n (columns st) /\
        (exists row, tokens s !! i = Some row /\ row !! c = Some t) /\
        exists s0 w0 logits last_logits wl candidates s1 w2,
          run_steps T self temperature top_p logprobs (input_text_mask st)
            (take (c - min_prompt_len st) (columns st)) (start st) w1
            = (Ok s0, w0) /\
          decode_step T self temperature top_p logprobs (input_text_mask st) c s0 w0
            = (Ok s1, w2) /\
          model_forward T self (slice (prev_pos s0) c <$> tokens s0) (prev_pos s0) w0
            = (Ok logits, wl) /\
          mapM (fun row => of_option IndexError (last row)) logits = Ok last_logits /\
          next_token_candidates T self temperature top_p last_logits wl
            = (Ok candidates, w2) /\
          candidates !! i = Some t /\ (0 <= t)%Z.
Proof.
  intros H.
  unfold generate in H. apply bind_Ok in H as (s & w1 & Hgrid & H).
  apply ret_Ok in H as [H ->].
  apply generate_grid_steps in Hgrid as (st & w0 & n & Hsetup & Hrun & Hn & Hstop).
  exists st, w0, n, s. do 3 (split; [done|]).
  intros i prompt toks Hi Hpad Ho idx t Hidx c.
  pose proof (generate_setup_Ok _ _ _ _ _ _ _ Hsetup)
    as (mx & _ & Hmin & _ & _ & _ & Hmask & _).
  destruct (generate_setup_shape _ _ _ _ _ _ _ Hsetup)
    as (Htok & _ & Heos & Hml & Hel & Hlen & Hfit).
  destruct (run_steps_from_setup _ _ _ _ _ _ _ _ _ _ _ _ _ Hsetup Hrun)
    as (Hlen' & _ & Hrows).
  destruct (Hrows i prompt Hi) as (row & Hrow & Hrl & _ & _).
  destruct (input_text_mask_lookup self prompts (total_len st) i prompt Hi)
    as (mrow & Hmrow & Hmrl & Hin & Hout).
  rewrite <- Hmask in Hmrow.
  assert (length prompt <= total_len st) as Hple.
  { rewrite Forall_forall in Hfit. apply Hfit. eapply list_elem_of_lookup_2, Hi. }
  assert (min_prompt_len st <= length prompt) as Hmle.
  { apply list_min_Ok in Hmin. rewrite Forall_fmap, Forall_forall in Hmin.
    apply (Hmin prompt). eapply list_elem_of_lookup_2, Hi. }
  assert (forall c, c < total_len st -> mrow !!! c = false -> length prompt <= c)
    as Hclear.
  { intros c' Hc Hf. destruct (decide (c' < length prompt)) as [Hlt|]; [|lia].
    destruct (lookup_Some_lt prompt c' Hlt) as [x Hx].
    rewrite (list_lookup_total_correct _ _ _ (Hin c' x Hx)) in Hf.
    apply negb_false_iff, Z.eqb_eq in Hf. subst x.
    exfalso. apply Hpad. eapply list_elem_of_lookup_2, Hx. }
  destruct (assemble_lookup self prompts max_gen_len logprobs false s i row Hrow)
    as (Ho' & _ & _).
  rewrite (list_lookup_total_correct _ _ _ Hi) in Ho'.
  assert (out = (assemble self prompts max_gen_len logprobs false s).1) as ->
    by (now rewrite <- H).
  rewrite Ho' in Ho. injection Ho as <-.
  destruct (assemble_row_no_echo self max_gen_len prompt row (token_logprobs s !!! i))
    as ((rest & Hstart) & _ & Hno & _).
  set (toks := (assemble_row self max_gen_len false prompt row
                             (token_logprobs s !!! i)).1) in *.
  assert (forall idx t, toks !! idx = Some t -> row !! (length prompt + idx) = Some t)
    as Habs.
  { intros idx' t' Ht. rewrite <- lookup_drop, Hstart, lookup_app_l; [done|].
    eapply lookup_lt_Some, Ht. }
  pose proof (Habs idx t Hidx) as Hj. fold c in Hj.
  assert (c < total_len st) as Hjt
    by (rewrite <- Hrl; eapply lookup_lt_Some, Hj).
  assert (mrow !!! c = false) as Hjm.
  { apply list_lookup_total_correct, Hout; unfold c; lia. }
  assert (c ∈ take n (columns st)) as Hvisited.
  { apply elem_of_take_columns. split; [unfold c; lia|]. split; [|done].
    destruct (decide (n < length (columns st))) as [Hlt|Hge].
    2:{ unfold columns in Hge. rewrite length_seq in Hge. lia. }
    destruct (decide (c < min_prompt_len st + n)) as [|Hfar];
      [done|exfalso].
    specialize (Hstop Hlt).
    destruct (run_steps_eos _ _ _ _ _ _ _ _ _ _ _ Hrun Hml Hel) as [Hel' Hflag].
    { eapply sub_columns_NoDup, sublist_take. }
    assert (eos_reached s !! i = Some true) as Htrue.
    { destruct (lookup_Some_lt (eos_reached s) i) as [b Hb].
      { rewrite Hel', Hlen'. eapply lookup_lt_Some, Hi. }
      rewrite forallb_forall in Hstop.
      rewrite Hb. f_equal. apply (Hstop b).
      apply list_elem_of_In. eapply list_elem_of_lookup_2, Hb. }
    rewrite (Hflag i false mrow row) in Htrue; [ | | done | done | ].
    - injection Htrue as Htrue. simpl in Htrue.
      apply existsb_exists in Htrue as (c' & Hc & Hhit).
      apply list_elem_of_In, elem_of_take_columns in Hc as (Hc1 & Hc2 & Hc3).
      unfold eos_hit in Hhit. apply andb_true_iff in Hhit as [Hcm Hce].
      apply negb_true_iff in Hcm. apply Z.eqb_eq in Hce.
      pose proof (Hclear c' Hc3 Hcm) as Hcl.
      apply Hno. apply list_elem_of_lookup. exists (c' - length prompt).
      destruct (lookup_Some_lt toks (c' - length prompt)) as [t' Ht'].
      { apply lookup_lt_Some in Hidx. unfold c in Hfar. lia. }
      rewrite Ht'. f_equal.
      apply Habs in Ht'.
      replace (length prompt + (c' - length prompt)) with c' in Ht' by lia.
      rewrite <- Hce. symmetry. now apply list_lookup_total_correct.
    - rewrite Heos. apply lookup_replicate_2. eapply lookup_lt_Some, Hi.
    - intros c' Hc. rewrite Hrl. eapply sub_columns_lt; [apply sublist_take | exact Hc]. }
  split; [exact Hvisited|]. split; [eauto|].
  (* the step at column [c] *)
  apply elem_of_take_columns in Hvisited as (Hc1 & Hc2 & Hc3).
  set (m := c - min_prompt_len st).
  assert (take n (columns st) !! m = Some c) as Hm.
  { unfold columns, m. rewrite take_seq, lookup_seq. split; [lia | lia]. }
  destruct (run_steps_at _ _ _ _ _ _ _ _ _ _ _ Hm Hrun)
    as (s0 & w00 & s1 & w2 & Hrun0 & Hstep & Hrun1).
  assert (take m (take n (columns st)) = take m (columns st)) as Etake.
  { rewrite take_take. f_equal. unfold m. lia. }
  rewrite Etake in Hrun0.
  destruct (run_steps_from_setup _ _ _ _ _ _ _ _ _ _ _ _ _ Hsetup Hrun0)
    as (Hlen0 & _ & Hrows0).
  destruct (Hrows0 i prompt Hi) as (row0 & Hrow0 & Hrl0 & _ & _).
  assert (length (input_text_mask st) = length (tokens s0)) as Hml0 by congruence.
  destruct (decode_step_candidate _ _ _ _ _ _ _ _ _ Hstep Hml0)
    as (logits & last_logits & candidates & wl & Hfw & Hlast & Hcand & Hcell).
  destruct (Hcell i row0 mrow Hrow0 Hmrow Hjm) as (cand & Hci & Hnn & Hrow1).
  destruct (decode_step_tokens _ _ _ _ _ _ _ _ _ _ _ Hstep Hml0) as [Hlen1 _].
  assert (length (input_text_mask st) = length (tokens s1)) as Hml1 by congruence.
  destruct (run_steps_tokens _ _ _ _ _ _ _ _ _ _ _ Hrun1 Hml1) as [_ Hrows1].
  destruct (Hrows1 i _ mrow Hrow1 Hmrow) as (row' & Hrow' & _ & Hkeep & _).
  assert (row' = row) as -> by congruence.
  assert (c ∉ drop (S m) (take n (columns st))) as Hnot.
  { intros Hin'. apply list_elem_of_lookup in Hin' as [j Hj'].
    rewrite lookup_drop in Hj'.
    unfold columns in Hj'. rewrite take_seq in Hj'.
    apply lookup_seq in Hj' as [Hj1 Hj2]. unfold m in Hj1. lia. }
  assert (cand = t) as ->.
  { pose proof (Hkeep c Hnot) as E. rewrite Hj in E.
    rewrite list_lookup_insert_eq in E by lia. congruence. }
  exists s0, w00, logits, last_logits, wl, candidates, s1, w2. done.
Qed.

Lemma assemble_row_length max_gen_len (echo : bool) (prompt row : list Z) lps :
  length prompt <= length row ->
  (if echo then 0 else length prompt)
    + length (assemble_row self max_gen_len echo prompt row lps).1
  <= Nat.min (length row) (length prompt + max_gen_len).
Proof.
  intros Hlen. unfold assemble_row, slice.
  destruct (index_of _ _); simpl;
    rewrite ?length_take, length_drop, length_take; destruct echo; lia.
Qed.

Lemma generate_row_fits prompts max_gen_len temperature top_p
    logprobs (echo : bool) w out out_logprobs w' :
  generate T self prompts max_gen_len temperature top_p logprobs echo w
    = (Ok (out, out_logprobs), w') ->
  forall i prompt toks,
    prompts !! i = Some prompt -> out !! i = Some toks ->
    (if echo then 0 else length prompt) + length toks
      <= Nat.min (max_seq_len (params (model self))) (length prompt + max_gen_len).
Proof.
  intros H i prompt toks Hi Ho.
  unfold generate in H. apply bind_Ok in H as (s & w1 & Hgrid & H).
  apply ret_Ok in H as [H ->].
  apply generate_grid_steps in Hgrid as (st & w0 & n & Hsetup & Hrun & _).
  pose proof (generate_setup_Ok _ _ _ _ _ _ _ Hsetup)
    as (mx & _ & _ & _ & _ & Htotal & _).
  destruct (run_steps_from_setup _ _ _ _ _ _ _ _ _ _ _ _ _ Hsetup Hrun)
    as (_ & _ & Hrows).
  destruct (Hrows i prompt Hi) as (row & Hrow & Hrl & _).
  destruct (assemble_lookup self prompts max_gen_len logprobs echo s i row Hrow)
    as (Ho' & _ & _).
  rewrite (list_lookup_total_correct _ _ _ Hi) in Ho'.
  assert (out = (assemble self prompts max_gen_len logprobs echo s).1) as ->
    by (now rewrite <- H).
  rewrite Ho' in Ho. injection Ho as <-.
  destruct (generate_setup_shape _ _ _ _ _ _ _ Hsetup) as (_ & _ & _ & _ & _ & _ & Hfit).
  assert (length prompt <= length row) as Hple.
  { rewrite Hrl. rewrite Forall_forall in Hfit.
    apply Hfit. eapply list_elem_of_lookup_2, Hi. }
  pose proof (assemble_row_length max_gen_len echo prompt row
                (token_logprobs s !!! i) Hple) as Hle.
  rewrite Hrl, Htotal in Hle. unfold total_len_of in Hle. lia.
Qed.

(** X4.  A returned row never passes the sequence ceiling: the prompt and what
    was generated after it fit in [max_seq_len] tokens, and at most
    [max_gen_len] tokens follow the prompt. *)
Theorem generate_respects_max_seq_len prompts max_gen_len temperature top_p
    logprobs (echo : bool) w out out_logprobs w' :
  generate T self prompts max_gen_len temperature top_p logprobs echo w
    = (Ok (out, out_logprobs), w') ->
  forall i prompt toks,
    prompts !! i = Some prompt -> out !! i = Some toks ->
    (if echo then 0 else length prompt) + length toks
      <= max_seq_len (params (model self)) /\
    (if echo then 0 else length prompt) + length toks
      <= length prompt + max_gen_len.
Proof.
  intros H i prompt toks Hi Ho.
  pose proof (generate_row_fits _ _ _ _ _ _ _ _ _ _ H i prompt toks Hi Ho). lia.
Qed.

Lemma index_of_app_r x l1 l2 :
  x ∉ l1 -> index_of x (l1 ++ l2) = (fun n => length l1 + n) <$> index_of x l2.
Proof.
  intros Hx. unfold index_of. rewrite list_find_app_r.
  - destruct (list_find _ l2) as [[n y]|]; simpl; [f_equal; lia | done].
  - apply list_find_None, Forall_forall. intros y Hy ->. done.
Qed.

Lemma assemble_row_echo max_gen_len prompt row lps :
  take (length prompt) row = prompt ->
  length prompt <= length row ->
  eos_id (tokenizer self) ∉ prompt ->
  (assemble_row self max_gen_len true prompt row lps).1
  = prompt ++ (assemble_row self max_gen_len false prompt row lps).1.
Proof.
  intros Hpre Hlen Heos. unfold assemble_row.
  assert (slice 0 (length prompt + max_gen_len) row
          = prompt ++ slice (length prompt) (length prompt + max_gen_len) row) as ->.
  { unfold slice at 1. rewrite drop_0, <- take_take_drop, Hpre.
    f_equal. unfold slice. now rewrite take_drop_commute. }
  rewrite index_of_app_r by done.
  destruct (index_of _ (slice (length prompt) _ row)) as [idx|]; simpl; [|done].
  rewrite take_app_add'; done.
Qed.

(** X5.  With [echo] the returned row is the prompt followed by what is returned
    without [echo], for a prompt that holds neither [pad_id] nor [eos_id];
    the two calls run the same decoding. *)
Theorem generate_echo_prepends_prompt prompts max_gen_len temperature top_p
    logprobs w out_echo lps_echo w' :
  generate T self prompts max_gen_len temperature top_p logprobs true w
    = (Ok (out_echo, lps_echo), w') ->
  exists out lps,
    generate T self prompts max_gen_len temperature top_p logprobs false w
      = (Ok (out, lps), w') /\
    forall i prompt toks,
      prompts !! i = Some prompt ->
      pad_id (tokenizer self) ∉ prompt -> eos_id (tokenizer self) ∉ prompt ->
      out !! i = Some toks ->
      out_echo !! i = Some (prompt ++ toks).
Proof.
  intros H. unfold generate in H. apply bind_Ok in H as (s & w1 & Hgrid & H).
  apply ret_Ok in H as [H ->].
  exists (assemble self prompts max_gen_len logprobs false s).1,
         (assemble self prompts max_gen_len logprobs false s).2.
  split.
  { unfold generate, mbind, M_bind. rewrite Hgrid. reflexivity. }
  intros i prompt toks Hi Hpad Heos Ho.
  apply generate_grid_steps in Hgrid as (st & w0 & n & Hsetup & Hrun & _).
  destruct (generate_setup_shape _ _ _ _ _ _ _ Hsetup) as (_ & _ & _ & _ & _ & _ & Hfit).
  destruct (run_steps_from_setup _ _ _ _ _ _ _ _ _ _ _ _ _ Hsetup Hrun)
    as (_ & _ & Hrows).
  destruct (Hrows i prompt Hi) as (row & Hrow & Hrl & _ & Hkeep).
  assert (length prompt <= total_len st) as Hple.
  { rewrite Forall_forall in Hfit. apply Hfit. eapply list_elem_of_lookup_2, Hi. }
  assert (take (length prompt) row = prompt) as Hpre.
  { apply list_eq. intros j. destruct (decide (j < length prompt)) as [Hj|Hj].
    - rewrite lookup_take_lt by done.
      destruct (lookup_Some_lt prompt j Hj) as [x Hx]. rewrite Hx.
      apply Hkeep; [done|]. intros ->. apply Hpad. eapply list_elem_of_lookup_2, Hx.
    - rewrite !lookup_ge_None_2; [done | lia | rewrite length_take; lia]. }
  destruct (assemble_lookup self prompts max_gen_len logprobs true s i row Hrow)
    as (Hoe & _ & _).
  destruct (assemble_lookup self prompts max_gen_len logprobs false s i row Hrow)
    as (Ho' & _ & _).
  rewrite (list_lookup_total_correct _ _ _ Hi) in Hoe, Ho'.
  assert (out_echo = (assemble self prompts max_gen_len logprobs true s).1) as ->
    by (now rewrite <- H).
  rewrite Ho' in Ho. injection Ho as <-.
  rewrite Hoe. f_equal. apply assemble_row_echo; [done | lia | done].
Qed.

(** The calls made by the steps at [c], [c + 1], ...: each starts at the
    column where the previous one stopped and passes, for every row, the
    columns up to the one being written. *)
Lemma run_steps_calls temperature top_p logprobs mask total k : forall c s w s' w',
  run_steps T self temperature top_p logprobs mask (seq c k) s w = (Ok s', w') ->
  length mask = length (tokens s) ->
  Forall (fun row => length row = total) (tokens s) ->
  c + k <= total ->
  exists new,
    calls w' = calls w ++ new /\
    new.*2 = take k (prev_pos s :: seq c k) /\
    forall i toks pos, new !! i = Some (toks, pos) ->
      length toks = length (tokens s) /\
      Forall (fun r => length r = match i with 0 => c - prev_pos s | S _ => 1 end) toks.
Proof.
  induction k as [|k IH]; intros c s w s' w' H Hmask Hrows Hfit.
  - apply ret_Ok in H as [-> ->]. exists []. rewrite app_nil_r. done.
  - simpl in H. apply bind_Ok in H as (s1 & w1 & Hstep & H).
    destruct (decode_step_tokens _ _ _ _ _ _ _ _ _ _ _ Hstep Hmask) as [Hlen1 Hrows1].
    destruct (decode_step_cells _ _ _ _ _ _ _ _ _ Hstep Hmask) as (Hcalls & Hp & _).
    assert (Forall (fun row => length row = total) (tokens s1)) as Hshape1.
    { apply Forall_forall. intros row1 Hin. apply list_elem_of_lookup in Hin as [j Hj].
      destruct (lookup_Some_lt (tokens s) j) as [row Hrow].
      { rewrite <- Hlen1. eapply lookup_lt_Some, Hj. }
      destruct (lookup_Some_lt mask j) as [mrow Hmrow].
      { rewrite Hmask. eapply lookup_lt_Some, Hrow. }
      destruct (Hrows1 j row mrow Hrow Hmrow) as (row1' & Hrow1' & Hl & _).
      assert (row1' = row1) as -> by congruence.
      rewrite Hl. rewrite Forall_forall in Hrows.
      apply Hrows. eapply list_elem_of_lookup_2, Hrow. }
    destruct (IH (S c) s1 w1 s' w' H) as (new & Hnew & Hpos & Hwidth);
      [congruence | done | lia |].
    exists ((slice (prev_pos s) c <$> tokens s, prev_pos s) :: new).
    split; [rewrite Hnew, Hcalls, <- app_assoc; done|]. split.
    + rewrite fmap_cons, Hpos, Hp. reflexivity.
    + intros i toks pos Hi. destruct i as [|i].
      * injection Hi as <- <-. rewrite length_fmap. split; [done|].
        apply Forall_fmap. eapply Forall_impl; [exact Hrows|]. simpl.
        intros row Hrow. unfold slice. rewrite length_drop, length_take. lia.
      * destruct (Hwidth i toks pos Hi) as [Hl Hw]. split; [congruence|].
        eapply Forall_impl; [exact Hw|]. simpl. intros r Hr. rewrite Hr, Hp.
        destruct i; lia.
Qed.

(** X6.  The calls that [generate] makes to the model.  When the prompts fill
    the grid there is the one call on the whole grid; otherwise the first
    step passes the columns before [min_prompt_len] from position 0 and
    every later step passes one column, from the position where the
    previous call stopped; there are at most [total_len - min_prompt_len]
    such calls. *)
Theorem generate_grid_calls prompts max_gen_len temperature top_p logprobs w s w' :
  generate_grid T self prompts max_gen_len temperature top_p logprobs w
    = (Ok s, w') ->
  exists st w1 new,
    generate_setup T self prompts max_gen_len w = (Ok st, w1) /\
    calls w1 = calls w ++
               (if min_prompt_len st =? total_len st
                then [(init_tokens self prompts (total_len st), 0)] else []) /\
    calls w' = calls w1 ++ new /\
    length new <= total_len st - min_prompt_len st /\
    new.*2 = take (length new) (0 :: columns st) /\
    forall i toks pos, new !! i = Some (toks, pos) ->
      length toks = length prompts /\
      Forall (fun r => length r = match i with 0 => min_prompt_len st | S _ => 1 end)
             toks.
Proof.
  intros H.
  apply generate_grid_steps in H as (st & w1 & n & Hsetup & Hrun & Hn & _).
  exists st, w1.
  pose proof (generate_setup_Ok _ _ _ _ _ _ _ Hsetup)
    as (mx & _ & _ & _ & _ & _ & _ & Hstart).
  destruct (generate_setup_shape _ _ _ _ _ _ _ Hsetup)
    as (Htok & Hprev & _ & Hml & _ & Hlen & Hfit).
  assert (min_prompt_len st <= total_len st) as Hmt.
  { pose proof (generate_setup_Ok _ _ _ _ _ _ _ Hsetup) as (? & _ & Hmin & _).
    destruct prompts as [|p0 ps]; [done|].
    apply list_min_Ok in Hmin. inversion_clear Hmin. inversion_clear Hfit. lia. }
  unfold columns in Hrun, Hn. rewrite take_seq in Hrun. rewrite length_seq in Hn.
  destruct (run_steps_calls _ _ _ _ (total_len st) _ _ _ _ _ _ Hrun Hml)
    as (new & Hnew & Hpos & Hwidth).
  { rewrite Htok. by apply init_tokens_rows. }
  { lia. }
  assert (length new = n `min` (total_len st - min_prompt_len st)) as Hnl.
  { apply (f_equal length) in Hpos.
    rewrite length_fmap, length_take in Hpos. simpl in Hpos.
    rewrite length_seq in Hpos. lia. }
  exists new. split; [done|]. split.
  { destruct (min_prompt_len st =? total_len st).
    - apply score_full_prompts_Ok in Hstart as (logits & Hf & _).
      apply model_forward_calls in Hf. exact Hf.
    - destruct Hstart as [_ ->]. now rewrite app_nil_r. }
  split; [exact Hnew|]. split; [lia|]. split.
  - rewrite Hpos, Hprev, Hnl. unfold columns.
    replace (n `min` (total_len st - min_prompt_len st)) with n by lia.
    destruct n as [|n']; [done|]. cbn [firstn]. f_equal.
    rewrite !take_seq. f_equal. lia.
  - intros i toks pos Hi. destruct (Hwidth i toks pos Hi) as [Hl Hw].
    split; [congruence|]. rewrite Hprev, Nat.sub_0_r in Hw. exact Hw.
Qed.

(** X7.  A batch of prompts whose ids fit the 64 bits of the grid, that holds
    an empty prompt and whose grid has at least one column passes the two
    assertions; the first step then calls the model on rows of no column
    and, for a model that returns one logit vector per row and column,
    fails with [IndexError] on [logits[:, -1]], after that one call. *)
Theorem generate_empty_prompt prompts max_gen_len temperature top_p logprobs echo
    w mx :
  well_shaped_model self ->
  Forall (Forall (fun t => (- 2 ^ 63 <= t < 2 ^ 63)%Z)) prompts ->
  [] ∈ prompts ->
  length prompts <= max_batch_size (params (model self)) ->
  list_max (length <$> prompts) = Ok mx ->
  mx <= max_seq_len (params (model self)) ->
  0 < total_len_of self max_gen_len mx ->
  exists w',
    generate T self prompts max_gen_len temperature top_p logprobs echo w
      = (Raise IndexError, w') /\
    calls w' = calls w ++ [((fun _ => []) <$> prompts, 0)].
Proof.
  intros Hshape _ Hempty Hbsz Hmx Hseq Htot0.
  destruct (generate_setup T self prompts max_gen_len w) as [[st|e] w1] eqn:Hsetup.
  2:{ exfalso. revert Hsetup.
      unfold generate_setup, mbind at 1, M_bind at 1, lift at 1, assert_.
      apply Nat.leb_le in Hbsz. rewrite Hbsz.
      destruct (list_min (length <$> prompts)) as [m|e'] eqn:Emin;
        [|destruct prompts; [by apply elem_of_nil in Hempty | done]].
      rewrite Hmx.
      unfold mbind at 1, M_bind at 1, lift at 1.
      unfold mbind at 1, M_bind at 1, lift at 1.
      apply Nat.leb_le in Hseq.
      unfold mbind at 1, M_bind at 1, lift at 1. rewrite Hseq.
      assert (m = 0) as ->.
      { apply list_min_Ok in Emin. rewrite Forall_fmap, Forall_forall in Emin.
        specialize (Emin [] Hempty). simpl in Emin. lia. }
      destruct (0 =? total_len_of self max_gen_len mx) eqn:E;
        [apply Nat.eqb_eq in E; lia|].
      unfold mbind, M_bind, mret, M_ret. done. }
  pose proof (generate_setup_Ok _ _ _ _ _ _ _ Hsetup)
    as (mx' & _ & Hmin & Hmaxl & _ & Htotal & _ & Hstart).
  assert (mx' = mx) as -> by congruence.
  destruct (generate_setup_shape _ _ _ _ _ _ _ Hsetup)
    as (Htok & Hprev & _ & Hml & _ & Hlen & Hfit).
  assert (min_prompt_len st = 0) as Hm0.
  { apply list_min_Ok in Hmin. rewrite Forall_fmap, Forall_forall in Hmin.
    specialize (Hmin [] Hempty). simpl in Hmin. lia. }
  assert (0 < total_len st) as Htot by (rewrite Htotal; exact Htot0).
  rewrite Hm0 in Hstart.
  destruct (0 =? total_len st) eqn:E; [apply Nat.eqb_eq in E; lia|].
  destruct Hstart as [Hst ->].
  assert (exists cols, columns st = 0 :: cols) as [cols Hcols].
  { unfold columns. rewrite Hm0, Nat.sub_0_r.
    destruct (total_len st); [lia|]. simpl. eauto. }
  unfold generate, generate_grid, mbind at 1, M_bind at 1, mbind at 1, M_bind at 1.
  rewrite Hsetup, Hcols. simpl.
  unfold mbind at 1, M_bind at 1, decode_step, mbind at 1, M_bind at 1,
    model_forward.
  rewrite Hprev.
  destruct (Hshape (model_state w) (slice 0 0 <$> tokens (start st)) 0)
    as [Hlens _].
  destruct (forward (model self) (model_state w) (slice 0 0 <$> tokens (start st)) 0)
    as [ms logits]. simpl in Hlens.
  assert (slice 0 0 <$> tokens (start st) = (fun _ => []) <$> prompts) as Hsl.
  { rewrite Htok. unfold init_tokens. rewrite <- list_fmap_compose.
    apply list_fmap_ext. intros ? ? _. reflexivity. }
  rewrite Hsl in *.
  destruct logits as [|lrow logits].
  { destruct prompts; [by apply elem_of_nil in Hempty | done]. }
  destruct prompts as [|p0 ps]; [done|].
  injection Hlens as Hl0 _. destruct lrow; [|done].
  unfold mbind at 1, M_bind at 1, lift at 1. rewrite mapM_result_cons. simpl.
  eexists. split; [reflexivity|]. done.
Qed.

Lemma neg_cross_entropy_rows logits target ce :
  neg_cross_entropy T self logits target = Ok ce ->
  Forall2 (fun (lps : list Q) (row : list Z) => length lps = length row) ce target.
Proof.
  unfold neg_cross_entropy. case_bool_decide as Hl; [|done]. intros [= <-].
  revert target Hl. induction logits as [|lrow logits IH]; intros [|row target] Hl.
  - constructor.
  - done.
  - done.
  - rewrite !fmap_cons in Hl. injection Hl as Hrow Hrest.
    simpl. constructor; [|by apply IH].
    unfold neg_cross_entropy_row. rewrite length_zip_with. lia.
Qed.

Lemma slice_length_eq {A} (a b n : nat) (l : list A) :
  length l = n -> b <= n -> length (slice a b l) = b - a.
Proof. intros Hl Hb. unfold slice. rewrite length_drop, length_take. lia. Qed.

Lemma set_columns_rows a b (grid vals : list (list Q)) n :
  a <= b -> b <= n ->
  Forall (fun r => length r = n) grid ->
  Forall (fun v => length v = b - a) vals ->
  Forall (fun r => length r = n) (set_columns a b grid vals).
Proof.
  intros Hab Hbn Hg Hv. unfold set_columns. apply Forall_forall. intros r Hr.
  apply list_elem_of_lookup in Hr as [k Hk].
  apply lookup_zip_with_Some in Hk as (row & v & -> & Hrow & Hval).
  rewrite Forall_forall in Hg, Hv.
  specialize (Hg row (list_elem_of_lookup_2 _ _ _ Hrow)).
  specialize (Hv v (list_elem_of_lookup_2 _ _ _ Hval)).
  rewrite !length_app, length_take, length_drop. lia.
Qed.

Lemma Forall2_Forall_r {A B} (P : A -> B -> Prop) (Q1 : A -> Prop) (R : B -> Prop)
    l k :
  Forall2 P l k -> Forall R k -> (forall x y, P x y -> R y -> Q1 x) -> Forall Q1 l.
Proof.
  intros H. induction H as [|x y l k Hxy _ IH]; intros Hk Himp; [constructor|].
  inversion_clear Hk. constructor; eauto.
Qed.

(** The shape of the grids is kept by a step: every row of tokens and of
    logprobs keeps the width of the grid. *)
Lemma decode_step_shape temperature top_p logprobs mask c s w s' w' n :
  decode_step T self temperature top_p logprobs mask c s w = (Ok s', w') ->
  prev_pos s <= c -> c < n ->
  length mask = length (tokens s) ->
  Forall (fun row => length row = n) (tokens s) ->
  Forall (fun row => length row = n) (token_logprobs s) ->
  length (token_logprobs s) = length (tokens s) ->
  prev_pos s' = c /\
  length (tokens s') = length (tokens s) /\
  Forall (fun row => length row = n) (tokens s') /\
  Forall (fun row => length row = n) (token_logprobs s') /\
  length (token_logprobs s') = length (tokens s').
Proof.
  intros Hstep Hprev Hc Hmask Hrows Hlps Hlen.
  destruct (decode_step_tokens T self _ _ _ _ _ _ _ _ _ Hstep Hmask) as [Hlen' _].
  apply decode_step_Ok in Hstep
    as (logits & last_logits & candidates & w1 & _ & _ & _ & Hcl & Htok & Hpp & _ & Hlp).
  assert (Forall (fun row => length row = n) (tokens s')) as Hrows'.
  { rewrite Htok. by apply set_column_rows. }
  split; [done|]. split; [done|]. split; [done|].
  destruct logprobs.
  - destruct Hlp as (ce & Hce & ->).
    apply neg_cross_entropy_rows in Hce.
    split.
    + apply set_columns_rows; [lia | lia | done |].
      apply (Forall2_Forall_r _ _
               (fun row : list Z => length row = c + 1 - (prev_pos s + 1)) _ _ Hce).
      * apply Forall_fmap. eapply Forall_impl; [exact Hrows'|].
        intros row Hrow. simpl. apply (slice_length_eq _ _ n); [done | lia].
      * simpl. intros v row -> Hrow. exact Hrow.
    + unfold set_columns. rewrite length_zip_with.
      apply Forall2_length in Hce. rewrite length_fmap in Hce. lia.
  - rewrite Hlp. split; [done | lia].
Qed.

Lemma run_steps_shape temperature top_p logprobs mask n k : forall c s w s' w',
  run_steps T self temperature top_p logprobs mask (seq c k) s w = (Ok s', w') ->
  prev_pos s <= c -> c + k <= n ->
  length mask = length (tokens s) ->
  Forall (fun row => length row = n) (tokens s) ->
  Forall (fun row => length row = n) (token_logprobs s) ->
  length (token_logprobs s) = length (tokens s) ->
  length (tokens s') = length (tokens s) /\
  Forall (fun row => length row = n) (tokens s') /\
  Forall (fun row => length row = n) (token_logprobs s') /\
  length (token_logprobs s') = length (tokens s').
Proof.
  induction k as [|k IH]; intros c s w s' w' Hrun Hprev Hcn Hmask Hrows Hlps Hlen.
  - apply ret_Ok in Hrun as [-> _]. done.
  - simpl in Hrun. apply bind_Ok in Hrun as (s1 & w1 & Hstep & Hrun).
    destruct (decode_step_shape _ _ _ _ _ _ _ _ _ n Hstep)
      as (Hpp & Hl1 & Hr1 & Hlp1 & Hll1); try done; try lia.
    destruct (IH _ _ _ _ _ Hrun) as (? & ? & ? & ?); try done; try lia.
    repeat split; try done; lia.
Qed.

Lemma setup_shape prompts max_gen_len w st w1 :
  generate_setup T self prompts max_gen_len w = (Ok st, w1) ->
  min_prompt_len st <= total_len st /\
  Forall (fun row => length row = total_len st) (tokens (start st)) /\
  Forall (fun row => length row = total_len st) (token_logprobs (start st)) /\
  length (token_logprobs (start st)) = length (tokens (start st)).
Proof.
  intros Hsetup.
  destruct (generate_setup_shape T self _ _ _ _ _ Hsetup)
    as (Htok & Hpp & _ & _ & _ & Hlen & Hfit).
  destruct (generate_setup_Ok T self _ _ _ _ _ Hsetup)
    as (mx & _ & Hmin & _ & _ & _ & _ & Hstart).
  assert (Forall (fun row => length row = total_len st) (tokens (start st))) as Hrows.
  { rewrite Htok. by apply init_tokens_rows. }
  split.
  { destruct (length <$> prompts) as [|x l] eqn:E; [done|].
    apply list_min_Ok in Hmin. inversion_clear Hmin as [|? ? Hx _].
    destruct prompts as [|p ps]; [done|]. injection E as <- _.
    inversion_clear Hfit. lia. }
  split; [done|].
  destruct (min_prompt_len st =? total_len st).
  - apply score_full_prompts_Ok in Hstart as (logits & _ & Hce & Ht & _).
    apply neg_cross_entropy_rows in Hce. simpl in Hce.
    fold (init_tokens self prompts (total_len st)) in Hce.
    rewrite <- Htok in Hce. split.
    + eapply Forall2_Forall_r; [exact Hce | exact Hrows |].
      simpl. intros; congruence.
    + by apply Forall2_length in Hce.
  - destruct Hstart as [Hs _]. rewrite Hs in *. simpl. split.
    + apply Forall_fmap, Forall_forall. intros; simpl. apply length_replicate.
    + unfold init_tokens. by rewrite !length_fmap.
Qed.

Lemma generate_grid_shape prompts max_gen_len temperature top_p logprobs w s w' :
  generate_grid T self prompts max_gen_len temperature top_p logprobs w
    = (Ok s, w') ->
  exists n,
    length (tokens s) = length prompts /\
    Forall (fun row => length row = n) (tokens s) /\
    Forall (fun row => length row = n) (token_logprobs s) /\
    length (token_logprobs s) = length (tokens s).
Proof.
  intros Hgrid. apply generate_grid_Ok in Hgrid as [n Hpre].
  apply generate_prefix_Ok in Hpre as (st & w1 & Hsetup & Hrun).
  destruct (setup_shape _ _ _ _ _ Hsetup) as (Hle & Hrows & Hlps & Hlen).
  destruct (generate_setup_shape T self _ _ _ _ _ Hsetup)
    as (_ & Hpp & _ & Hmask & _ & Hlt & _).
  unfold columns in Hrun. rewrite take_seq in Hrun.
  exists (total_len st).
  destruct (run_steps_shape _ _ _ _ (total_len st) _ _ _ _ _ _ Hrun)
    as (? & ? & ? & ?); try done; try lia.
  repeat split; try done. lia.
Qed.

Lemma assemble_row_aligned max_gen_len (echo : bool) prompt (row : list Z)
    (lps : list Q) :
  length lps = length row ->
  length (assemble_row self max_gen_len echo prompt row lps).2
  = length (assemble_row self max_gen_len echo prompt row lps).1.
Proof.
  intros Hl. unfold assemble_row.
  set (a := if echo then 0 else length prompt).
  set (b := length prompt + max_gen_len).
  assert (length (slice a b lps) = length (slice a b row)) as Hs.
  { unfold slice. rewrite !length_drop, !length_take. lia. }
  destruct (index_of _ _); simpl; [|done].
  rewrite !length_take. lia.
Qed.

Lemma generate_logprobs_rows prompts max_gen_len temperature top_p
    (echo : bool) w out out_logprobs w' :
  generate T self prompts max_gen_len temperature top_p true echo w
    = (Ok (out, out_logprobs), w') ->
  exists lps,
    out_logprobs = Some lps /\
    Forall2 (fun (toks : list Z) (lp : list Q) => length lp = length toks) out lps.
Proof.
  intros H. unfold generate in H. apply bind_Ok in H as (s & w1 & Hgrid & H).
  apply ret_Ok in H as [H ->].
  apply generate_grid_shape in Hgrid as (n & Hlt & Hrows & Hlps & Hlen).
  unfold assemble in H. injection H as -> ->.
  eexists. split; [reflexivity|].
  apply Forall2_fmap, Forall2_same_length_lookup. split; [done|].
  intros i x y Hx Hy. rewrite Hx in Hy. injection Hy as <-.
  apply list_lookup_imap_Some in Hx as (row & Hrow & ->).
  assert (i < length (token_logprobs s)) as Hi
    by (apply lookup_lt_Some in Hrow; lia).
  destruct (lookup_Some_lt _ _ Hi) as [lp Hlp].
  rewrite (list_lookup_total_correct _ _ _ Hlp).
  apply assemble_row_aligned.
  rewrite Forall_forall in Hrows. rewrite Forall_forall in Hlps.
  rewrite (Hrows row), (Hlps lp); [done | |]; by eapply list_elem_of_lookup_2.
Qed.

(** X8.  With [logprobs = true] the result of [generate] holds one list of
    logprobs for every prompt, and the list of a row is as long as its list
    of tokens: one logprob for every token returned, with or without
    [echo]. *)
Theorem generate_logprobs_aligned prompts max_gen_len temperature top_p
    (echo : bool) w out out_logprobs w' :
  generate T self prompts max_gen_len temperature top_p true echo w
    = (Ok (out, out_logprobs), w') ->
  exists lps,
    out_logprobs = Some lps /\
    length lps = length prompts /\
    forall i toks, out !! i = Some toks ->
      exists lp, lps !! i = Some lp /\ length lp = length toks.
Proof.
  intros H.
  destruct (generate_logprobs_rows _ _ _ _ _ _ _ _ _ H) as (lps & -> & Hal).
  destruct (generate_lengths T self _ _ _ _ _ _ _ _ _ _ H) as [Hlo _].
  exists lps. split; [done|]. split.
  { apply Forall2_length in Hal. lia. }
  intros i toks Ht. destruct (Forall2_lookup_l _ _ _ _ _ Hal Ht) as (lp & Hlp & Hl).
  eauto.
Qed.

(** X9.  The logprobs written by one step of the loop.  The columns after
    [prev_pos] up to [cur_pos] are the ones written; the entry at column
    [j] scores the token that the row holds at column [j] after the step,
    under the logits that the model returned for the input column before
    it ([j - 1], at index [j - prev_pos - 1] of this call); the entry is 0
    where that token is [pad_id]; the other columns keep their entries. *)
Theorem decode_step_logprobs temperature top_p mask c s w s' w' n :
  decode_step T self temperature top_p true mask c s w = (Ok s', w') ->
  prev_pos s <= c -> c < n ->
  length mask = length (tokens s) ->
  Forall (fun row => length row = n) (tokens s) ->
  Forall (fun row => length row = n) (token_logprobs s) ->
  length (token_logprobs s) = length (tokens s) ->
  exists logits w1,
    model_forward T self (slice (prev_pos s) c <$> tokens s) (prev_pos s) w
      = (Ok logits, w1) /\
    forall k row' lps,
      tokens s' !! k = Some row' -> token_logprobs s !! k = Some lps ->
      exists lps',
        token_logprobs s' !! k = Some lps' /\
        (forall j, j <= prev_pos s \/ c < j -> lps' !! j = lps !! j) /\
        (forall j t lrow lg,
           prev_pos s < j -> j <= c -> row' !! j = Some t ->
           logits !! k = Some lrow -> lrow !! (j - prev_pos s - 1) = Some lg ->
           lps' !! j
           = Some (- (if (t =? pad_id (tokenizer self))%Z then 0 else nll T lg t))%Q).
Proof.
  intros Hstep Hprev Hc Hmask Hrows Hlps Hlen.
  destruct (decode_step_shape _ _ _ _ _ _ _ _ _ n Hstep)
    as (_ & Hl' & Hrows' & _ & _); try done.
  apply decode_step_Ok in Hstep
    as (logits & last_logits & candidates & w1 & Hfw & _ & _ & _ & _ & _ & _ & Hlp).
  destruct Hlp as (ce & Hce & Hlp').
  exists logits, w1. split; [exact Hfw|].
  intros k row' lps Hrow' Hk.
  pose proof (neg_cross_entropy_rows _ _ _ Hce) as Hshape.
  assert (length row' = n) as Hrn.
  { rewrite Forall_forall in Hrows'. apply Hrows'. by eapply list_elem_of_lookup_2. }
  assert (length lps = n) as Hln.
  { rewrite Forall_forall in Hlps. apply Hlps. by eapply list_elem_of_lookup_2. }
  assert ((slice (prev_pos s + 1) (c + 1) <$> tokens s') !! k
          = Some (slice (prev_pos s + 1) (c + 1) row')) as Htk
    by (by rewrite list_lookup_fmap, Hrow').
  destruct (Forall2_lookup_r _ _ _ _ _ Hshape Htk) as (v & Hv & Hvl).
  rewrite (slice_length_eq _ _ n) in Hvl by (done || lia).
  exists (take (prev_pos s + 1) lps ++ v ++ drop (c + 1) lps).
  split.
  { rewrite Hlp'. unfold set_columns. by rewrite lookup_zip_with, Hk; simpl; rewrite Hv. }
  split.
  - intros j [Hj|Hj].
    + rewrite lookup_app_l by (rewrite length_take; lia).
      apply lookup_take_lt. lia.
    + rewrite lookup_app_r by (rewrite length_take; lia).
      rewrite lookup_app_r by (rewrite length_take; lia).
      rewrite lookup_drop, length_take. f_equal. lia.
  - intros j t lrow lg Hj1 Hj2 Ht Hlrow Hlg.
    rewrite lookup_app_r by (rewrite length_take; lia).
    rewrite lookup_app_l by (rewrite length_take; lia).
    rewrite length_take.
    replace (j - (prev_pos s + 1) `min` length lps) with (j - prev_pos s - 1) by lia.
    assert (slice (prev_pos s + 1) (c + 1) row' !! (j - prev_pos s - 1) = Some t) as Hst.
    { unfold slice. rewrite lookup_drop, lookup_take_lt by lia.
      rewrite <- Ht. f_equal. lia. }
    destruct (neg_cross_entropy_lookup T self _ _ _ _ _ _ _ _ _ Hce Hlrow Htk Hlg Hst)
      as (lps0 & Hl0 & Hval).
    rewrite Hv in Hl0. injection Hl0 as <-. exact Hval.
Qed.

End MoreDecoderFacts.

(** * Further properties of text and chat completion *)

Lemma odds_cons2 {A} (x y : A) l : odds (x :: y :: l) = y :: odds l.
Proof. unfold odds. simpl. destruct l; reflexivity. Qed.

Lemma roles_alternate_cons2 x y l :
  roles_alternate (x :: y :: l)
  = bool_decide (role x = user) && bool_decide (role y = assistant)
    && roles_alternate l.
Proof.
  unfold roles_alternate. rewrite odds_cons2. simpl.
  destruct (bool_decide (role x = user)), (bool_decide (role y = assistant)),
    (forallb _ (evens l)); reflexivity.
Qed.

Lemma pairs_length {A} n (x y : A) : length (concat (replicate n [x; y])) = 2 * n.
Proof. induction n as [|n IH]; simpl; [done | rewrite IH; lia]. Qed.

Lemma pairs_not_odd n k :
  concat (replicate k [user; assistant])
  <> concat (replicate n [user; assistant]) ++ [user].
Proof.
  intros H. apply (f_equal length) in H.
  rewrite length_app, !pairs_length in H. simpl in H. lia.
Qed.

(** The role order accepted by the first assertion: user and assistant in
    turn, starting with user. *)
Lemma roles_alternate_spec : forall d : Dialog,
  roles_alternate d = true <->
  exists n (b : bool),
    role <$> d = concat (replicate n [user; assistant]) ++ (if b then [user] else []).
Proof.
  assert (forall d : Dialog,
    (roles_alternate d = true <->
       exists n (b : bool),
         role <$> d = concat (replicate n [user; assistant])
                      ++ (if b then [user] else [])) /\
    (forall x, roles_alternate (x :: d) = true <->
       exists n (b : bool),
         role <$> (x :: d) = concat (replicate n [user; assistant])
                             ++ (if b then [user] else []))) as H.
  { induction d as [|y d [IH1 IH2]].
    - split.
      + split; [intros _; by exists 0, false | done].
      + intros x. unfold roles_alternate. simpl. rewrite andb_true_r, andb_true_r.
        rewrite bool_decide_eq_true. split.
        * intros Hx. exists 0, true. simpl. by rewrite Hx.
        * intros (n & b & Hn). destruct n as [|n]; [|done].
          destruct b; simpl in Hn; [by injection Hn | done].
    - split; [apply IH2|]. intros x. rewrite roles_alternate_cons2.
      rewrite !andb_true_iff, !bool_decide_eq_true, IH1. split.
      + intros [[Hx Hy] (n & b & Hn)]. exists (S n), b.
        rewrite !fmap_cons, Hx, Hy, Hn. reflexivity.
      + intros (n & b & Hn). destruct n as [|n].
        { destruct b; done. }
        rewrite !fmap_cons in Hn. simpl in Hn. injection Hn as Hx Hy Hn.
        split; [done|]. by exists n, b. }
  intros d. apply H.
Qed.

Lemma last_pairs n (b : bool) :
  last (concat (replicate n [user; assistant]) ++ (if b then [user] else []))
  = if b then Some user else match n with 0 => None | S _ => Some assistant end.
Proof.
  destruct b.
  - by rewrite last_snoc.
  - rewrite app_nil_r. induction n as [|n IH]; [done|].
    simpl. destruct n; [done|]. exact IH.
Qed.

Section MoreChatFacts.
Context (T : Numerics) (self : Llama).

Lemma merge_system_roles (d d' : Dialog) :
  merge_system d = Ok d' ->
  d' <> [] /\
  role <$> d' = match role <$> d with system :: r => r | _ => role <$> d end.
Proof.
  destruct d as [|m0 rest]; [done|]. simpl.
  destruct (role m0) eqn:E0.
  - destruct rest as [|m1 rest']; [done|]. intros [= <-]. done.
  - intros [= <-]. simpl. by rewrite E0.
  - intros [= <-]. simpl. by rewrite E0.
Qed.

Lemma merge_system_Raise (d : Dialog) e :
  merge_system d = Raise e <->
  e = IndexError /\ (role <$> d = [] \/ role <$> d = [system]).
Proof.
  destruct d as [|m0 rest]; simpl.
  - split; [intros [= <-]; auto | intros [-> _]; done].
  - destruct (role m0) eqn:E0.
    + destruct rest as [|m1 rest'].
      * split; [intros [= <-]; auto | intros [-> _]; done].
      * split; [done | intros [_ [H|H]]; done].
    + split; [done | intros [_ [H|H]]; done].
    + split; [done | intros [_ [H|H]]; done].
Qed.

(** X10.  What [chat_completion] accepts as a dialog, in terms of the roles
    alone.  With a leading system message set aside, a dialog is encoded
    exactly when its roles are user and assistant in turn, starting and
    ending with user; it fails the last-message assertion exactly when they
    are one or more user-assistant pairs; it raises [IndexError] exactly
    when it is empty or a lone system message; every other dialog fails the
    role-order assertion. *)
Theorem encode_dialog_accepts (d : Dialog) :
  let roles := role <$> d in
  let turns := match roles with system :: r => r | _ => roles end in
  ((exists toks, encode_dialog self d = Ok toks) <->
     exists n, turns = concat (replicate n [user; assistant]) ++ [user]) /\
  (encode_dialog self d = Raise (AssertionError LastMessageAssertion) <->
     exists n, turns = concat (replicate (S n) [user; assistant])) /\
  (encode_dialog self d = Raise IndexError <-> roles = [] \/ roles = [system]) /\
  (roles <> [] -> roles <> [system] ->
   (forall n (b : bool),
      turns <> concat (replicate n [user; assistant]) ++ (if b then [user] else [])) ->
   encode_dialog self d = Raise (AssertionError RoleOrderAssertion)).
Proof.
  intros roles turns. unfold encode_dialog.
  destruct (merge_system d) as [d'|e] eqn:Em.
  - destruct (merge_system_roles _ _ Em) as [Hne Hroles].
    change (role <$> d' = turns) in Hroles.
    assert (~ (roles = [] \/ roles = [system])) as Hnot.
    { intros H. assert (merge_system d = Raise IndexError) as H'
        by (apply merge_system_Raise; done). congruence. }
    clearbody turns roles.
    simpl. pose proof (roles_alternate_spec d') as Halt. rewrite Hroles in Halt.
    destruct (roles_alternate d') eqn:Ea; simpl.
    + destruct Halt as [Halt _]. destruct (Halt eq_refl) as (n & b & Hn).
      assert (last d' = None -> False) as Hlast.
      { intros H. by apply last_None in H. }
      assert (role <$> last d' = last turns) as Hl by (by rewrite <- Hroles, fmap_last).
      rewrite Hn, last_pairs in Hl.
      destruct (last d') as [m|] eqn:El; [|by destruct Hlast]. simpl in Hl. simpl.
      destruct b.
      * injection Hl as Hm. rewrite bool_decide_true by done. simpl.
        split; [split; [intros _; exists n; exact Hn | intros _; eexists; reflexivity]|].
        split; [split; [done|]|].
        { intros (k & Hk). rewrite Hk in Hn. by apply (pairs_not_odd n (S k)) in Hn. }
        split; [split; [done | intros H; by destruct Hnot]|].
        intros _ _ H. by destruct (H n true).
      * destruct n as [|n]; [done|]. injection Hl as Hm.
        rewrite bool_decide_false by (rewrite Hm; done). simpl.
        split; [split; [intros [? ?]; done|]|].
        { intros (k & Hk). rewrite Hk, app_nil_r in Hn.
          symmetry in Hn. by apply (pairs_not_odd k (S n)) in Hn. }
        split; [split; [intros _; exists n; by rewrite Hn, app_nil_r | done]|].
        split; [split; [done | intros H; by destruct Hnot]|].
        intros _ _ H. by destruct (H (S n) false).
    + assert (forall n (b : bool),
                turns <> concat (replicate n [user; assistant])
                         ++ (if b then [user] else [])) as Hno.
      { intros n b Hn. destruct Halt as [_ Halt].
        assert (false = true) by (apply Halt; eauto). done. }
      split; [split; [intros [? ?]; done | intros [n Hn]; by destruct (Hno n true)]|].
      split; [split; [done|]|].
      { intros [n Hn]. destruct (Hno (S n) false). by rewrite app_nil_r. }
      split; [split; [done | intros H; by destruct Hnot]|].
      done.
  - apply merge_system_Raise in Em as [-> Hr]. fold roles in Hr. simpl.
    assert (turns = []) as Ht.
    { unfold turns. destruct Hr as [->| ->]; done. }
    split; [split; [intros [? ?]; done|]|].
    { intros [n Hn]. rewrite Ht in Hn. by destruct (concat _). }
    split; [split; [done | intros [n Hn]; by rewrite Ht in Hn]|].
    split; [done|]. intros H1 H2. destruct Hr; done.
Qed.

(** X11.  One dialog that fails validation makes [chat_completion] fail with
    the error of the first such dialog, wherever it stands in the batch and
    whatever follows it, before the batch limits are checked and before
    the model is called: the state of the model, the random generator and
    the log of calls are the ones before the call. *)
Theorem chat_completion_first_invalid (valid : list Dialog) d rest e
    temperature top_p max_gen_len logprobs w :
  Forall (fun d => exists toks, encode_dialog self d = Ok toks) valid ->
  encode_dialog self d = Raise e ->
  chat_completion T self (valid ++ d :: rest) temperature top_p max_gen_len
                  logprobs w = (Raise e, w).
Proof.
  intros Hv He. apply chat_completion_invalid.
  induction Hv as [|d0 valid [toks Hd0] _ IH].
  - change (mapM (encode_dialog self) (d :: rest) = Raise e).
    rewrite mapM_result_cons. by rewrite He.
  - change (mapM (encode_dialog self) (d0 :: valid ++ d :: rest) = Raise e).
    rewrite mapM_result_cons. by rewrite Hd0, IH.
Qed.

Lemma unsafe_request_false (dialog : Dialog) :
  unsafe_request dialog = false <->
  forall msg tag a b, msg ∈ dialog -> tag ∈ SPECIAL_TAGS ->
    content msg <> a +:+ tag +:+ b.
Proof.
  split.
  - intros Hf msg tag a b Hmsg Htag Hc.
    assert (unsafe_request dialog = true)
      by (apply unsafe_request_true; eauto 10).
    congruence.
  - intros H. apply not_true_is_false. intros Ht.
    unfold unsafe_request in Ht. apply existsb_exists in Ht as (tag & Htag & Ht).
    apply existsb_exists in Ht as (msg & Hmsg & Ht).
    apply str_contains_spec in Ht as (a & b & Hc).
    apply list_elem_of_In in Htag, Hmsg. by apply (H msg tag a b).
Qed.

(** X12.  When [chat_completion] returns, every dialog has passed validation and
    [generate] has run once, without echo, on their encodings; there is one
    record per dialog, in order, each an assistant message; for a dialog
    none of whose message contents holds a control tag the content is the
    decoding of the generated row, which has at most [max_gen_len] tokens
    and, with its prompt, fits the sequence ceiling. *)
Theorem chat_completion_returns dialogs temperature top_p max_gen_len
    (logprobs : bool) w records w' :
  chat_completion T self dialogs temperature top_p max_gen_len logprobs w
    = (Ok records, w') ->
  exists prompts out lps,
    mapM (encode_dialog self) dialogs = Ok prompts /\
    generate T self prompts (default_max_gen_len self max_gen_len) temperature
             top_p logprobs false w = (Ok (out, lps), w') /\
    length records = length dialogs /\
    forall i dialog, dialogs !! i = Some dialog ->
      exists prompt t r,
        prompts !! i = Some prompt /\ encode_dialog self dialog = Ok prompt /\
        out !! i = Some t /\ records !! i = Some r /\
        role (ChatPrediction.generation r) = assistant /\
        length t <= default_max_gen_len self max_gen_len /\
        length prompt + length t <= max_seq_len (params (model self)) /\
        ((forall msg tag a b, msg ∈ dialog -> tag ∈ SPECIAL_TAGS ->
            content msg <> a +:+ tag +:+ b) ->
         content (ChatPrediction.generation r) = decode (tokenizer self) t).
Proof.
  intros H. unfold chat_completion in H.
  apply bind_Ok in H as (prompts & w1 & Henc & H).
  apply lift_Ok in Henc as [Henc ->].
  apply bind_Ok in H as ([out lps] & w2 & Hgen & H).
  exists prompts, out, lps. split; [done|].
  destruct (generate_lengths T self _ _ _ _ _ _ _ _ _ _ Hgen) as [Hlo Hll].
  pose proof (mapM_result_length _ _ _ Henc) as Hlp.
  pose proof (generate_row_fits T self _ _ _ _ _ _ _ _ _ _ Hgen) as Hbound.
  apply mapM_result_Ok in Henc.
  assert (forall i dialog, dialogs !! i = Some dialog ->
            exists prompt t, prompts !! i = Some prompt /\
              encode_dialog self dialog = Ok prompt /\ out !! i = Some t /\
              length t <= default_max_gen_len self max_gen_len /\
              length prompt + length t <= max_seq_len (params (model self))) as Hrow.
  { intros i dialog Hi.
    destruct (Forall2_lookup_l _ _ _ _ _ Henc Hi) as (prompt & Hp & He).
    destruct (lookup_Some_lt out i) as [t Ht].
    { apply lookup_lt_Some in Hi. lia. }
    pose proof (Hbound i prompt t Hp Ht) as H1. simpl in H1.
    exists prompt, t. repeat split; try done; lia. }
  destruct logprobs.
  - destruct Hll as (l & -> & Hll). simpl in H. apply ret_Ok in H as [-> ->].
    split; [done|]. split.
    { rewrite !length_zip_with, length_fmap. lia. }
    intros i dialog Hi. destruct (Hrow i dialog Hi) as (prompt & t & Hp & He & Ht & Hb1 & Hb2).
    destruct (lookup_Some_lt l i) as [probs Hprobs].
    { apply lookup_lt_Some in Hi. lia. }
    eexists prompt, t, _. split; [done|]. split; [done|]. split; [done|]. split.
    { rewrite lookup_zip_with, lookup_zip_with, Ht. simpl. rewrite Hprobs. simpl.
      rewrite list_lookup_fmap, Hi. simpl. reflexivity. }
    simpl. split; [done|]. split; [done|]. split; [done|].
    intros Hsafe. apply unsafe_request_false in Hsafe. by rewrite Hsafe.
  - simpl in H. apply ret_Ok in H as [-> ->].
    split; [done|]. split.
    { rewrite !length_zip_with, length_fmap. lia. }
    intros i dialog Hi. destruct (Hrow i dialog Hi) as (prompt & t & Hp & He & Ht & Hb1 & Hb2).
    eexists prompt, t, _. split; [done|]. split; [done|]. split; [done|]. split.
    { rewrite lookup_zip_with, Ht. simpl. rewrite list_lookup_fmap, Hi. simpl.
      reflexivity. }
    simpl. split; [done|]. split; [done|]. split; [done|].
    intros Hsafe. apply unsafe_request_false in Hsafe. by rewrite Hsafe.
Qed.

(** X13.  When [text_completion] returns, [generate] has run once on the
    encodings of the prompts (with the start marker, without the end
    marker); there is one record per prompt, in order, whose text is the
    decoding of the generated row; the row, with its prompt unless echoed,
    fits the sequence ceiling; with [logprobs] the record holds one decoded
    piece and one logprob per token of the row, without it neither. *)
Theorem text_completion_returns prompts temperature top_p max_gen_len
    (logprobs echo : bool) w records w' :
  text_completion T self prompts temperature top_p max_gen_len logprobs echo w
    = (Ok records, w') ->
  let prompt_tokens := (fun x => encode (tokenizer self) x true false) <$> prompts in
  exists out lps,
    generate T self prompt_tokens (default_max_gen_len self max_gen_len)
             temperature top_p logprobs echo w = (Ok (out, lps), w') /\
    length records = length prompts /\
    forall i prompt, prompts !! i = Some prompt ->
      exists t r,
        out !! i = Some t /\ records !! i = Some r /\
        CompletionPrediction.generation r = decode (tokenizer self) t /\
        (if echo then 0 else length (encode (tokenizer self) prompt true false))
          + length t <= max_seq_len (params (model self)) /\
        (if logprobs
         then CompletionPrediction.tokens r
                = Some ((fun x => decode (tokenizer self) [x]) <$> t) /\
              exists l probs,
                lps = Some l /\ l !! i = Some probs /\ length probs = length t /\
                CompletionPrediction.logprobs r = Some probs
         else CompletionPrediction.tokens r = None /\
              CompletionPrediction.logprobs r = None).
Proof.
  intros H prompt_tokens. unfold text_completion in H. fold prompt_tokens in H.
  apply bind_Ok in H as ([out lps] & w2 & Hgen & H).
  exists out, lps.
  destruct (generate_lengths T self _ _ _ _ _ _ _ _ _ _ Hgen) as [Hlo Hll].
  pose proof (generate_row_fits T self _ _ _ _ _ _ _ _ _ _ Hgen) as Hbound.
  assert (length prompt_tokens = length prompts) as Hlp
    by (unfold prompt_tokens; by rewrite length_fmap).
  assert (forall i prompt, prompts !! i = Some prompt ->
            exists t, out !! i = Some t /\
              (if echo then 0 else length (encode (tokenizer self) prompt true false))
                + length t <= max_seq_len (params (model self))) as Hrow.
  { intros i prompt Hi.
    destruct (lookup_Some_lt out i) as [t Ht].
    { apply lookup_lt_Some in Hi. lia. }
    assert (prompt_tokens !! i = Some (encode (tokenizer self) prompt true false)) as Hp
      by (unfold prompt_tokens; by rewrite list_lookup_fmap, Hi).
    pose proof (Hbound i _ t Hp Ht) as H1.
    exists t. split; [done | lia]. }
  destruct logprobs.
  - destruct (generate_logprobs_rows T self _ _ _ _ _ _ _ _ _ Hgen)
      as (l & -> & Hal).
    simpl in H. apply ret_Ok in H as [-> ->].
    split; [done|]. split.
    { rewrite length_zip_with. apply Forall2_length in Hal. lia. }
    intros i prompt Hi. destruct (Hrow i prompt Hi) as (t & Ht & Hb).
    destruct (Forall2_lookup_l _ _ _ _ _ Hal Ht) as (probs & Hprobs & Hpl).
    eexists t, _. split; [done|]. split.
    { rewrite lookup_zip_with, Ht. simpl. rewrite Hprobs. simpl. reflexivity. }
    simpl. split; [done|]. split; [done|]. split; [done|]. by exists l, probs.
  - simpl in H. apply ret_Ok in H as [-> ->].
    split; [done|]. split.
    { rewrite length_fmap. lia. }
    intros i prompt Hi. destruct (Hrow i prompt Hi) as (t & Ht & Hb).
    eexists t, _. split; [done|]. split.
    { rewrite list_lookup_fmap, Ht. simpl. reflexivity. }
    simpl. done.
Qed.

End MoreChatFacts.

(** * The properties on the concrete instance *)

Import Toy.

Lemma generate_preserves_prompts_witness :
  exists s w',
    generate_prefix numerics (llama 4 16) 2 [[5; 6]; [7]]%Z 3 0%Q (9#10)%Q false
                    (world0 4 16) = (Ok s, w') /\
    exists row, tokens s !! 0 = Some row /\ row !! 1 = Some 6%Z.
Proof.
  eexists _, _. split; [vm_compute; reflexivity|].
  refine (proj1 (generate_preserves_prompts numerics (llama 4 16)
                   [[5; 6]; [7]]%Z 3 0%Q (9#10)%Q false (world0 4 16) _)
                2 _ _ _ 0 [5; 6]%Z 1 6%Z _ _).
  - repeat (apply Forall_cons_2; [apply (bool_decide_unpack _); vm_compute; exact I|]).
    apply Forall_nil_2.
  - vm_compute; reflexivity.
  - reflexivity.
  - reflexivity.
Defined.

(** C2, the claim as stated fails for a prompt that holds [pad_id]: with
    [pad_id = -1] and the prompts [[5], [7, -1]], the first step writes the
    model's token over the second token of the second prompt. *)
Lemma generate_overwrites_pad_in_prompt :
  exists s w',
    generate_prefix numerics (llama 4 16) 1 [[5]; [7; -1]]%Z 1 0%Q (9#10)%Q false
                    (world0 4 16) = (Ok s, w') /\
    [[5]; [7; -1]]%Z !! 1 = Some [7; -1]%Z /\
    [7; -1]%Z !! 1 = Some (-1)%Z /\
    tokens s !! 1 = Some [7; 0; -1]%Z.
Proof. eexists _, _. split; [vm_compute; reflexivity|]. done. Qed.

Lemma eos_reached_monotone_and_break_witness :
  generate_setup numerics (llama 4 16) [[1]; [1]]%Z 5 (world0 4 16)
    = (Ok eos_setup, world0 4 16) /\
  run_steps numerics (llama 4 16) 0%Q (9#10)%Q false (input_text_mask eos_setup)
            (take 1 (columns eos_setup)) (start eos_setup) (world0 4 16)
    = (Ok eos_step, Build_World numerics (llama 4 16) tt 0 [([[1]; [1]]%Z, 0)]) /\
  eos_reached eos_step !! 0
    = Some (existsb (eos_hit (llama 4 16) [true; false; false; false; false; false]
                             [1; 2; -1; -1; -1; -1]%Z)
                    (take 1 (columns eos_setup))) /\
  eos_reached eos_step !! 0 = Some true /\
  (forall s2 w2,
     run_steps numerics (llama 4 16) 0%Q (9#10)%Q false (input_text_mask eos_setup)
               (take 2 (columns eos_setup)) (start eos_setup) (world0 4 16)
       = (Ok s2, w2) ->
     eos_reached s2 !! 0 = Some true) /\
  length (columns eos_setup) = 5 /\
  exists n, 0 < n /\ n <= 1 /\
    decode_loop numerics (llama 4 16) 0%Q (9#10)%Q false (input_text_mask eos_setup)
                (columns eos_setup) (start eos_setup) (world0 4 16)
    = run_steps numerics (llama 4 16) 0%Q (9#10)%Q false (input_text_mask eos_setup)
                (take n (columns eos_setup)) (start eos_setup) (world0 4 16) /\
    exists s' w',
      run_steps numerics (llama 4 16) 0%Q (9#10)%Q false (input_text_mask eos_setup)
                (take n (columns eos_setup)) (start eos_setup) (world0 4 16)
        = (Ok s', w') /\
      forallb id (eos_reached s') = true.
Proof.
  assert (generate_setup numerics (llama 4 16) [[1]; [1]]%Z 5 (world0 4 16)
          = (Ok eos_setup, world0 4 16)) as E by (vm_compute; reflexivity).
  assert (run_steps numerics (llama 4 16) 0%Q (9#10)%Q false
                    (input_text_mask eos_setup) (take 1 (columns eos_setup))
                    (start eos_setup) (world0 4 16)
          = (Ok eos_step, Build_World numerics (llama 4 16) tt 0 [([[1]; [1]]%Z, 0)]))
    as E1 by (vm_compute; reflexivity).
  destruct (eos_reached_monotone_and_break numerics (llama 4 16) _ _
              0%Q (9#10)%Q false _ _ _ E)
    as (Hflag & Hmono & _ & n & Hn & Heq & Hbefore & Hstop).
  split; [exact E|]. split; [exact E1|]. split.
  { eapply (Hflag 1); [exact E1 | reflexivity | reflexivity]. }
  split; [reflexivity|]. split.
  { intros s2 w2 E2.
    eapply (Hmono 1 2); [lia | exact E1 | exact E2 | reflexivity]. }
  split; [reflexivity|].
  assert (n <= 1) as Hn1.
  { destruct (decide (1 < n)) as [Hlt|]; [exfalso|lia].
    assert (forallb id (eos_reached eos_step) = false) as Hf
      by (eapply (Hbefore 1); [lia | exact Hlt | exact E1]).
    discriminate Hf. }
  assert (n < length (columns eos_setup)) as Hlt.
  { change (length (columns eos_setup)) with 5. lia. }
  destruct (Hstop Hlt) as (Hpos & s' & w' & Hrun & Hall).
  exists n. split; [exact Hpos|]. split; [exact Hn1|]. split; [exact Heq|].
  exists s', w'. split; [exact Hrun | exact Hall].
Defined.

(** C9, the claim as stated fails for a prompt that holds [pad_id]: with
    [pad_id = -1], [eos_id = 2] and the prompts [[5], [1, -1]], the step at
    column 1 sets the flag of the second row on a column inside its prompt,
    while no column outside its prompt holds the end marker. *)
Lemma eos_flag_set_inside_prompt :
  exists s w',
    generate_prefix numerics (llama 4 16) 1 [[5]; [1; -1]]%Z 1 0%Q (9#10)%Q false
                    (world0 4 16) = (Ok s, w') /\
    [[5]; [1; -1]]%Z !! 1 = Some [1; -1]%Z /\
    eos_reached s !! 1 = Some true /\
    forall row j, tokens s !! 1 = Some row -> length [1; -1]%Z <= j ->
      row !! j <> Some (eos_id tok).
Proof.
  eexists _, _. split; [vm_compute; reflexivity|]. split; [done|]. split; [done|].
  intros row j [= <-] Hj. simpl in Hj.
  destruct j as [|[|[|j]]]; [lia | lia | discriminate | discriminate].
Qed.

Lemma input_text_mask_from_pad_id_witness :
  generate_setup numerics (llama 4 16) [[5]; [1; -1]]%Z 1 (world0 4 16)
    = (Ok pad_setup, world0 4 16) /\
  decode_step numerics (llama 4 16) 0%Q (9#10)%Q false (input_text_mask pad_setup) 1
              (start pad_setup) (world0 4 16)
    = (Ok pad_step, Build_World numerics (llama 4 16) tt 0 [([[5]; [1]]%Z, 0)]) /\
  (exists cand,
     tokens pad_step !! 1 = Some (<[1 := cand]> [1; -1; -1]%Z) /\
     eos_reached pad_step !! 1 = Some (false || (cand =? eos_id tok)%Z)) /\
  tokens pad_step !! 1 = Some [1; 2; -1]%Z /\
  eos_reached pad_step !! 1 = Some true.
Proof.
  assert (generate_setup numerics (llama 4 16) [[5]; [1; -1]]%Z 1 (world0 4 16)
          = (Ok pad_setup, world0 4 16)) as E by (vm_compute; reflexivity).
  assert (decode_step numerics (llama 4 16) 0%Q (9#10)%Q false
                      (input_text_mask pad_setup) 1 (start pad_setup) (world0 4 16)
          = (Ok pad_step, Build_World numerics (llama 4 16) tt 0 [([[5]; [1]]%Z, 0)]))
    as Estep by (vm_compute; reflexivity).
  split; [exact E|]. split; [exact Estep|]. split; [|split; reflexivity].
  destruct (input_text_mask_from_pad_id numerics (llama 4 16) _ _
              0%Q (9#10)%Q false _ _ _ E) as (_ & Hstep & _).
  destruct (Hstep 1 _ _ _ _ 1 [1; -1]%Z [1; -1; -1]%Z false Estep)
    as (_ & _ & _ & _ & cand & _ & _ & _ & _ & Htok & Hflag);
    [reflexivity | reflexivity | reflexivity | reflexivity | reflexivity |].
  exists cand. split; [exact Htok | exact Hflag].
Defined.

Lemma generate_rejects_oversized_witness :
  exists a,
    generate numerics (llama 1 8) [[5]; [6]]%Z 3 0%Q (9#10)%Q false false (world0 1 8)
      = (Raise (AssertionError a), world0 1 8).
Proof.
  apply (generate_rejects_oversized numerics (llama 1 8)).
  left. simpl. lia.
Defined.

Lemma full_prompt_scores_same_column_witness :
  generate_setup numerics (llama 4 2) [[5; 6]; [7; 3]]%Z 5 (world0 4 2)
    = (Ok full_setup,
       Build_World numerics (llama 4 2) tt 0 [([[5; 6]; [7; 3]]%Z, 0)]) /\
  exists lps,
    token_logprobs (start full_setup) !! 0 = Some lps /\
    lps !! 0 = Some (- nll numerics (successor_logits 5) 5)%Q /\
    (- nll numerics (successor_logits 5) 5 == 0)%Q /\
    (- nll numerics (successor_logits 5) 6 == 1)%Q.
Proof.
  assert (generate_setup numerics (llama 4 2) [[5; 6]; [7; 3]]%Z 5 (world0 4 2)
          = (Ok full_setup,
             Build_World numerics (llama 4 2) tt 0 [([[5; 6]; [7; 3]]%Z, 0)])) as E
    by (vm_compute; reflexivity).
  split; [exact E|].
  destruct (full_prompt_scores_same_column numerics (llama 4 2) _ _
              0%Q (9#10)%Q true _ _ _ E eq_refl)
    as (_ & _ & logits & Hf & _ & _ & Hlp).
  destruct (Hlp 0 0 [5; 6]%Z (successor_logits <$> [5; 6]%Z) (successor_logits 5) 5%Z)
    as (lps & Hlps & Hj).
  - reflexivity.
  - reflexivity.
  - revert Hf. vm_compute. intros [= <-]. reflexivity.
  - reflexivity.
  - exists lps. split; [exact Hlps|]. split; [exact Hj|]. split; reflexivity.
Defined.

Lemma generate_output_trimmed_witness :
  generate numerics (llama 4 16) [[5; 6]; [7]]%Z 3 0%Q (9#10)%Q true false
           (world0 4 16)
    = (Ok ([[7; 0; 1]; [0; 1]]%Z, Some [[1; 1; 1]; [1; 1]]%Q),
       Build_World numerics (llama 4 16) tt 0
         [([[5]; [7]]%Z, 0); ([[6]; [0]]%Z, 1); ([[7]; [1]]%Z, 2);
          ([[0]; [2]]%Z, 3)]) /\
  length [0; 1]%Z <= 3 /\
  (eos_id tok ∉ [0; 1]%Z).
Proof.
  assert (generate numerics (llama 4 16) [[5; 6]; [7]]%Z 3 0%Q (9#10)%Q true false
                   (world0 4 16)
          = (Ok ([[7; 0; 1]; [0; 1]]%Z, Some [[1; 1; 1]; [1; 1]]%Q),
             Build_World numerics (llama 4 16) tt 0
               [([[5]; [7]]%Z, 0); ([[6]; [0]]%Z, 1); ([[7]; [1]]%Z, 2);
                ([[0]; [2]]%Z, 3)])) as E by (vm_compute; reflexivity).
  split; [exact E|].
  destruct (generate_output_trimmed numerics (llama 4 16) _ _ _ _ _ _ _ _ _ E)
    as (s & _ & _ & Hrows).
  destruct (Hrows 1 [7]%Z eq_refl) as (row & toks & _ & Ho & _ & Hmax & Hno & _).
  injection Ho as <-. split; [exact Hmax | exact Hno].
Defined.

Lemma generate_greedy_deterministic_witness :
  (generate numerics (llama 4 16) [[5; 6]; [7]]%Z 3 0%Q (9#10)%Q false false
            (world0 4 16)).1
  = (generate numerics (llama 4 16) [[5; 6]; [7]]%Z 3 0%Q (1#2)%Q false false
              (Build_World numerics (llama 4 16) tt 41 [])).1.
Proof.
  apply (generate_greedy_deterministic numerics (llama 4 16) [[5; 6]; [7]]%Z 3 0%Q
           false false (9#10)%Q (1#2)%Q (world0 4 16)
           (Build_World numerics (llama 4 16) tt 41 [])).
  - intros H. discriminate H.
  - reflexivity.
Defined.

(** C6, the claim as stated fails on [system, user, assistant]: the dialog
    is not accepted, it raises the last-message assertion. *)
Lemma system_user_assistant_rejected :
  encode_dialog (llama 4 64) [msg system "s"; msg user "u"; msg assistant "a"]
    = Raise (AssertionError LastMessageAssertion) /\
  (chat_completion numerics (llama 4 64)
     [[msg system "s"; msg user "u"; msg assistant "a"]] 0%Q (9#10)%Q None false
     (world0 4 64)).1
    = Raise (AssertionError LastMessageAssertion).
Proof. split; reflexivity. Qed.

Lemma chat_completion_unsafe_witness :
  mapM (encode_dialog (llama 4 64)) [[msg user "[INST]"]] = Ok [inst_prompt] /\
  exists records,
    chat_completion numerics (llama 4 64) [[msg user "[INST]"]] 0%Q (9#10)%Q
                    (Some 2) true (world0 4 64)
      = (Ok records,
         Build_World numerics (llama 4 64) tt 0
           [([inst_prompt], 0); ([[1]]%Z, 22)]) /\
    exists r, records !! 0 = Some r /\
      content (ChatPrediction.generation r) = UNSAFE_ERROR /\
      ChatPrediction.logprobs r = Some [1%Q].
Proof.
  assert (mapM (encode_dialog (llama 4 64)) [[msg user "[INST]"]] = Ok [inst_prompt])
    as Eenc by (vm_compute; reflexivity).
  assert (generate numerics (llama 4 64) [inst_prompt]
                   (default_max_gen_len (llama 4 64) (Some 2)) 0%Q (9#10)%Q true
                   false (world0 4 64)
          = (Ok ([[1]]%Z, Some [[1]]%Q),
             Build_World numerics (llama 4 64) tt 0
               [([inst_prompt], 0); ([[1]]%Z, 22)])) as Egen
    by (vm_compute; reflexivity).
  split; [exact Eenc|].
  destruct (chat_completion_unsafe numerics (llama 4 64) _ 0%Q (9#10)%Q (Some 2)
              true _ _ _ _ _ Eenc Egen) as (records & Hrec & _ & Hrows).
  exists records. split; [exact Hrec|].
  destruct (Hrows 0 [msg user "[INST]"] eq_refl)
    as (_ & t & r & _ & Hr & Hgen & _ & l & probs & Hl & Hprobs & Hlp).
  { exists (msg user "[INST]"), "[INST]"%string, EmptyString, EmptyString.
    split; [left|]. split; [left | reflexivity]. }
  exists r. split; [exact Hr|]. split.
  - rewrite Hgen. reflexivity.
  - rewrite Hlp. injection Hl as <-. injection Hprobs as <-. reflexivity.
Defined.

Lemma dialog_validation_examples_witness :
  (exists toks,
     encode_dialog (llama 4 64) [msg user "hi"; msg assistant "yo"; msg user "ok"]
     = Ok toks) /\
  chat_completion numerics (llama 4 64) [[msg user "a"; msg user "b"]]
                  0%Q (9#10)%Q None false (world0 4 64)
  = (Raise (AssertionError RoleOrderAssertion), world0 4 64).
Proof.
  destruct (dialog_validation_examples numerics (llama 4 64) "hi" "yo" "ok")
    as (Hacc & _ & _ & _ & _ & _ & Hfail).
  split; [exact Hacc|].
  apply Hfail. reflexivity.
Defined.

(** The model of the concrete instance keeps the shape contract, so greedy
    decoding returns on it. *)
Lemma successor_model_well_shaped max_bsz max_len :
  well_shaped_model (llama max_bsz max_len).
Proof.
  intros ms toks pos. simpl. split.
  - rewrite <- list_fmap_compose. apply list_fmap_ext. intros _ row _. simpl.
    now rewrite length_fmap.
  - apply Forall_fmap, Forall_forall. intros row _. simpl.
    apply Forall_fmap, Forall_forall. intros t _. simpl. done.
Qed.

Lemma generate_greedy_returns_example :
  exists out w',
    generate numerics (llama 4 16) [[5; 6]; [7]]%Z 3 0%Q (9#10)%Q true false
             (world0 4 16) = (Ok out, w').
Proof.
  apply generate_greedy_returns.
  - apply successor_model_well_shaped.
  - intros H. discriminate H.
  - discriminate.
  - repeat constructor; discriminate.
  - simpl. lia.
  - repeat constructor; simpl; lia.
Qed.

(** * The further properties on the concrete instance *)

Lemma sample_top_p_returns_index_witness :
  sample_top_p binary32_arith (multinomial numerics) [1#8; 5#8; 2#8]%Q (1#2)%Q 0
    = (Ok 1%Z, 1) /\
  exists x,
    [1#8; 5#8; 2#8]%Q !! Z.to_nat 1 = Some x /\ (0 <= 1 < Z.of_nat 3)%Z.
Proof.
  assert (sample_top_p binary32_arith (multinomial numerics) [1#8; 5#8; 2#8]%Q
                       (1#2)%Q 0
          = (Ok 1%Z, 1)) as E by (vm_compute; reflexivity).
  split; [exact E|].
  destruct (sample_top_p_returns_index _ _ _ _ _ _ _ E)
    as (k & x & _ & _ & Hx & Hrange & _).
  exists x. split; [exact Hx | exact Hrange].
Defined.


Lemma generate_returns_step_candidates_witness :
  generate numerics (llama 4 16) [[5; 6]; [7]]%Z 3 0%Q (9#10)%Q true false
           (world0 4 16)
    = (Ok ([[7; 0; 1]; [0; 1]]%Z, Some [[1; 1; 1]; [1; 1]]%Q),
       Build_World numerics (llama 4 16) tt 0
         [([[5]; [7]]%Z, 0); ([[6]; [0]]%Z, 1); ([[7]; [1]]%Z, 2);
          ([[0]; [2]]%Z, 3)]) /\
  exists st n (candidates : list Z),
    n <= length (columns st) /\
    length [5; 6]%Z + 0 ∈ take n (columns st) /\
    candidates !! 0 = Some 7%Z /\ (0 <= 7)%Z.
Proof.
  assert (generate numerics (llama 4 16) [[5; 6]; [7]]%Z 3 0%Q (9#10)%Q true false
                   (world0 4 16)
          = (Ok ([[7; 0; 1]; [0; 1]]%Z, Some [[1; 1; 1]; [1; 1]]%Q),
             Build_World numerics (llama 4 16) tt 0
               [([[5]; [7]]%Z, 0); ([[6]; [0]]%Z, 1); ([[7]; [1]]%Z, 2);
                ([[0]; [2]]%Z, 3)])) as E by (vm_compute; reflexivity).
  split; [exact E|].
  destruct (generate_returns_step_candidates numerics (llama 4 16) _ _ _ _ _ _ _ _ _ E)
    as (st & w1 & n & s & _ & Hn & _ & Hrows).
  destruct (Hrows 0 [5; 6]%Z [7; 0; 1]%Z eq_refl) with (idx := 0) (t := 7%Z)
    as (Hvisited & _ & s0 & w0 & logits & last_logits & wl & candidates & s1 & w2
        & _ & _ & _ & _ & _ & Hcand & Hnn).
  - apply (bool_decide_unpack _). vm_compute. exact I.
  - reflexivity.
  - reflexivity.
  - exists st, n, candidates. split; [exact Hn|]. split; [exact Hvisited|].
    split; [exact Hcand | exact Hnn].
Defined.

Lemma generate_respects_max_seq_len_witness :
  generate numerics (llama 4 16) [[5; 6]; [7]]%Z 3 0%Q (9#10)%Q true false
           (world0 4 16)
    = (Ok ([[7; 0; 1]; [0; 1]]%Z, Some [[1; 1; 1]; [1; 1]]%Q),
       Build_World numerics (llama 4 16) tt 0
         [([[5]; [7]]%Z, 0); ([[6]; [0]]%Z, 1); ([[7]; [1]]%Z, 2);
          ([[0]; [2]]%Z, 3)]) /\
  length [5; 6]%Z + length [7; 0; 1]%Z <= 16 /\
  length [5; 6]%Z + length [7; 0; 1]%Z <= length [5; 6]%Z + 3.
Proof.
  assert (generate numerics (llama 4 16) [[5; 6]; [7]]%Z 3 0%Q (9#10)%Q true false
                   (world0 4 16)
          = (Ok ([[7; 0; 1]; [0; 1]]%Z, Some [[1; 1; 1]; [1; 1]]%Q),
             Build_World numerics (llama 4 16) tt 0
               [([[5]; [7]]%Z, 0); ([[6]; [0]]%Z, 1); ([[7]; [1]]%Z, 2);
                ([[0]; [2]]%Z, 3)])) as E by (vm_compute; reflexivity).
  split; [exact E|].
  apply (generate_respects_max_seq_len numerics (llama 4 16) _ _ _ _ _ _ _ _ _ _ E
           0 [5; 6]%Z [7; 0; 1]%Z); reflexivity.
Defined.

Lemma generate_echo_prepends_prompt_witness :
  generate numerics (llama 4 16) [[5; 6]; [7]]%Z 3 0%Q (9#10)%Q true true
           (world0 4 16)
    = (Ok ([[5; 6; 7; 0; 1]; [7; 0; 1]]%Z,
           Some [[0; 1; 1; 1; 1]; [0; 1; 1]]%Q),
       Build_World numerics (llama 4 16) tt 0
         [([[5]; [7]]%Z, 0); ([[6]; [0]]%Z, 1); ([[7]; [1]]%Z, 2);
          ([[0]; [2]]%Z, 3)]) /\
  exists out lps,
    generate numerics (llama 4 16) [[5; 6]; [7]]%Z 3 0%Q (9#10)%Q true false
             (world0 4 16)
      = (Ok (out, lps),
         Build_World numerics (llama 4 16) tt 0
           [([[5]; [7]]%Z, 0); ([[6]; [0]]%Z, 1); ([[7]; [1]]%Z, 2);
            ([[0]; [2]]%Z, 3)]) /\
    forall toks, out !! 1 = Some toks ->
      [[5; 6; 7; 0; 1]; [7; 0; 1]]%Z !! 1 = Some ([7]%Z ++ toks).
Proof.
  assert (generate numerics (llama 4 16) [[5; 6]; [7]]%Z 3 0%Q (9#10)%Q true true
                   (world0 4 16)
          = (Ok ([[5; 6; 7; 0; 1]; [7; 0; 1]]%Z,
                 Some [[0; 1; 1; 1; 1]; [0; 1; 1]]%Q),
             Build_World numerics (llama 4 16) tt 0
               [([[5]; [7]]%Z, 0); ([[6]; [0]]%Z, 1); ([[7]; [1]]%Z, 2);
                ([[0]; [2]]%Z, 3)])) as E by (vm_compute; reflexivity).
  split; [exact E|].
  destruct (generate_echo_prepends_prompt numerics (llama 4 16) _ _ _ _ _ _ _ _ _ E)
    as (out & lps & Hgen & Hrows).
  exists out, lps. split; [exact Hgen|].
  intros toks Ht. apply (Hrows 1 [7]%Z toks); [reflexivity | | | exact Ht].
  - apply (bool_decide_unpack _). vm_compute. exact I.
  - apply (bool_decide_unpack _). vm_compute. exact I.
Defined.

Lemma generate_grid_calls_witness :
  generate_grid numerics (llama 4 16) [[5; 6]; [7]]%Z 3 0%Q (9#10)%Q false
                (world0 4 16)
    = (Ok {| tokens := [[5; 6; 7; 0; 1]; [7; 0; 1; 2; 3]]%Z;
             token_logprobs := [[0; 0; 0; 0; 0]; [0; 0; 0; 0; 0]]%Q;
             prev_pos := 4;
             eos_reached := [false; true] |},
       Build_World numerics (llama 4 16) tt 0
         [([[5]; [7]]%Z, 0); ([[6]; [0]]%Z, 1); ([[7]; [1]]%Z, 2);
          ([[0]; [2]]%Z, 3)]) /\
  exists st w1 new,
    generate_setup numerics (llama 4 16) [[5; 6]; [7]]%Z 3 (world0 4 16)
      = (Ok st, w1) /\
    [([[5]; [7]]%Z, 0); ([[6]; [0]]%Z, 1); ([[7]; [1]]%Z, 2); ([[0]; [2]]%Z, 3)]
      = calls w1 ++ new /\
    length new <= total_len st - min_prompt_len st /\
    new.*2 = take (length new) (0 :: columns st).
Proof.
  assert (generate_grid numerics (llama 4 16) [[5; 6]; [7]]%Z 3 0%Q (9#10)%Q false
                        (world0 4 16)
          = (Ok {| tokens := [[5; 6; 7; 0; 1]; [7; 0; 1; 2; 3]]%Z;
                   token_logprobs := [[0; 0; 0; 0; 0]; [0; 0; 0; 0; 0]]%Q;
                   prev_pos := 4;
                   eos_reached := [false; true] |},
             Build_World numerics (llama 4 16) tt 0
               [([[5]; [7]]%Z, 0); ([[6]; [0]]%Z, 1); ([[7]; [1]]%Z, 2);
                ([[0]; [2]]%Z, 3)])) as E by (vm_compute; reflexivity).
  split; [exact E|].
  destruct (generate_grid_calls numerics (llama 4 16) _ _ _ _ _ _ _ _ E)
    as (st & w1 & new & Hsetup & _ & Hnew & Hlen & Hpos & _).
  exists st, w1, new. split; [exact Hsetup|]. split; [exact Hnew|].
  split; [exact Hlen | exact Hpos].
Defined.

Lemma generate_empty_prompt_witness :
  exists w',
    generate numerics (llama 4 16) [[]; [5]]%Z 0 0%Q (9#10)%Q false false
             (world0 4 16) = (Raise IndexError, w') /\
    calls w' = [] ++ [([[]; []]%Z, 0)].
Proof.
  apply (generate_empty_prompt numerics (llama 4 16) [[]; [5]]%Z 0 0%Q (9#10)%Q
           false false (world0 4 16) 1).
  - apply successor_model_well_shaped.
  - apply Forall_cons_2; [apply Forall_nil_2|].
    apply Forall_cons_2; [|apply Forall_nil_2].
    apply Forall_cons_2; [|apply Forall_nil_2].
    split; [discriminate | reflexivity].
  - apply list_elem_of_here.
  - simpl. lia.
  - reflexivity.
  - simpl. lia.
  - vm_compute. lia.
Defined.

Lemma generate_logprobs_aligned_witness :
  generate numerics (llama 4 16) [[5; 6]; [7]]%Z 3 0%Q (9#10)%Q true false
           (world0 4 16)
    = (Ok ([[7; 0; 1]; [0; 1]]%Z, Some [[1; 1; 1]; [1; 1]]%Q),
       Build_World numerics (llama 4 16) tt 0
         [([[5]; [7]]%Z, 0); ([[6]; [0]]%Z, 1); ([[7]; [1]]%Z, 2);
          ([[0]; [2]]%Z, 3)]) /\
  exists lps,
    Some [[1; 1; 1]; [1; 1]]%Q = Some lps /\
    exists lp, lps !! 1 = Some lp /\ length lp = length [0; 1]%Z.
Proof.
  assert (generate numerics (llama 4 16) [[5; 6]; [7]]%Z 3 0%Q (9#10)%Q true false
                   (world0 4 16)
          = (Ok ([[7; 0; 1]; [0; 1]]%Z, Some [[1; 1; 1]; [1; 1]]%Q),
             Build_World numerics (llama 4 16) tt 0
               [([[5]; [7]]%Z, 0); ([[6]; [0]]%Z, 1); ([[7]; [1]]%Z, 2);
                ([[0]; [2]]%Z, 3)])) as E by (vm_compute; reflexivity).
  split; [exact E|].
  destruct (generate_logprobs_aligned numerics (llama 4 16) _ _ _ _ _ _ _ _ _ E)
    as (lps & Hl & _ & Hrows).
  exists lps. split; [exact Hl|]. apply (Hrows 1 [0; 1]%Z). reflexivity.
Defined.

Lemma decode_step_logprobs_witness :
  decode_step numerics (llama 4 16) 0%Q (9#10)%Q true (input_text_mask single_setup)
              1 (start single_setup) (world0 4 16)
    = (Ok {| tokens := [[5; 6]]%Z; token_logprobs := [[0; 1]]%Q;
             prev_pos := 1; eos_reached := [false] |},
       Build_World numerics (llama 4 16) tt 0 [([[5]]%Z, 0)]) /\
  exists lps',
    [[0; 1]]%Q !! 0 = Some lps' /\
    lps' !! 0 = [0; 0]%Q !! 0 /\
    lps' !! 1 = Some (- nll numerics (successor_logits 5) 6)%Q.
Proof.
  assert (decode_step numerics (llama 4 16) 0%Q (9#10)%Q true
                      (input_text_mask single_setup) 1 (start single_setup)
                      (world0 4 16)
          = (Ok {| tokens := [[5; 6]]%Z; token_logprobs := [[0; 1]]%Q;
                   prev_pos := 1; eos_reached := [false] |},
             Build_World numerics (llama 4 16) tt 0 [([[5]]%Z, 0)])) as E
    by (vm_compute; reflexivity).
  assert (model_forward numerics (llama 4 16)
            (slice (prev_pos (start single_setup)) 1 <$> tokens (start single_setup))
            (prev_pos (start single_setup)) (world0 4 16)
          = (Ok [[successor_logits 5]],
             Build_World numerics (llama 4 16) tt 0 [([[5]]%Z, 0)])) as Efw
    by reflexivity.
  split; [exact E|].
  destruct (decode_step_logprobs numerics (llama 4 16) _ _ _ _ _ _ _ _ 2 E)
    as (logits & w1 & Hfw & Hrows).
  - simpl. lia.
  - lia.
  - reflexivity.
  - repeat (apply Forall_cons_2; [reflexivity|]). apply Forall_nil_2.
  - repeat (apply Forall_cons_2; [reflexivity|]). apply Forall_nil_2.
  - reflexivity.
  - destruct (Hrows 0 [5; 6]%Z [0; 0]%Q eq_refl eq_refl) as (lps' & Hl & Hkeep & Hnew).
    exists lps'. split; [exact Hl|]. split.
    + apply Hkeep. left. simpl. lia.
    + apply (Hnew 1 6%Z [successor_logits 5] (successor_logits 5)).
      * simpl. lia.
      * lia.
      * reflexivity.
      * pose proof (eq_trans (eq_sym Hfw) Efw) as Heq.
        apply (f_equal (fun r => match r.1 with Ok l => l !! 0 | Raise _ => None end))
          in Heq.
        exact Heq.
      * reflexivity.
Defined.

Lemma chat_completion_first_invalid_witness :
  chat_completion numerics (llama 4 64)
                  ([[msg user "a"]] ++ [msg assistant "b"] :: [[msg user "c"]])
                  0%Q (9#10)%Q None false (world0 4 64)
  = (Raise (AssertionError RoleOrderAssertion), world0 4 64).
Proof.
  apply chat_completion_first_invalid.
  - apply Forall_cons_2; [|apply Forall_nil_2]. eexists. reflexivity.
  - reflexivity.
Defined.

Lemma chat_completion_returns_witness :
  chat_completion numerics (llama 4 64) [[msg user "hi"]] 0%Q (9#10)%Q (Some 2)
                  false (world0 4 64)
    = (Ok [{| ChatPrediction.generation := msg assistant (decode tok [1]%Z);
              ChatPrediction.tokens := None;
              ChatPrediction.logprobs := None |}],
       Build_World numerics (llama 4 64) tt 0
         [([[1; 94; 76; 81; 86; 87; 96; 35; 107; 108; 35; 94; 50; 76; 81; 86; 87;
             96]]%Z, 0);
          ([[1]]%Z, 18)]) /\
  exists prompt t,
    encode_dialog (llama 4 64) [msg user "hi"] = Ok prompt /\
    length t <= 2 /\ length prompt + length t <= 64 /\
    decode tok [1]%Z = decode tok t.
Proof.
  assert (chat_completion numerics (llama 4 64) [[msg user "hi"]] 0%Q (9#10)%Q
                          (Some 2) false (world0 4 64)
          = (Ok [{| ChatPrediction.generation := msg assistant (decode tok [1]%Z);
                    ChatPrediction.tokens := None;
                    ChatPrediction.logprobs := None |}],
             Build_World numerics (llama 4 64) tt 0
               [([[1; 94; 76; 81; 86; 87; 96; 35; 107; 108; 35; 94; 50; 76; 81; 86;
                   87; 96]]%Z, 0);
                ([[1]]%Z, 18)])) as E by (vm_compute; reflexivity).
  split; [exact E|].
  destruct (chat_completion_returns numerics (llama 4 64) _ _ _ _ _ _ _ _ E)
    as (prompts & out & lps & _ & _ & _ & Hrows).
  destruct (Hrows 0 [msg user "hi"] eq_refl)
    as (prompt & t & r & _ & Henc & _ & Hr & _ & Hlen & Hfit & Hsafe).
  exists prompt, t. split; [exact Henc|]. split; [exact Hlen|]. split; [exact Hfit|].
  injection Hr as <-. apply Hsafe. apply unsafe_request_false. reflexivity.
Defined.

Lemma text_completion_returns_witness :
  text_completion numerics (llama 4 16) ["a"%string] 0%Q (9#10)%Q (Some 3) true false
                  (world0 4 16)
    = (Ok [{| CompletionPrediction.generation := decode tok [5; 6; 7]%Z;
              CompletionPrediction.tokens :=
                Some [decode tok [5]%Z; decode tok [6]%Z; decode tok [7]%Z];
              CompletionPrediction.logprobs := Some [1; 1; 1]%Q |}],
       Build_World numerics (llama 4 16) tt 0
         [([[1; 100]]%Z, 0); ([[5]]%Z, 2); ([[6]]%Z, 3)]) /\
  exists t probs,
    decode tok [5; 6; 7]%Z = decode tok t /\
    length (encode tok "a" true false) + length t <= 16 /\
    length probs = length t /\ Some [1; 1; 1]%Q = Some probs.
Proof.
  assert (text_completion numerics (llama 4 16) ["a"%string] 0%Q (9#10)%Q (Some 3)
                          true false (world0 4 16)
          = (Ok [{| CompletionPrediction.generation := decode tok [5; 6; 7]%Z;
                    CompletionPrediction.tokens :=
                      Some [decode tok [5]%Z; decode tok [6]%Z; decode tok [7]%Z];
                    CompletionPrediction.logprobs := Some [1; 1; 1]%Q |}],
             Build_World numerics (llama 4 16) tt 0
               [([[1; 100]]%Z, 0); ([[5]]%Z, 2); ([[6]]%Z, 3)])) as E
    by (vm_compute; reflexivity).
  split; [exact E|].
  destruct (text_completion_returns numerics (llama 4 16) _ _ _ _ _ _ _ _ _ E)
    as (out & lps & _ & _ & Hrows).
  destruct (Hrows 0 "a"%string eq_refl)
    as (t & r & _ & Hr & Hgen & Hfit & _ & l & probs & _ & _ & Hpl & Hlp).
  injection Hr as <-.
  exists t, probs. split; [exact Hgen|]. split; [exact Hfit|].
  split; [exact Hpl | exact Hlp].
Defined.
